(** * Hong Kong rainfall monitor: fetch, parse, history and scheduling

    A shallow embedding of [src/data_fetcher.py] (class [HKODataFetcher])
    and [src/real_time_updater.py] (class [RealTimeUpdater]), with the
    properties of the parsing, snapshot assembly, history store and
    background-update start-up that the specification states.

    Conventions of the embedding:
    - a Python [str] is a list of Unicode code points ([ustr]);
    - a Python [float] holding a rainfall figure is an exact rational
      ([Q]); binary64 rounding is not modelled;
    - a [dict] whose insertion order is visible is an association list
      updated in place;
    - a call that can raise returns a sum or an option, and a [try/except]
      is a match on it;
    - the clock, the network and the history file are part of a [world]
      record that the methods take and return: [datetime.now()] and the
      HTTP responses are oracles in it, indexed by the number of readings
      and of requests made so far. *)

From Stdlib Require Import String Ascii List Bool NArith ZArith QArith Lia Lqa.
Import ListNotations.

Set Implicit Arguments.

(** ** Unicode text *)

Module Text.

Definition ustr := list N.

(** Decoder for the UTF-8 bytes of a string literal, so that the patterns
    and the test inputs can be written as they appear in the source. *)
Fixpoint utf8 (bs : list N) : ustr :=
  match bs with
  | [] => []
  | b0 :: r0 =>
    if (b0 <? 128)%N then b0 :: utf8 r0 else
    match r0 with
    | [] => []
    | b1 :: r1 =>
      if (b0 <? 224)%N then ((b0 mod 32) * 64 + b1 mod 64)%N :: utf8 r1 else
      match r1 with
      | [] => []
      | b2 :: r2 =>
        if (b0 <? 240)%N
        then ((b0 mod 16) * 4096 + (b1 mod 64) * 64 + b2 mod 64)%N :: utf8 r2
        else
        match r2 with
        | [] => []
        | b3 :: r3 =>
          ((b0 mod 8) * 262144 + (b1 mod 64) * 4096
           + (b2 mod 64) * 64 + b3 mod 64)%N :: utf8 r3
        end
      end
    end
  end.

Definition U (s : string) : ustr :=
  utf8 (map N_of_ascii (list_ascii_of_string s)).

Definition ustr_eqb (a b : ustr) : bool :=
  if list_eq_dec N.eq_dec a b then true else false.

(** [str.isspace] of one character; the regular-expression class [\s] on
    [str] patterns and the default [str.strip()] use the same predicate. *)
Definition is_space (c : N) : bool :=
  ((9 <=? c) && (c <=? 13) || (28 <=? c) && (c <=? 32)
   || (c =? 133) || (c =? 160) || (c =? 5760)
   || (8192 <=? c) && (c <=? 8202)
   || (c =? 8232) || (c =? 8233) || (c =? 8239) || (c =? 8287)
   || (c =? 12288))%N.

(** First code point of each block of ten Unicode decimal digits
    (category Nd, Unicode 14). *)
Definition decimal_zeros : list N :=
  [ 0x30; 0x660; 0x6f0; 0x7c0; 0x966; 0x9e6; 0xa66; 0xae6; 0xb66; 0xbe6;
    0xc66; 0xce6; 0xd66; 0xde6; 0xe50; 0xed0; 0xf20; 0x1040; 0x1090;
    0x17e0; 0x1810; 0x1946; 0x19d0; 0x1a80; 0x1a90; 0x1b50; 0x1bb0;
    0x1c40; 0x1c50; 0xa620; 0xa8d0; 0xa900; 0xa9d0; 0xa9f0; 0xaa50;
    0xabf0; 0xff10; 0x104a0; 0x10d30; 0x11066; 0x110f0; 0x11136; 0x111d0;
    0x112f0; 0x11450; 0x114d0; 0x11650; 0x116c0; 0x11730; 0x118e0;
    0x11950; 0x11c50; 0x11d50; 0x11da0; 0x16a60; 0x16ac0; 0x16b50;
    0x1d7ce; 0x1d7d8; 0x1d7e2; 0x1d7ec; 0x1d7f6; 0x1e140; 0x1e2f0;
    0x1e950; 0x1fbf0 ]%N.

(** The decimal value of a character, if it is a decimal digit: what
    [\d] tests and what [float] and [int] read. *)
Definition decimal_value (c : N) : option N :=
  match find (fun z => (z <=? c) && (c <? z + 10))%N decimal_zeros with
  | Some z => Some (c - z)%N
  | None => None
  end.

Definition is_digit (c : N) : bool :=
  match decimal_value c with Some _ => true | None => false end.

Fixpoint lstrip (s : ustr) : ustr :=
  match s with
  | c :: s' => if is_space c then lstrip s' else s
  | [] => []
  end.

(** [str.strip()] *)
Definition strip (s : ustr) : ustr := rev (lstrip (rev (lstrip s))).

(** [needle in s] for strings *)
Fixpoint starts_with (p s : ustr) : bool :=
  match p, s with
  | [], _ => true
  | a :: p', b :: s' => (a =? b)%N && starts_with p' s'
  | _ :: _, [] => false
  end.

Fixpoint contains (needle s : ustr) : bool :=
  starts_with needle s ||
  match s with
  | [] => false
  | _ :: s' => contains needle s'
  end.

End Text.
Import Text.

(** ** Regular expressions, as far as the source's patterns use them *)

Module Re.

(** Character classes: a bracket set, [\s], [\d], and [.] *)
Inductive cls :=
| CSet (l : ustr)
| CSpace
| CDigit
| CDot.

Definition in_cls (c : cls) (x : N) : bool :=
  match c with
  | CSet l => existsb (N.eqb x) l
  | CSpace => is_space x
  | CDigit => is_digit x
  | CDot => negb (x =? 10)%N
  end.

(** The patterns of the source repeat single-character classes only. *)
Inductive regex :=
| RLit (l : ustr)
| RCls (c : cls)
| RStar (c : cls)
| RPlus (c : cls)
| ROpt (r : regex)
| RSeq (r1 r2 : regex)
| RAlt (r1 r2 : regex)
| RGroup (i : nat) (r : regex).

(** Captured groups, most recent binding first. *)
Definition groups := list (nat * ustr).

Fixpoint group (g : groups) (i : nat) : ustr :=
  match g with
  | [] => []
  | (j, v) :: g' => if Nat.eqb i j then v else group g' i
  end.

Section Matcher.
Variable X : Type.

(** Greedy repetition of a class: longest run first, then shorter ones. *)
Fixpoint star (c : cls) (s : ustr) (k : ustr -> option X) : option X :=
  match s with
  | x :: s' =>
    if in_cls c x then
      match star c s' k with
      | Some r => Some r
      | None => k s
      end
    else k s
  | [] => k s
  end.

(** Backtracking matcher in continuation-passing style: [rmatch r s g k]
    tries the ways [r] matches a prefix of [s] in the engine's priority
    order and returns the first one the continuation accepts. *)
Fixpoint rmatch (r : regex) (s : ustr) (g : groups)
         (k : ustr -> groups -> option X) : option X :=
  match r with
  | RLit l =>
    if starts_with l s then k (skipn (length l) s) g else None
  | RCls c =>
    match s with
    | x :: s' => if in_cls c x then k s' g else None
    | [] => None
    end
  | RStar c => star c s (fun s' => k s' g)
  | RPlus c =>
    match s with
    | x :: s' => if in_cls c x then star c s' (fun s'' => k s'' g) else None
    | [] => None
    end
  | ROpt r1 =>
    match rmatch r1 s g k with
    | Some x => Some x
    | None => k s g
    end
  | RSeq r1 r2 => rmatch r1 s g (fun s' g' => rmatch r2 s' g' k)
  | RAlt r1 r2 =>
    match rmatch r1 s g k with
    | Some x => Some x
    | None => rmatch r2 s g k
    end
  | RGroup i r1 =>
    rmatch r1 s g
      (fun s' g' => k s' ((i, firstn (length s - length s') s) :: g'))
  end.
End Matcher.

(** Number of capture groups of a pattern. *)
Fixpoint ngroups (r : regex) : nat :=
  match r with
  | RLit _ | RCls _ | RStar _ | RPlus _ => 0
  | ROpt r1 => ngroups r1
  | RGroup _ r1 => S (ngroups r1)
  | RSeq r1 r2 | RAlt r1 r2 => ngroups r1 + ngroups r2
  end.

(** A match anchored at the start of [s]: the groups and the rest. *)
Definition match_here (r : regex) (s : ustr) : option (groups * ustr) :=
  rmatch r s [] (fun s' g => Some (g, s')).

(** What [findall] yields for one match of a pattern with two or more
    groups, as all patterns of the source are: the tuple of group texts,
    the empty string for a group that did not take part. *)
Definition group_tuple (r : regex) (g : groups) : list ustr :=
  map (group g) (seq 1 (ngroups r)).

(** [re.findall] for a pattern that cannot match the empty string, as none
    of the source's can: non-overlapping matches, scanning left to right.
    [skip] counts the characters of the previous match still to be
    passed. *)
Fixpoint findall_from (r : regex) (s : ustr) (skip : nat) : list (list ustr) :=
  match s with
  | [] =>
    match skip, match_here r [] with
    | O, Some (g, _) => [group_tuple r g]
    | _, _ => []
    end
  | _ :: s' =>
    match skip with
    | S n => findall_from r s' n
    | O =>
      match match_here r s with
      | Some (g, rest) =>
        group_tuple r g :: findall_from r s' (length s - length rest - 1)
      | None => findall_from r s' 0
      end
    end
  end.

Definition findall (r : regex) (s : ustr) : list (list ustr) :=
  findall_from r s 0.

(** [re.search(...) is not None] *)
Fixpoint search (r : regex) (s : ustr) : bool :=
  match match_here r s with
  | Some _ => true
  | None => match s with [] => false | _ :: s' => search r s' end
  end.

(** [re.search]: the groups of the leftmost match. *)
Fixpoint search_groups (r : regex) (s : ustr) : option groups :=
  match match_here r s with
  | Some (g, _) => Some g
  | None => match s with [] => None | _ :: s' => search_groups r s' end
  end.

End Re.
Import Re.

(** Concatenation of the parts of a pattern, left to right. *)
Fixpoint cat (l : list regex) : regex :=
  match l with
  | [] => RLit []
  | [r] => r
  | r :: l' => RSeq r (cat l')
  end.

(** ** Values that cross a [try/except] *)

Inductive result (A : Type) :=
| Ok (a : A)
| Raise (msg : ustr).
Arguments Ok {A} a.
Arguments Raise {A} msg.

Definition bind {A B} (r : result A) (f : A -> result B) : result B :=
  match r with
  | Ok a => f a
  | Raise e => Raise e
  end.

Notation "x <- r ;; k" := (bind r (fun x => k))
  (at level 61, r at next level, right associativity).

(** ** Naive [datetime] values *)

Module Datetime.

Record datetime := mkdt {
  year : Z; month : Z; day : Z;
  hour : Z; minute : Z; second : Z; microsecond : Z
}.

Definition fields (d : datetime) : list Z :=
  [year d; month d; day d; hour d; minute d; second d; microsecond d].

(** Comparison of two naive datetimes: field by field, as tuples. *)
Fixpoint lex_compare (a b : list Z) : comparison :=
  match a, b with
  | [], [] => Eq
  | [], _ :: _ => Lt
  | _ :: _, [] => Gt
  | x :: a', y :: b' =>
    match (x ?= y)%Z with
    | Eq => lex_compare a' b'
    | c => c
    end
  end.

Definition dt_compare (a b : datetime) : comparison :=
  lex_compare (fields a) (fields b).

(** [a > b] *)
Definition dt_gtb (a b : datetime) : bool :=
  match dt_compare a b with Gt => true | _ => false end.

(** [a] is older than [b] *)
Definition dt_lt (a b : datetime) : Prop := dt_compare a b = Lt.

Definition is_leap (y : Z) : bool :=
  ((y mod 4 =? 0) && (negb (y mod 100 =? 0) || (y mod 400 =? 0)))%Z.

Definition days_in_month (y m : Z) : Z :=
  if (m =? 2)%Z then (if is_leap y then 29 else 28)%Z
  else if ((m =? 4) || (m =? 6) || (m =? 9) || (m =? 11))%Z then 30%Z
  else 31%Z.

(** What the constructor of [datetime] accepts. *)
Definition valid (d : datetime) : bool :=
  ((1 <=? year d) && (year d <=? 9999)
   && (1 <=? month d) && (month d <=? 12)
   && (1 <=? day d) && (day d <=? days_in_month (year d) (month d))
   && (0 <=? hour d) && (hour d <? 24)
   && (0 <=? minute d) && (minute d <? 60)
   && (0 <=? second d) && (second d <? 60)
   && (0 <=? microsecond d) && (microsecond d <? 1000000))%Z.

(** [d - timedelta(hours=24)]: the same time on the previous calendar day;
    before 0001-01-01 the subtraction raises [OverflowError]. *)
Definition minus_24h (d : datetime) : option datetime :=
  let with_date y m dd :=
    mkdt y m dd (hour d) (minute d) (second d) (microsecond d) in
  if (1 <? day d)%Z then Some (with_date (year d) (month d) (day d - 1)%Z)
  else if (1 <? month d)%Z then
    Some (with_date (year d) (month d - 1)%Z
                    (days_in_month (year d) (month d - 1)))
  else if (1 <? year d)%Z then Some (with_date (year d - 1)%Z 12%Z 31%Z)
  else None.

(** Decimal digits of [n], least significant first, [w] of them. *)
Fixpoint digits_rev (w : nat) (n : Z) : ustr :=
  match w with
  | O => []
  | S w' => Z.to_N (48 + n mod 10) :: digits_rev w' (n / 10)
  end.

(** ["%0wd" % n] for [0 <= n < 10^w] *)
Definition pad (w : nat) (n : Z) : ustr := rev (digits_rev w n).

(** [d.isoformat()] of a naive datetime: the fraction is written only when
    the microseconds are not zero. *)
Definition isoformat (d : datetime) : ustr :=
  pad 4 (year d) ++ U "-" ++ pad 2 (month d) ++ U "-" ++ pad 2 (day d)
  ++ U "T" ++ pad 2 (hour d) ++ U ":" ++ pad 2 (minute d)
  ++ U ":" ++ pad 2 (second d)
  ++ (if (microsecond d =? 0)%Z then [] else U "." ++ pad 6 (microsecond d)).

(** Reads exactly [n] ASCII digits, continuing the number [acc]. *)
Fixpoint parse_digits (n : nat) (acc : Z) (s : ustr) : result (Z * ustr) :=
  match n with
  | O => Ok (acc, s)
  | S n' =>
    match s with
    | c :: s' =>
      if ((48 <=? c) && (c <=? 57))%N
      then parse_digits n' (10 * acc + Z.of_N (c - 48)) s'
      else Raise (U "ValueError: Invalid isoformat string")
    | [] => Raise (U "ValueError: Invalid isoformat string")
    end
  end.

Definition expect (c : N) (s : ustr) : result ustr :=
  match s with
  | x :: s' =>
    if (x =? c)%N then Ok s'
    else Raise (U "ValueError: Invalid isoformat string")
  | [] => Raise (U "ValueError: Invalid isoformat string")
  end.

(** [datetime.fromisoformat], on the two layouts [isoformat] writes for a
    naive datetime: "YYYY-MM-DDTHH:MM:SS", and the same followed by a
    point and six digits.  The text is read left to right; one whose
    fields are out of range raises [ValueError].  The library accepts
    further layouts (another separator than T, a date alone, a time
    without seconds, a shorter fraction, an offset), differently from
    version to version; they are outside this model, which gives
    [Raise] for them, and every property that rests on the decoding is
    stated for timestamps in the written layout. *)
Definition fromisoformat (s : ustr) : result datetime :=
  y <- parse_digits 4 0 s ;;
  s <- expect 45 (snd y) ;;
  mo <- parse_digits 2 0 s ;;
  s <- expect 45 (snd mo) ;;
  dd <- parse_digits 2 0 s ;;
  s <- expect 84 (snd dd) ;;
  h <- parse_digits 2 0 s ;;
  s <- expect 58 (snd h) ;;
  mi <- parse_digits 2 0 s ;;
  s <- expect 58 (snd mi) ;;
  sec <- parse_digits 2 0 s ;;
  us <- match snd sec with
        | [] => Ok 0%Z
        | _ :: _ =>
          s <- expect 46 (snd sec) ;;
          f <- parse_digits 6 0 s ;;
          match snd f with
          | [] => Ok (fst f)
          | _ :: _ => Raise (U "ValueError: Invalid isoformat string")
          end
        end ;;
  let d := mkdt (fst y) (fst mo) (fst dd) (fst h) (fst mi) (fst sec) us in
  if valid d then Ok d
  else Raise (U "ValueError: Invalid isoformat string").

End Datetime.
Import Datetime.

(** ** [HKODataFetcher]: numbers and the regions dictionary *)

Module Num.

(** Value of a run of decimal digits; [None] if another character occurs. *)
Fixpoint digits_value (acc : N) (s : ustr) : option N :=
  match s with
  | [] => Some acc
  | c :: s' =>
    match decimal_value c with
    | Some d => digits_value (10 * acc + d) s'
    | None => None
    end
  end.

Fixpoint split_dot (s : ustr) : ustr * option ustr :=
  match s with
  | [] => ([], None)
  | c :: s' =>
    if (c =? 46)%N then ([], Some s')
    else let (a, b) := split_dot s' in (c :: a, b)
  end.

(** [float(s)] on the texts the patterns capture: decimal digits with an
    optional fraction.  Anything else is taken to raise [ValueError]. *)
Definition py_float (s : ustr) : result Q :=
  let bad := Raise (U "could not convert string to float") in
  let (a, b) := split_dot s in
  let frac := match b with Some f => f | None => [] end in
  match a, frac with
  | [], [] => bad
  | _, _ =>
    match digits_value 0 a, digits_value 0 frac with
    | Some x, Some y =>
      Ok (inject_Z (Z.of_N x)
          + inject_Z (Z.of_N y) / inject_Z (10 ^ Z.of_nat (length frac)))
    | _, _ => bad
    end
  end.

(** The interpreter's default limit on the digits of a text that [int]
    converts. *)
Definition int_max_str_digits : Z := 4300.

(** [int(s)] on a run of decimal digits: a run of more digits than the
    limit raises [ValueError], as does a text that is no run of digits. *)
Definition py_int (s : ustr) : result Z :=
  if (int_max_str_digits <? Z.of_nat (length s))%Z
  then Raise (U "Exceeds the limit (4300 digits) for integer string conversion")
  else
    match s, digits_value 0 s with
    | _ :: _, Some x => Ok (Z.of_N x)
    | _, _ => Raise (U "invalid literal for int()")
    end.

End Num.
Import Num.

Module Dict.
Section Dict.
Variable V : Type.

Definition dict := list (ustr * V).

Fixpoint get (d : dict) (k : ustr) : option V :=
  match d with
  | [] => None
  | (k', v) :: d' => if ustr_eqb k k' then Some v else get d' k
  end.

(** [d[k] = v]: an existing key keeps its place, a new one goes last. *)
Fixpoint set (d : dict) (k : ustr) (v : V) : dict :=
  match d with
  | [] => [(k, v)]
  | (k', v') :: d' =>
    if ustr_eqb k k' then (k', v) :: d' else (k', v') :: set d' k v
  end.

Definition keys (d : dict) : list ustr := map fst d.
Definition values (d : dict) : list V := map snd d.
End Dict.
End Dict.

(** ** [HKODataFetcher.fetch_rainfall_data]: parsing *)

Module Rainfall.

Record reading := mkreading {
  min_rainfall : Q;
  max_rainfall : Q;
  average_rainfall : Q
}.

Definition cjk_dirs : ustr := Eval vm_compute in U "中西東南北".
Definition cjk_qu : ustr := Eval vm_compute in U "區".
Definition cjk_hao : ustr := Eval vm_compute in U "毫".
Definition cjk_mi : ustr := Eval vm_compute in U "米".
Definition cjk_zhi : ustr := Eval vm_compute in U "至".

Definition districts : list ustr := Eval vm_compute in
  map U ["九龍城"; "葵青"; "荃灣"; "灣仔"; "離島區"; "西貢"; "沙田"; "大埔";
         "屯門"; "元朗"]%string.

Definition alternation (l : list ustr) : regex :=
  match l with
  | [] => RLit []
  | a :: l' => fold_left (fun r x => RAlt r (RLit x)) l' (RLit a)
  end.

(** The pattern "([中西東南北]+\s*[區]?)\s*(\d+)\s*毫\s*米" *)
Definition pattern1 : regex :=
  cat [ RGroup 1 (cat [RPlus (CSet cjk_dirs); RStar CSpace;
                       ROpt (RCls (CSet cjk_qu))]);
        RStar CSpace; RGroup 2 (RPlus CDigit);
        RStar CSpace; RLit cjk_hao; RStar CSpace; RLit cjk_mi ].

(** The pattern "([中西東南北]+\s*[區]?)\s*(\d+)\s*至\s*(\d+)\s*毫\s*米" *)
Definition pattern2 : regex :=
  cat [ RGroup 1 (cat [RPlus (CSet cjk_dirs); RStar CSpace;
                       ROpt (RCls (CSet cjk_qu))]);
        RStar CSpace; RGroup 2 (RPlus CDigit);
        RStar CSpace; RLit cjk_zhi; RStar CSpace; RGroup 3 (RPlus CDigit);
        RStar CSpace; RLit cjk_hao; RStar CSpace; RLit cjk_mi ].

(** The pattern
    "(九龍城|葵青|荃灣|灣仔|離島區|西貢|沙田|大埔|屯門|元朗)\s*(\d+)\s*至?\s*(\d+)?\s*毫\s*米" *)
Definition pattern3 : regex :=
  cat [ RGroup 1 (alternation districts);
        RStar CSpace; RGroup 2 (RPlus CDigit);
        RStar CSpace; ROpt (RLit cjk_zhi);
        RStar CSpace; ROpt (RGroup 3 (RPlus CDigit));
        RStar CSpace; RLit cjk_hao; RStar CSpace; RLit cjk_mi ].

Definition patterns : list regex := [pattern1; pattern2; pattern3].

Definition regions_t := Dict.dict reading.

(** Body of the inner loop: what one [match] tuple stores. *)
Definition store_match (regions : regions_t) (m : list ustr)
  : result regions_t :=
  match m with
  | [region; rainfall] =>
    mn <- py_float rainfall ;;
    mx <- py_float rainfall ;;
    av <- py_float rainfall ;;
    Ok (Dict.set regions (strip region) (mkreading mn mx av))
  | [region; min_rain; max_rain] =>
    avg_rain <-
      match max_rain with
      | _ :: _ =>
        a <- py_float min_rain ;;
        b <- py_float max_rain ;;
        Ok ((a + b) / 2)
      | [] => py_float min_rain
      end ;;
    mn <- py_float min_rain ;;
    mx <- match max_rain with
          | _ :: _ => py_float max_rain
          | [] => py_float min_rain
          end ;;
    Ok (Dict.set regions (strip region) (mkreading mn mx avg_rain))
  | _ => Ok regions
  end.

Fixpoint store_matches (regions : regions_t) (ms : list (list ustr))
  : result regions_t :=
  match ms with
  | [] => Ok regions
  | m :: ms' =>
    regions' <- store_match regions m ;;
    store_matches regions' ms'
  end.

(** The outer loop over the pattern list, each applied to the whole text. *)
Fixpoint apply_patterns (ps : list regex) (text_content : ustr)
         (regions : regions_t) : result regions_t :=
  match ps with
  | [] => Ok regions
  | pattern :: ps' =>
    regions' <- store_matches regions (findall pattern text_content) ;;
    apply_patterns ps' text_content regions'
  end.

(** [sum(l)], from the integer [0] *)
Definition sum (l : list Q) : Q := fold_left Qplus l 0.

Record report := mkreport {
  timestamp : datetime;
  regions : regions_t;
  total_regions : nat;
  report_average_rainfall : Q
}.

Definition avg_values (regions : regions_t) : list Q :=
  map average_rainfall (Dict.values regions).

(** The body of the [try] block after the text of the page is known. *)
Definition parse_rainfall (now : datetime) (text_content : ustr)
  : result report :=
  regions <- apply_patterns patterns text_content [] ;;
  match regions with
  | _ :: _ =>
    Ok (mkreport now regions (length regions)
          (sum (avg_values regions)
           / inject_Z (Z.of_nat (length (avg_values regions)))))
  | [] => Ok (mkreport now regions 0 0)
  end.

End Rainfall.

(** ** The outside world of the fetcher: the clock and the network *)

Module World.

(** A page as the HTML parser presents it: its strings in document
    order, each with the mark whether it is text that [get_text] returns
    (a comment is a string of the page that [get_text] leaves out, and so
    is, with recent versions of the parser, the content of a script or
    style element), and the [src] attributes of its [img] elements that
    have one, in document order. *)
Record soup := mkpage {
  all_strings : list (ustr * bool);
  img_srcs : list ustr
}.

(** A page all of whose strings are text that [get_text] returns. *)
Definition mksoup (strings : list ustr) (img_srcs : list ustr) : soup :=
  mkpage (map (fun s => (s, true)) strings) img_srcs.

(** The strings [soup.find_all(text=...)] searches: all of them. *)
Definition strings (p : soup) : list ustr := map fst (all_strings p).

(** [soup.get_text()]: the strings that are text, joined. *)
Definition get_text (p : soup) : ustr :=
  concat (map fst (filter snd (all_strings p))).

(** Outcome of [session.get] followed by [raise_for_status]. *)
Inductive response :=
| Page (p : soup)
| Fails (msg : ustr).

(** Python values as far as the history and its file hold them. *)
#[local] Unset Elimination Schemes.
Inductive pyval :=
| VNone
| VBool (b : bool)
| VInt (z : Z)
| VFloat (q : Q)
| VStr (s : ustr)
| VDatetime (d : datetime)
| VList (l : list pyval)
| VDict (l : list (ustr * pyval)).
#[local] Set Elimination Schemes.

(** Contents of the history file. *)
Inductive file_content :=
| Missing
| Unparseable
| Document (v : pyval).

Record world := mkworld {
  now_at : nat -> datetime;             (* value of the n-th clock reading *)
  respond : nat -> ustr -> response;    (* outcome of the n-th request *)
  time_calls : nat;                     (* clock readings so far *)
  sent : list ustr;                     (* URLs requested so far *)
  disk_ok : bool;                       (* can files be opened for writing *)
  historical_file : file_content;
  jobs : list Z;                        (* jobs of the default scheduler *)
  threads_started : nat
}.

(** [datetime.now()] *)
Definition now (w : world) : datetime * world :=
  (now_at w (time_calls w),
   mkworld (now_at w) (respond w) (S (time_calls w)) (sent w) (disk_ok w)
           (historical_file w) (jobs w) (threads_started w)).

(** [session.get(url, timeout=30)] and [response.raise_for_status()] *)
Definition http_get (url : ustr) (w : world) : response * world :=
  (respond w (length (sent w)) url,
   mkworld (now_at w) (respond w) (time_calls w) (sent w ++ [url]) (disk_ok w)
           (historical_file w) (jobs w) (threads_started w)).

End World.
Import World.

(** ** [HKODataFetcher] *)

Module HKODataFetcher.
Import Rainfall.

Definition base_url : ustr := Eval vm_compute in U "https://www.hko.gov.hk".
Definition index_url : ustr :=
  Eval vm_compute in base_url ++ U "/tc/index.html".
Definition rainfall_url : ustr :=
  Eval vm_compute in base_url ++ U "/textonly/current/rainfall_sr_uc.htm".

(** What a fetch method returns: the data, or the dictionary
    [{'timestamp': ..., 'error': ...}] of its [except] branch. *)
Inductive facet (A : Type) :=
| Data (a : A)
| Error (timestamp : datetime) (error : ustr).
Arguments Data {A} a.
Arguments Error {A} timestamp error.

(** The common shape of the three fetch methods: request the page, run
    the body of the [try] block on it; any exception ends in the [except]
    branch, which reads the clock for its own timestamp. *)
Definition fetch_with (A : Type) (url : ustr)
           (body : soup -> world -> result A * world)
           (w : world) : facet A * world :=
  let (resp, w) := http_get url w in
  match resp with
  | Fails e => let (t, w) := now w in (Error t e, w)
  | Page p =>
    let (r, w) := body p w in
    match r with
    | Ok a => (Data a, w)
    | Raise e => let (t, w) := now w in (Error t e, w)
    end
  end.

(** *** [fetch_current_weather] *)

Inductive status := raining | cloudy | sunny | unknown.

Record weather := mkweather {
  weather_timestamp : datetime;
  temperature : option Q;
  humidity : option Z;
  rainfall_status : status
}.

Definition degree_c : ustr := Eval vm_compute in U "°C".
Definition percent : ustr := Eval vm_compute in U "%".

(** The numeral part of the temperature pattern: digits, an optional
    point, and further digits. *)
Definition re_decimal : regex :=
  cat [RPlus CDigit; ROpt (RLit [46%N]); RStar CDigit].

(** A numeral followed by "°C": the pattern that selects the strings, and
    the one that captures the numeral as group 1. *)
Definition re_temp_filter : regex := cat [re_decimal; RLit degree_c].
Definition re_temp : regex := cat [RGroup 1 re_decimal; RLit degree_c].

(** Digits followed by "%": the selecting pattern "\d+%", and the one
    that captures the digits as group 1. *)
Definition re_humidity_filter : regex := cat [RPlus CDigit; RLit percent].
Definition re_humidity : regex := cat [RGroup 1 (RPlus CDigit); RLit percent].

(** The loop [for x in elements: match = re.search(...); if match: ...;
    break]: the first element the pattern is found in, converted. *)
Fixpoint first_match (A : Type) (r : regex) (conv : ustr -> result A)
         (elements : list ustr) : result (option A) :=
  match elements with
  | [] => Ok None
  | x :: rest =>
    match search_groups r x with
    | Some g => v <- conv (group g 1) ;; Ok (Some v)
    | None => first_match r conv rest
    end
  end.

Definition classify (weather_text : ustr) : status :=
  if contains (U "雨") weather_text || contains (U "驟雨") weather_text
  then raining
  else if contains (U "多雲") weather_text then cloudy
  else if contains (U "天晴") weather_text then sunny
  else unknown.

(** The dictionary [weather_data] that the body of the [try] block fills
    in, from the clock reading and the page. *)
Definition weather_data (t : datetime) (p : soup) : result weather :=
  temp <- first_match re_temp py_float
            (filter (search re_temp_filter) (strings p)) ;;
  hum <- first_match re_humidity py_int
           (filter (search re_humidity_filter) (strings p)) ;;
  Ok (mkweather t temp hum (classify (get_text p))).

Definition parse_weather (p : soup) (w : world) : result weather * world :=
  let (t, w) := now w in (weather_data t p, w).

Definition fetch_current_weather : world -> facet weather * world :=
  fetch_with index_url parse_weather.

(** *** [fetch_rainfall_data] *)

Definition fetch_rainfall_data : world -> facet report * world :=
  fetch_with rainfall_url
    (fun p w => let (t, w) := now w in (parse_rainfall t (get_text p), w)).

(** *** [fetch_weather_warnings] *)

Inductive warning := thunderstorm | heavy_rain | strong_wind.
Inductive level := none | medium | high.

Definition warning_eqb (a b : warning) : bool :=
  match a, b with
  | thunderstorm, thunderstorm | heavy_rain, heavy_rain
  | strong_wind, strong_wind => true
  | _, _ => false
  end.

Record warnings := mkwarnings {
  warnings_timestamp : datetime;
  active_warnings : list warning;
  warning_level : level
}.

(** The pattern "warn.*\.png" on the [src] attribute. *)
Definition re_warn : regex :=
  cat [RLit (U "warn"); RStar CDot; RLit (U ".png")].

(** One turn of the loop over the warning images. *)
Definition scan_image (acc : list warning * level) (src : ustr)
  : list warning * level :=
  let (active, lvl) := acc in
  if contains (U "ts") src then (active ++ [thunderstorm], high)
  else if contains (U "rain") src then (active ++ [heavy_rain], medium)
  else if contains (U "wind") src then (active ++ [strong_wind], medium)
  else (active, lvl).

(** [str.lower()] on the ASCII letters; the phrases looked for afterwards
    consist of characters without case. *)
Definition lower (s : ustr) : ustr :=
  map (fun c => if ((65 <=? c) && (c <=? 90))%N then (c + 32)%N else c) s.

(** The two keyword checks on the text of the page. *)
Definition scan_keywords (acc : list warning * level) (text_content : ustr)
  : list warning * level :=
  let (active, lvl) := acc in
  let (active, lvl) :=
    if contains (U "雷暴警告") text_content
    then ((if existsb (warning_eqb thunderstorm) active then active
           else active ++ [thunderstorm]), high)
    else (active, lvl) in
  if contains (U "暴雨警告") text_content
  then ((if existsb (warning_eqb heavy_rain) active then active
         else active ++ [heavy_rain]), high)
  else (active, lvl).

(** The body of the [try] block once the page is parsed. *)
Definition parse_warnings (now : datetime) (p : soup) : warnings :=
  let warning_elements := filter (search re_warn) (img_srcs p) in
  let acc := fold_left scan_image warning_elements ([], none) in
  let (active, lvl) := scan_keywords acc (lower (get_text p)) in
  mkwarnings now active lvl.

Definition fetch_weather_warnings : world -> facet warnings * world :=
  fetch_with index_url
    (fun p w => let (t, w) := now w in (Ok (parse_warnings t p), w)).

(** *** [fetch_all_data] *)

Definition hk_districts : list (ustr * (Q * Q)) := Eval vm_compute in
  map (fun e => (U (fst e), snd e))
  [ ("Central & Western", (222855 # 10000, 1141577 # 10000));
    ("Eastern", (222783 # 10000, 1142367 # 10000));
    ("Southern", (222461 # 10000, 1141628 # 10000));
    ("Wan Chai", (222767 # 10000, 1141759 # 10000));
    ("Kowloon City", (223251 # 10000, 1141944 # 10000));
    ("Kwun Tong", (223127 # 10000, 1142267 # 10000));
    ("Sham Shui Po", (223309 # 10000, 1141639 # 10000));
    ("Wong Tai Sin", (223418 # 10000, 1141946 # 10000));
    ("Yau Tsim Mong", (223093 # 10000, 1141694 # 10000));
    ("Islands", (222587 # 10000, 1139447 # 10000));
    ("Kwai Tsing", (223573 # 10000, 1141378 # 10000));
    ("North", (224964 # 10000, 1141476 # 10000));
    ("Sai Kung", (223816 # 10000, 1142723 # 10000));
    ("Sha Tin", (223817 # 10000, 1141973 # 10000));
    ("Tai Po", (224455 # 10000, 1141645 # 10000));
    ("Tsuen Wan", (223736 # 10000, 1141177 # 10000));
    ("Tuen Mun", (223943 # 10000, 1139766 # 10000));
    ("Yuen Long", (224473 # 10000, 1140305 # 10000)) ]%string.

Definition get_district_coordinates : list (ustr * (Q * Q)) := hk_districts.

Record all_data := mkall {
  fetch_time : datetime;
  current_weather : facet weather;
  rainfall_data : facet report;
  weather_warnings : facet warnings;
  district_coordinates : list (ustr * (Q * Q))
}.

Definition fetch_all_data (w : world) : all_data * world :=
  let (t, w) := now w in
  let (cw, w) := fetch_current_weather w in
  let (rd, w) := fetch_rainfall_data w in
  let (ww, w) := fetch_weather_warnings w in
  (mkall t cw rd ww get_district_coordinates, w).

End HKODataFetcher.
Import HKODataFetcher.

(** ** [RealTimeUpdater] *)

Module RealTimeUpdater.
Import Rainfall.

Definition k_timestamp : ustr := Eval vm_compute in U "timestamp".
Definition k_data : ustr := Eval vm_compute in U "data".
Definition k_error : ustr := Eval vm_compute in U "error".

(** *** The fetched data as the Python dictionaries the history holds *)

Definition py_option (A : Type) (f : A -> pyval) (o : option A) : pyval :=
  match o with Some a => f a | None => VNone end.

Definition py_of_facet (A : Type) (f : A -> pyval) (x : facet A) : pyval :=
  match x with
  | Data a => f a
  | Error t e => VDict [(k_timestamp, VDatetime t); (k_error, VStr e)]
  end.

Definition py_of_status (s : status) : pyval :=
  VStr (match s with
        | raining => U "raining" | cloudy => U "cloudy"
        | sunny => U "sunny" | unknown => U "unknown"
        end).

Definition py_of_weather (x : weather) : pyval :=
  VDict [ (k_timestamp, VDatetime (weather_timestamp x));
          (U "temperature", py_option VFloat (temperature x));
          (U "humidity", py_option VInt (humidity x));
          (U "rainfall_status", py_of_status (rainfall_status x));
          (U "weather_conditions", VNone) ].

Definition py_of_reading (r : reading) : pyval :=
  VDict [ (U "min_rainfall", VFloat (min_rainfall r));
          (U "max_rainfall", VFloat (max_rainfall r));
          (U "average_rainfall", VFloat (average_rainfall r)) ].

Definition py_of_report (x : report) : pyval :=
  VDict [ (k_timestamp, VDatetime (timestamp x));
          (U "regions",
           VDict (map (fun e => (fst e, py_of_reading (snd e))) (regions x)));
          (U "total_regions", VInt (Z.of_nat (total_regions x)));
          (U "average_rainfall",
           match regions x with
           | [] => VInt 0
           | _ :: _ => VFloat (report_average_rainfall x)
           end) ].

Definition py_of_warning (x : warning) : pyval :=
  VStr (match x with
        | thunderstorm => U "thunderstorm" | heavy_rain => U "heavy_rain"
        | strong_wind => U "strong_wind"
        end).

Definition py_of_level (x : level) : pyval :=
  VStr (match x with
        | none => U "none" | medium => U "medium" | high => U "high"
        end).

Definition py_of_warnings (x : warnings) : pyval :=
  VDict [ (k_timestamp, VDatetime (warnings_timestamp x));
          (U "active_warnings", VList (map py_of_warning (active_warnings x)));
          (U "warning_level", py_of_level (warning_level x)) ].

Definition py_of_coordinates (l : list (ustr * (Q * Q))) : pyval :=
  VDict (map (fun e => (fst e, VDict [ (U "lat", VFloat (fst (snd e)));
                                       (U "lon", VFloat (snd (snd e))) ])) l).

Definition py_of_all_data (x : all_data) : pyval :=
  VDict [ (U "fetch_time", VDatetime (fetch_time x));
          (U "current_weather", py_of_facet py_of_weather (current_weather x));
          (U "rainfall_data", py_of_facet py_of_report (rainfall_data x));
          (U "weather_warnings",
           py_of_facet py_of_warnings (weather_warnings x));
          (U "district_coordinates",
           py_of_coordinates (district_coordinates x)) ].

(** *** The updater object *)

(** An item of the history is a dictionary. *)
Definition item := Dict.dict pyval.

Record updater := mkupdater {
  update_interval : Z;              (* minutes *)
  historical_data : list item;
  is_running : bool;
  update_thread : option nat
}.

(** [self.historical_data = h] *)
Definition set_historical_data (h : list item) (u : updater) : updater :=
  mkupdater (update_interval u) h (is_running u) (update_thread u).

(** *** [load_historical_data] *)

(** [for item in data]: what iterating over the loaded document yields. *)
Definition iterate (data : pyval) : result (list pyval) :=
  match data with
  | VList l => Ok l
  | VDict d => Ok (map VStr (Dict.keys d))
  | VStr s => Ok (map (fun c => VStr [c]) s)
  | _ => Raise (U "TypeError: object is not iterable")
  end.

(** [datetime.fromisoformat(item['timestamp'])], with [item] itself when
    it is a dictionary. *)
Definition item_time (x : pyval) : result (item * datetime) :=
  match x with
  | VDict d =>
    match Dict.get d k_timestamp with
    | Some (VStr s) => t <- fromisoformat s ;; Ok (d, t)
    | Some _ => Raise (U "TypeError: fromisoformat: argument must be str")
    | None => Raise (U "KeyError: 'timestamp'")
    end
  | _ => Raise (U "TypeError: indices must be integers")
  end.

(** The loop that filters the loaded items: the timestamp is decoded for
    the comparison, and the item is appended as it was read. *)
Fixpoint load_loop (cutoff_time : datetime) (data : list pyval)
         (filtered_data : list item) : result (list item) :=
  match data with
  | [] => Ok filtered_data
  | x :: rest =>
    dt <- item_time x ;;
    load_loop cutoff_time rest
      (if dt_gtb (snd dt) cutoff_time
       then filtered_data ++ [fst dt] else filtered_data)
  end.

(** [t - timedelta(hours=24)] inside a [try] block. *)
Definition minus_24h_r (t : datetime) : result datetime :=
  match minus_24h t with
  | Some c => Ok c
  | None => Raise (U "OverflowError: date value out of range")
  end.

(** A missing file gives the empty history, and so does any exception:
    an unreadable document, a document of another shape, a timestamp that
    does not decode. *)
Definition load_historical_data (w : world) : list item * world :=
  match historical_file w with
  | Missing => ([], w)
  | Unparseable => ([], w)
  | Document data =>
    let (t, w) := now w in
    match (cutoff_time <- minus_24h_r t ;;
           items <- iterate data ;;
           load_loop cutoff_time items []) with
    | Ok filtered_data => (filtered_data, w)
    | Raise _ => ([], w)
    end
  end.

(** *** [save_historical_data] *)

Fixpoint _convert_datetimes_to_strings (obj : pyval) : pyval :=
  match obj with
  | VDatetime d => VStr (isoformat d)
  | VDict l =>
    VDict ((fix each (l : list (ustr * pyval)) :=
              match l with
              | [] => []
              | (key, value) :: l' =>
                (key, _convert_datetimes_to_strings value) :: each l'
              end) l)
  | VList l => VList (map _convert_datetimes_to_strings l)
  | _ => obj
  end.

Definition serializable (x : item) : item :=
  let x1 :=
    match Dict.get x k_timestamp with
    | Some (VDatetime t) => Dict.set x k_timestamp (VStr (isoformat t))
    | _ => x
    end in
  match Dict.get x1 k_data with
  | Some v => Dict.set x1 k_data (_convert_datetimes_to_strings v)
  | None => x1
  end.

(** Can [json.dump] write the value: it cannot write a [datetime]. *)
Fixpoint json_ok (v : pyval) : bool :=
  match v with
  | VDatetime _ => false
  | VList l => forallb json_ok l
  | VDict l =>
    (fix each (l : list (ustr * pyval)) :=
       match l with
       | [] => true
       | (_, value) :: l' => json_ok value && each l'
       end) l
  | _ => true
  end.

Definition set_historical_file (f : file_content) (w : world) : world :=
  mkworld (now_at w) (respond w) (time_calls w) (sent w) (disk_ok w)
          f (jobs w) (threads_started w).

(** The file afterwards holds the document written; a document that
    [json.dump] cannot finish leaves the opened file cut short. *)
Definition save_historical_data (u : updater) (w : world) : world :=
  let serializable_data := VList (map (fun x => VDict (serializable x))
                                      (historical_data u)) in
  if disk_ok w then
    set_historical_file
      (if json_ok serializable_data then Document serializable_data
       else Unparseable) w
  else w.

(** *** [fetch_and_store_data] *)

(** [item['timestamp'] > cutoff_time] *)
Definition newer_than (cutoff_time : datetime) (x : item) : result bool :=
  match Dict.get x k_timestamp with
  | Some (VDatetime t) => Ok (dt_gtb t cutoff_time)
  | Some _ =>
    Raise (U "TypeError: '>' not supported between instances")
  | None => Raise (U "KeyError: 'timestamp'")
  end.

(** The list comprehension that keeps the last 24 hours. *)
Fixpoint keep_recent (cutoff_time : datetime) (l : list item)
  : result (list item) :=
  match l with
  | [] => Ok []
  | x :: rest =>
    keep <- newer_than cutoff_time x ;;
    tl <- keep_recent cutoff_time rest ;;
    Ok (if keep then x :: tl else tl)
  end.

(** [create_latest_visualizations] reads the clock for the names of its
    files, and [create_weather_dashboard], which it calls, reads it once
    more for the title of its chart; the charts are not part of the
    state, and every step catches its own errors. *)
Definition create_latest_visualizations (w : world) : world :=
  snd (now (snd (now w))).

(** The snapshot is appended in place before the pruning, so an exception
    in the pruning leaves it appended.  The clock reading after the
    pruning is the one that names the per-cycle dump written by
    [save_data_to_file]; that file is never read back and is not part of
    the state. *)
Definition fetch_and_store_data (u : updater) (w : world) : updater * world :=
  let (current_data, w) := fetch_all_data w in
  let u := set_historical_data
             (historical_data u
              ++ [[ (k_timestamp, VDatetime (fetch_time current_data));
                    (k_data, py_of_all_data current_data) ]]) u in
  let (t, w) := now w in
  match (cutoff_time <- minus_24h_r t ;;
         keep_recent cutoff_time (historical_data u)) with
  | Raise _ => (u, w)
  | Ok kept =>
    let u := set_historical_data kept u in
    let (_, w) := now w in
    let w := save_historical_data u w in
    (u, create_latest_visualizations w)
  end.

(** *** Construction and [start_background_updates] *)

(** [RealTimeUpdater(update_interval)]: the constructor loads the history. *)
Definition init (update_interval : Z) (w : world) : updater * world :=
  let (h, w) := load_historical_data w in
  (mkupdater update_interval h false None, w).

(** [schedule.every(n).minutes.do(job)]: one more job of the default
    scheduler. *)
Definition schedule_every (n : Z) (w : world) : world :=
  mkworld (now_at w) (respond w) (time_calls w) (sent w) (disk_ok w)
          (historical_file w) (jobs w ++ [n]) (threads_started w).

(** [threading.Thread(...).start()]: the identifier of the new thread. *)
Definition thread_start (w : world) : nat * world :=
  (threads_started w,
   mkworld (now_at w) (respond w) (time_calls w) (sent w) (disk_ok w)
           (historical_file w) (jobs w) (S (threads_started w))).

(** The guard on [is_running], then the flag, the job, the immediate
    execution and the worker thread, in the order of the source. *)
Definition start_background_updates (u : updater) (w : world)
  : updater * world :=
  if is_running u then (u, w)
  else
    let u := mkupdater (update_interval u) (historical_data u) true
                       (update_thread u) in
    let w := schedule_every (update_interval u) w in
    let (u, w) := fetch_and_store_data u w in
    let (th, w) := thread_start w in
    (mkupdater (update_interval u) (historical_data u) (is_running u)
               (Some th), w).

End RealTimeUpdater.
Import RealTimeUpdater.

(** ** More of [RealTimeUpdater]: reading the history, stopping *)

Module UpdaterReads.

(** [get_latest_data]: the ['data'] of the last item, [None] for an empty
    history; the subscript raises [KeyError] on an item without the key. *)
Definition get_latest_data (u : updater) : result (option pyval) :=
  match historical_data u with
  | [] => Ok None
  | x :: rest =>
    match Dict.get (last rest x) k_data with
    | Some v => Ok (Some v)
    | None => Raise (U "KeyError: 'data'")
    end
  end.

(** The same datetime at another hour of its day. *)
Definition with_hour (d : datetime) (h : Z) : datetime :=
  mkdt (year d) (month d) (day d) h (minute d) (second d) (microsecond d).

(** [d + timedelta(hours=24)]: the same time on the next calendar day;
    after 9999-12-31 the addition raises [OverflowError]. *)
Definition plus_24h (d : datetime) : option datetime :=
  let with_date y m dd :=
    mkdt y m dd (hour d) (minute d) (second d) (microsecond d) in
  if (day d <? days_in_month (year d) (month d))%Z
  then Some (with_date (year d) (month d) (day d + 1)%Z)
  else if (month d <? 12)%Z then Some (with_date (year d) (month d + 1)%Z 1%Z)
  else if (year d <? 9999)%Z then Some (with_date (year d + 1)%Z 1%Z 1%Z)
  else None.

(** [d - timedelta(hours=1)] and [d + timedelta(hours=1)] *)
Definition hour_earlier (d : datetime) : option datetime :=
  if (0 <? hour d)%Z then Some (with_hour d (hour d - 1))
  else option_map (fun p => with_hour p 23) (minus_24h d).

Definition hour_later (d : datetime) : option datetime :=
  if (hour d <? 23)%Z then Some (with_hour d (hour d + 1))
  else option_map (fun p => with_hour p 0) (plus_24h d).

Definition and_then (f : datetime -> option datetime) (o : option datetime)
  : option datetime :=
  match o with
  | Some d => f d
  | None => None
  end.

(** [d - timedelta(hours=h)] for an integer [h], hour by hour; [None]
    stands for [OverflowError], raised when the result leaves the years
    1 to 9999. *)
Definition minus_hours (h : Z) (d : datetime) : option datetime :=
  if (0 <=? h)%Z
  then Nat.iter (Z.to_nat h) (and_then hour_earlier) (Some d)
  else Nat.iter (Z.to_nat (- h)) (and_then hour_later) (Some d).

(** [get_historical_data(hours)]: the same list comprehension as in
    [fetch_and_store_data], outside any [try] block. *)
Definition get_historical_data (hours : Z) (u : updater) (w : world)
  : result (list item) * world :=
  let (t, w) := now w in
  (cutoff_time <- match minus_hours hours t with
                  | Some c => Ok c
                  | None => Raise (U "OverflowError: date value out of range")
                  end ;;
   keep_recent cutoff_time (historical_data u),
   w).

(** [schedule.clear()]: every job of the default scheduler is removed. *)
Definition schedule_clear (w : world) : world :=
  mkworld (now_at w) (respond w) (time_calls w) (sent w) (disk_ok w)
          (historical_file w) [] (threads_started w).

(** [stop_background_updates]: the flag, the scheduler, and a wait of at
    most five seconds for the worker thread, which changes no state. *)
Definition stop_background_updates (u : updater) (w : world)
  : updater * world :=
  (mkupdater (update_interval u) (historical_data u) false (update_thread u),
   schedule_clear w).

(** [v.get(k, default)] *)
Definition py_get (v : pyval) (k : ustr) (default : pyval) : result pyval :=
  match v with
  | VDict d =>
    Ok (match Dict.get d k with Some x => x | None => default end)
  | _ => Raise (U "AttributeError: object has no attribute 'get'")
  end.

(** [data.get('rainfall_data', {}).get('average_rainfall', 0)], as
    [create_latest_visualizations] and the loop of [run_updater_mode]
    read the average of a snapshot. *)
Definition average_of_snapshot (data : pyval) : result pyval :=
  rd <- py_get data (U "rainfall_data") (VDict []) ;;
  py_get rd (U "average_rainfall") (VInt 0).

(** One item of [viz_historical_data]. *)
Definition viz_item (x : item) : result pyval :=
  match Dict.get x k_timestamp with
  | None => Raise (U "KeyError: 'timestamp'")
  | Some ts =>
    match Dict.get x k_data with
    | None => Raise (U "KeyError: 'data'")
    | Some data =>
      avg <- average_of_snapshot data ;;
      Ok (VDict [ (U "rainfall_data",
                   VDict [ (k_timestamp, ts);
                           (U "average_rainfall", avg) ]) ])
    end
  end.

Fixpoint viz_items (l : list item) : result (list pyval) :=
  match l with
  | [] => Ok []
  | x :: rest =>
    v <- viz_item x ;;
    tl <- viz_items rest ;;
    Ok (v :: tl)
  end.

(** The list handed to the time series chart: built only when the
    history has more than one item. *)
Definition viz_historical_data (u : updater) : result (option (list pyval)) :=
  if (1 <? length (historical_data u))%nat
  then l <- viz_items (historical_data u) ;; Ok (Some l)
  else Ok None.

End UpdaterReads.
Import UpdaterReads.

(** ** [RainfallVisualizer]: what the charts and the map compute *)

Module Visualizer.
Import Rainfall.
Local Open Scope Q_scope.

(** [str.split()]: the words between runs of whitespace. *)
Fixpoint split_words (s : ustr) (word : ustr) : list ustr :=
  match s with
  | [] => match word with [] => [] | _ :: _ => [word] end
  | c :: s' =>
    if is_space c
    then match word with
         | [] => split_words s' []
         | _ :: _ => word :: split_words s' []
         end
    else split_words s' (word ++ [c])
  end.

Definition split (s : ustr) : list ustr := split_words s [].

(** The search for coordinates in [create_rainfall_map]: the first
    district one of whose words occurs in the region name.  [None] is
    the case in which the method draws random coordinates. *)
Fixpoint find_coords (region_name : ustr) (district_coords : list (ustr * (Q * Q)))
  : option (Q * Q) :=
  match district_coords with
  | [] => None
  | (district, coord) :: rest =>
    if existsb (fun keyword => contains keyword region_name) (split district)
    then Some coord
    else find_coords region_name rest
  end.

Inductive color := gray | green | blue | orange | red.

(** [a < b] and [a == b] on numbers *)
Definition Qltb (a b : Q) : bool := negb (Qle_bool b a).

(** The colour of a marker. *)
Definition marker_color (rainfall_amount : Q) : color :=
  if Qeq_bool rainfall_amount 0 then gray
  else if Qltb rainfall_amount 1 then green
  else if Qltb rainfall_amount 5 then blue
  else if Qltb rainfall_amount 10 then orange
  else red.

(** [max(a, b)] and [min(a, b)]: the first argument unless the second is
    strictly larger, respectively smaller. *)
Definition py_max (a b : Q) : Q := if Qltb a b then b else a.
Definition py_min (a b : Q) : Q := if Qltb b a then b else a.

(** [max(5, min(20, rainfall_amount * 2))] *)
Definition marker_radius (rainfall_amount : Q) : Q :=
  py_max 5 (py_min 20 (rainfall_amount * 2)).

(** [int(x)]: truncation towards zero. *)
Definition py_int_of (x : Q) : Z := Z.quot (Qnum x) (Z.pos (Qden x)).

(** [max(l)] of a non-empty list *)
Definition py_max_list (x : Q) (l : list Q) : Q := fold_left py_max l x.

(** [a / b]: division by zero raises. *)
Definition py_div (a b : Q) : result Q :=
  if Qeq_bool b 0 then Raise (U "ZeroDivisionError: float division by zero")
  else Ok (a / b).

(** The colour of one bar: red and green fall with the share of the
    largest amount, blue stays at 255.  The share is an exact rational
    here; where binary64 rounds a product just below an integer, [int]
    gives one less in the source. *)
Definition bar_color (max_rainfall amount : Q) : result (Z * Z * Z) :=
  share <- py_div amount max_rainfall ;;
  share' <- py_div amount max_rainfall ;;
  Ok (Z.max 0 (255 - py_int_of (share * 200)),
      Z.max 0 (255 - py_int_of (share' * 150)),
      255%Z).

Fixpoint bar_colors (max_rainfall : Q) (amounts : list Q)
  : result (list (Z * Z * Z)) :=
  match amounts with
  | [] => Ok []
  | amount :: rest =>
    c <- bar_color max_rainfall amount ;;
    tl <- bar_colors max_rainfall rest ;;
    Ok (c :: tl)
  end.

(** What [create_rainfall_bar_chart] returns, as far as it is computed
    from the data: the annotated chart without data, the bars with their
    regions, amounts and colours, or the empty figure of the [except]
    branch. *)
Inductive bar_chart :=
| NoData
| Bars (regions : list ustr) (rainfall_amounts : list Q)
       (colors : list (Z * Z * Z))
| EmptyFigure.

Definition create_rainfall_bar_chart (rainfall_data : facet report)
  : bar_chart :=
  match rainfall_data with
  | Error _ _ => NoData
  | Data rep =>
    match regions rep with
    | [] => NoData
    | _ :: _ =>
      let names := Dict.keys (regions rep) in
      let rainfall_amounts := avg_values (regions rep) in
      let max_rainfall :=
        match rainfall_amounts with
        | x :: l => py_max_list x l
        | [] => 1
        end in
      match bar_colors max_rainfall rainfall_amounts with
      | Ok colors => Bars names rainfall_amounts colors
      | Raise _ => EmptyFigure
      end
    end
  end.

(** The three counts of the regional statistics in
    [create_weather_dashboard]: dry, light rain, heavy rain. *)
Definition count (f : Q -> bool) (l : list Q) : nat := length (filter f l).

Definition regional_statistics (regions : regions_t) : nat * nat * nat :=
  (count (fun a => Qeq_bool a 0) (avg_values regions),
   count (fun a => Qltb 0 a && Qle_bool a 2) (avg_values regions),
   count (fun a => Qltb 2 a) (avg_values regions)).

End Visualizer.

(** ** [RainfallDashboard]: the callback that keeps its own history *)

Module Dashboard.

(** The list comprehension of [update_data]: the timestamp of every item
    is decoded and compared; the items are kept as they are. *)
Fixpoint keep_recent_decoded (cutoff_time : datetime) (l : list pyval)
  : result (list pyval) :=
  match l with
  | [] => Ok []
  | x :: rest =>
    dt <- item_time x ;;
    tl <- keep_recent_decoded cutoff_time rest ;;
    Ok (if dt_gtb (snd dt) cutoff_time then x :: tl else tl)
  end.

(** [update_data]: the new data and the pruned history, or the empty
    dictionary and the empty list of the [except] branch. *)
Definition update_data (historical_data : option (list pyval)) (w : world)
  : (option all_data * list pyval) * world :=
  let (new_data, w) := fetch_all_data w in
  let historical_data :=
    match historical_data with Some l => l | None => [] end in
  let historical_data :=
    historical_data
    ++ [VDict [ (k_timestamp, VStr (isoformat (fetch_time new_data)));
                (k_data, py_of_all_data new_data) ]] in
  let (t, w) := now w in
  match (cutoff_time <- minus_24h_r t ;;
         keep_recent_decoded cutoff_time historical_data) with
  | Ok kept => ((Some new_data, kept), w)
  | Raise _ => ((None, []), w)
  end.

End Dashboard.

(** * Vocabulary of the properties *)

Module ReSpec.

(** The declarative reading of a pattern: [sem r s g s' g'] holds when
    [r] can match the prefix of [s] that leaves [s'], turning the captured
    groups [g] into [g']. *)
Fixpoint sem (r : regex) (s : ustr) (g : groups) (s' : ustr) (g' : groups)
  : Prop :=
  match r with
  | RLit l => s = l ++ s' /\ g' = g
  | RCls c => exists x, s = x :: s' /\ in_cls c x = true /\ g' = g
  | RStar c =>
    exists xs, s = xs ++ s' /\ forallb (in_cls c) xs = true /\ g' = g
  | RPlus c =>
    exists xs, s = xs ++ s' /\ xs <> [] /\ forallb (in_cls c) xs = true
               /\ g' = g
  | ROpt r1 => sem r1 s g s' g' \/ (s' = s /\ g' = g)
  | RSeq r1 r2 => exists s1 g1, sem r1 s g s1 g1 /\ sem r2 s1 g1 s' g'
  | RAlt r1 r2 => sem r1 s g s' g' \/ sem r2 s g s' g'
  | RGroup i r1 =>
    exists g1, sem r1 s g s' g1
               /\ g' = (i, firstn (length s - length s') s) :: g1
  end.

(** A non-empty run of decimal digits, as ["\d+"] captures it. *)
Definition digit_run (s : ustr) : Prop :=
  s <> [] /\ forallb is_digit s = true.

End ReSpec.
Import ReSpec.

Module RainfallSpec.
Import Rainfall.
Local Open Scope Q_scope.

(** The dictionary key of a match: its first group, trimmed. *)
Definition key (m : list ustr) : ustr := strip (hd [] m).

(** [stores m k r]: the loop body, run on the tuple [m], writes the
    reading [r] under the key [k]. *)
Definition stores (m : list ustr) (k : ustr) (r : reading) : Prop :=
  store_match [] m = Ok [(k, r)].

(** A match that carries one number: a pair, or a triple whose third
    group is empty. *)
Definition single_value (m : list ustr) : Prop :=
  exists region v, m = [region; v] \/ m = [region; v; []].

(** A match that carries two numbers. *)
Definition two_bound (m : list ustr) : Prop :=
  exists region a b, m = [region; a; b] /\ b <> [].

(** The tuples the patterns can yield. *)
Definition well_formed (m : list ustr) : Prop :=
  (exists region v, m = [region; v] /\ digit_run v)
  \/ (exists region a b, m = [region; a; b] /\ digit_run a
                         /\ (b = [] \/ digit_run b)).

(** Where an entry of the dictionary comes from. *)
Definition produced (ps : list regex) (text : ustr) (kr : ustr * reading)
  : Prop :=
  exists p m, In p ps /\ In m (findall p text) /\ stores m (fst kr) (snd kr).

(** Sum and arithmetic mean of a list of numbers, every element with the
    same weight. *)
Definition total (l : list Q) : Q := fold_right Qplus 0 l.

Definition mean (l : list Q) : Q :=
  total l / inject_Z (Z.of_nat (length l)).

(** The bound invariants as the data model words them. *)
Definition bounds_ordered : Prop :=
  forall now text rep, parse_rainfall now text = Ok rep ->
  forall k r, In (k, r) (regions rep) ->
    0 <= min_rainfall r /\ min_rainfall r <= max_rainfall r.

(** The report average as the specification words it. *)
Definition average_zero_iff_empty : Prop :=
  forall now text rep, parse_rainfall now text = Ok rep ->
    report_average_rainfall rep == mean (avg_values (regions rep))
    /\ (report_average_rainfall rep == 0 <-> regions rep = []).

End RainfallSpec.
Import RainfallSpec.

Module FetchSpec.

(** What holds of the list and the level while the images are scanned:
    an empty list goes with level [none], and a list of wind warnings
    only goes with level [medium]. *)
Definition scan_inv (acc : list warning * level) : Prop :=
  (fst acc = [] -> snd acc = none)
  /\ (fst acc <> [] -> Forall (eq strong_wind) (fst acc) -> snd acc = medium).

(** A body that reads the clock but sends nothing. *)
Definition quiet (A : Type) (body : soup -> world -> result A * world)
  : Prop :=
  forall p w,
    sent (snd (body p w)) = sent w /\ respond (snd (body p w)) = respond w.

End FetchSpec.
Import FetchSpec.

Module HistorySpec.

(** The moment a history item stands for: its timestamp, decoded when it
    is held as text. *)
Definition entry_time (x : item) : option datetime :=
  match Dict.get x k_timestamp with
  | Some (VDatetime t) => Some t
  | Some (VStr s) =>
    match fromisoformat s with
    | Ok t => Some t
    | Raise _ => None
    end
  | _ => None
  end.

(** Newer than the cutoff: what the retention filter keeps. *)
Definition fresh (cutoff : datetime) (x : item) : Prop :=
  exists t, entry_time x = Some t /\ dt_gtb t cutoff = true.

(** Older than the cutoff. *)
Definition stale (cutoff : datetime) (x : item) : Prop :=
  exists t, entry_time x = Some t /\ dt_lt t cutoff.

(** The timestamp of the item is held as a datetime. *)
Definition has_datetime (x : item) : Prop :=
  exists t, Dict.get x k_timestamp = Some (VDatetime t).

(** An item as [fetch_and_store_data] appends it. *)
Definition appended (c : datetime) (x : item) : Prop :=
  exists t v, x = [(k_timestamp, VDatetime t); (k_data, v)]
              /\ valid t = true /\ dt_gtb t c = true.

(** 2024-01-01 12:00:00 *)
Definition noon_jan1 : datetime := mkdt 2024 1 1 12 0 0 0.

(** A network on which every request fails. *)
Definition offline : nat -> ustr -> response :=
  fun _ _ => Fails (U "timed out").

(** A first run of the program: there is no history file, the clock reads
    noon of 1 January 2024; one snapshot is appended and saved. *)
Definition first_run : updater * world :=
  let (u, w) :=
    init 5 (mkworld (fun _ => noon_jan1) offline 0 [] true Missing [] 0) in
  fetch_and_store_data u w.

(** The program started again on the file the first run left: the clock
    reads [boot] while the history is loaded and [later] from then on. *)
Definition restarted (boot later : datetime) : updater * world :=
  init 5 (mkworld (fun n => match n with O => boot | S _ => later end)
                  offline 0 [] true (historical_file (snd first_run)) [] 0).

(** The scheduler's jobs and the threads are as before. *)
Definition same_schedule (w w' : world) : Prop :=
  jobs w' = jobs w /\ threads_started w' = threads_started w.

(** One call of [start_background_updates] on the pair of the updater and
    the world. *)
Definition start (s : updater * world) : updater * world :=
  start_background_updates (fst s) (snd s).

End HistorySpec.
Import HistorySpec.

Module HistorySpecMore.

(** The timestamp of the item is held as text. *)
Definition has_text (x : item) : Prop :=
  exists s, Dict.get x k_timestamp = Some (VStr s).

(** A timestamp text in the layout the program itself writes: the
    [isoformat] of a datetime. *)
Definition written (s : ustr) : Prop :=
  exists d, valid d = true /\ s = isoformat d.

(** A value of a stored history at which the decoding of the timestamp
    is not reached, or refuses its argument: the value is not a
    dictionary, it has no 'timestamp', or its timestamp is not text. *)
Definition malformed (x : pyval) : Prop :=
  match x with
  | VDict d =>
    match Dict.get d k_timestamp with
    | Some (VStr _) => False
    | _ => True
    end
  | _ => True
  end.

(** A value whose timestamp, if the decoding gets to see one, is in the
    written layout. *)
Definition program_written (x : pyval) : Prop :=
  malformed x
  \/ exists d s, x = VDict d /\ Dict.get d k_timestamp = Some (VStr s)
                 /\ written s.

(** A history file whose document, when it is a list, holds such values
    only. *)
Definition file_program_written (f : file_content) : Prop :=
  match f with
  | Document (VList l) => Forall program_written l
  | _ => True
  end.

(** The test of the retention filter on an item whose timestamp is a
    datetime. *)
Definition is_fresh (cutoff : datetime) (x : item) : bool :=
  match Dict.get x k_timestamp with
  | Some (VDatetime t) => dt_gtb t cutoff
  | _ => false
  end.

(** The item [fetch_and_store_data] appends for a snapshot. *)
Definition new_item (current_data : all_data) : item :=
  [ (k_timestamp, VDatetime (fetch_time current_data));
    (k_data, py_of_all_data current_data) ].

End HistorySpecMore.
Import HistorySpecMore.

Module UpdaterSpecMore.

(** An item that [save_historical_data] can write: one appended by
    [fetch_and_store_data], or one that holds no datetime at all, as an
    item read from a JSON document. *)
Definition storable (x : item) : Prop :=
  (exists t v, x = [(k_timestamp, VDatetime t); (k_data, v)])
  \/ json_ok (VDict x) = true.

(** A history file that can be loaded: none, or a JSON document. *)
Definition loadable (f : file_content) : Prop :=
  f = Missing \/ exists doc, f = Document doc /\ json_ok doc = true.

(** The program after [n] pipeline executions. *)
Definition after_updates (n : nat) (s : updater * world) : updater * world :=
  Nat.iter n (fun s => fetch_and_store_data (fst s) (snd s)) s.

End UpdaterSpecMore.
Import UpdaterSpecMore.

Module RegionSpec.

(** Whether a pattern has a group numbered [i]. *)
Fixpoint binds (r : regex) (i : nat) : bool :=
  match r with
  | RLit _ | RCls _ | RStar _ | RPlus _ => false
  | ROpt r1 => binds r1 i
  | RSeq r1 r2 | RAlt r1 r2 => binds r1 i || binds r2 i
  | RGroup j r1 => Nat.eqb i j || binds r1 i
  end.

(** White space, or a character outside ASCII. *)
Definition not_latin (c : N) : bool := is_space c || (128 <=? c)%N.

(** What the first group of a rainfall pattern captures: a text that
    starts with a character that is not white space and holds no ASCII
    character other than white space. *)
Definition region_text (r : ustr) : Prop :=
  exists c rest, r = c :: rest /\ is_space c = false
                 /\ forallb not_latin r = true.

(** Neither end of the text is white space. *)
Definition trimmed (s : ustr) : Prop :=
  lstrip s = s /\ lstrip (rev s) = rev s.

(** The words of the district names, which [create_rainfall_map] looks
    for in a region name. *)
Definition keywords (district_coords : list (ustr * (Q * Q))) : list ustr :=
  flat_map (fun e => Visualizer.split (fst e)) district_coords.

(** Every bound of the readings is below 10^307 mm: the range in which
    binary64 holds the figures and the sum of two of them, so that no
    reading is infinite in the source. *)
Definition within_binary64 (regions : Rainfall.regions_t) : Prop :=
  Forall (fun kr =>
            (Rainfall.min_rainfall (snd kr) < inject_Z (10 ^ 307)
             /\ Rainfall.max_rainfall (snd kr) < inject_Z (10 ^ 307))%Q)
         regions.

(** A whole number of millimetres. *)
Definition whole (q : Q) : Prop := exists n : N, (q == inject_Z (Z.of_N n))%Q.

(** The first entry of a dictionary of readings. *)
Definition first_reading (regions : Rainfall.regions_t)
  : ustr * Rainfall.reading :=
  hd ([], Rainfall.mkreading 0 0 0) regions.

(** The report of a text, for the texts on which parsing succeeds. *)
Definition report_of (now : datetime) (text : ustr) : Rainfall.report :=
  match Rainfall.parse_rainfall now text with
  | Ok rep => rep
  | Raise _ => Rainfall.mkreport now [] 0 0
  end.

End RegionSpec.
Import RegionSpec.

Module ChartSpec.
Import Rainfall.
Local Open Scope Z_scope.

(** The range of the bar colours: red from 55 to 255, green from 105 to
    255, blue at 255. *)
Definition in_scale (c : Z * Z * Z) : Prop :=
  let '(r, g, b) := c in 55 <= r <= 255 /\ 105 <= g <= 255 /\ b = 255.

(** The three counts of the regional statistics, added up. *)
Definition counted (s : nat * nat * nat) : nat :=
  let '(dry, light, heavy) := s in (dry + light + heavy)%nat.

End ChartSpec.
Import ChartSpec.

Module PageSpec.

(** The weather read from a page, for the pages on which the body of the
    [try] block succeeds. *)
Definition weather_of (p : soup) (w : world) : weather :=
  match fst (parse_weather p w) with
  | Ok x => x
  | Raise _ => mkweather (now_at w (time_calls w)) None None unknown
  end.

(** A value of the dashboard's history that is a dictionary with a
    timestamp newer than the cutoff. *)
Definition fresh_value (c : datetime) (x : pyval) : Prop :=
  exists d, x = VDict d /\ fresh c d.

(** One call of [stop_background_updates] on the pair of the updater and
    the world. *)
Definition stop (s : updater * world) : updater * world :=
  stop_background_updates (fst s) (snd s).

End PageSpec.
Import PageSpec.

(** * Properties *)

Module TextFacts.

Lemma ustr_eqb_eq a b : ustr_eqb a b = true <-> a = b.
Proof.
  unfold ustr_eqb. destruct (list_eq_dec N.eq_dec a b); split; congruence.
Qed.

Lemma ustr_eqb_refl a : ustr_eqb a a = true.
Proof. now apply ustr_eqb_eq. Qed.

End TextFacts.
Import TextFacts.

(** ** What a successful match says about the text *)

Module ReFacts.

Lemma starts_with_app l s : starts_with l s = true -> s = l ++ skipn (length l) s.
Proof.
  revert s. induction l as [|a l IH]; intros [|b s]; simpl; try easy.
  intros H. apply andb_prop in H as [Hab Hl].
  apply N.eqb_eq in Hab. subst b. f_equal. now apply IH.
Qed.

Lemma star_sound X c s (k : ustr -> option X) x :
  star c s k = Some x ->
  exists xs s', s = xs ++ s' /\ forallb (in_cls c) xs = true /\ k s' = Some x.
Proof.
  revert x. induction s as [|a s IH]; intros x; simpl.
  - intros H. now exists [], [].
  - destruct (in_cls c a) eqn:Ha.
    + destruct (star c s k) as [y|] eqn:Hs.
      * intros [= <-]. destruct (IH y eq_refl) as (xs & s' & -> & Hxs & Hk).
        exists (a :: xs), s'. simpl. now rewrite Ha, Hxs.
      * intros H. now exists [], (a :: s).
    + intros H. now exists [], (a :: s).
Qed.

(** Soundness of the matcher: an answer comes from the continuation, at a
    point the pattern can reach. *)
Lemma rmatch_sound X r : forall s g (k : ustr -> groups -> option X) x,
  rmatch r s g k = Some x ->
  exists s' g', sem r s g s' g' /\ k s' g' = Some x.
Proof.
  induction r as [l|c|c|c|r IH|r1 IH1 r2 IH2|r1 IH1 r2 IH2|i r IH];
    intros s g k x; simpl.
  - destruct (starts_with l s) eqn:Hl; [|easy].
    intros H. exists (skipn (length l) s), g. auto using starts_with_app.
  - destruct s as [|a s]; [easy|]. destruct (in_cls c a) eqn:Ha; [|easy].
    intros H. exists s, g. split; [now exists a|easy].
  - intros H. apply star_sound in H as (xs & s' & -> & Hxs & Hk).
    exists s', g. split; [now exists xs|easy].
  - destruct s as [|a s]; [easy|]. destruct (in_cls c a) eqn:Ha; [|easy].
    intros H. apply star_sound in H as (xs & s' & -> & Hxs & Hk).
    exists s', g. split; [|easy].
    exists (a :: xs). simpl. rewrite Ha, Hxs. now repeat split.
  - destruct (rmatch r s g k) as [y|] eqn:Hr.
    + intros [= <-]. apply IH in Hr as (s' & g' & Hs & Hk).
      exists s', g'. auto.
    + intros H. exists s, g. auto.
  - intros H. apply IH1 in H as (s1 & g1 & H1 & H).
    apply IH2 in H as (s' & g' & H2 & Hk).
    exists s', g'. split; [now exists s1, g1|easy].
  - destruct (rmatch r1 s g k) as [y|] eqn:Hr.
    + intros [= <-]. apply IH1 in Hr as (s' & g' & Hs & Hk).
      exists s', g'. auto.
    + intros H. apply IH2 in H as (s' & g' & Hs & Hk).
      exists s', g'. auto.
  - intros H. apply IH in H as (s' & g' & Hs & Hk).
    eexists s', _. split; [exists g'; split; [exact Hs|reflexivity]|exact Hk].
Qed.

Lemma match_here_sound r s g rest :
  match_here r s = Some (g, rest) -> sem r s [] rest g.
Proof.
  unfold match_here. intros H.
  apply rmatch_sound in H as (s' & g' & Hs & [= <- <-]). exact Hs.
Qed.

(** Every tuple [findall] returns is that of a match somewhere in the text. *)
Lemma findall_from_sound r m : forall s skip,
  In m (findall_from r s skip) ->
  exists s0 g rest, match_here r s0 = Some (g, rest) /\ m = group_tuple r g.
Proof.
  induction s as [|a s IH]; intros skip; simpl.
  - destruct skip; [|easy].
    destruct (match_here r []) as [[g rest]|] eqn:Hm; [|easy].
    intros [<-|[]]. now exists [], g, rest.
  - destruct skip as [|n]; [|apply IH].
    destruct (match_here r (a :: s)) as [[g rest]|] eqn:Hm; [|apply IH].
    intros [<-|H]; [now exists (a :: s), g, rest|now apply IH in H].
Qed.

Lemma findall_sound r s m :
  In m (findall r s) ->
  exists s0 g rest, sem r s0 [] rest g /\ m = group_tuple r g.
Proof.
  intros H. apply findall_from_sound in H as (s0 & g & rest & Hm & ->).
  exists s0, g, rest. auto using match_here_sound.
Qed.

Lemma firstn_captured (xs s' : ustr) :
  firstn (length (xs ++ s') - length s') (xs ++ s') = xs.
Proof.
  rewrite length_app, Nat.add_sub. rewrite firstn_app, Nat.sub_diag.
  simpl. rewrite app_nil_r. apply firstn_all.
Qed.

End ReFacts.
Import ReFacts.

(** ** Numbers read from the text *)

Module NumFacts.

Lemma digits_value_run s : forall acc,
  forallb is_digit s = true -> exists n, digits_value acc s = Some n.
Proof.
  induction s as [|c s IH]; intros acc; simpl.
  - now exists acc.
  - unfold is_digit. destruct (decimal_value c) as [d|]; [|easy].
    simpl. apply IH.
Qed.

Lemma split_dot_run s :
  forallb is_digit s = true -> split_dot s = (s, None).
Proof.
  induction s as [|c s IH]; simpl; [easy|].
  intros H. apply andb_prop in H as [Hc Hs].
  destruct (c =? 46)%N eqn:E.
  - apply N.eqb_eq in E. subst c. discriminate Hc.
  - now rewrite (IH Hs).
Qed.

(** [float] succeeds on what ["\d+"] captures. *)
Lemma py_float_run s : digit_run s -> exists q, py_float s = Ok q.
Proof.
  intros [Hne Hd]. unfold py_float. rewrite (split_dot_run _ Hd).
  destruct (digits_value_run s 0%N Hd) as [n Hn].
  destruct s as [|c s]; [easy|]. rewrite Hn. simpl. eauto.
Qed.

(** Whatever [float] reads from digits is not negative. *)
Lemma py_float_nonneg s q : py_float s = Ok q -> 0 <= q.
Proof.
  unfold py_float. destruct (split_dot s) as [a b].
  set (frac := match b with Some f => f | None => [] end).
  assert (H : forall x y, 0 <= inject_Z (Z.of_N x)
              + inject_Z (Z.of_N y) / inject_Z (10 ^ Z.of_nat (length frac))).
  { intros x y.
    assert (Hx : 0 <= inject_Z (Z.of_N x))
      by (change 0 with (inject_Z 0); rewrite <- Zle_Qle; lia).
    assert (Hy : 0 <= inject_Z (Z.of_N y))
      by (change 0 with (inject_Z 0); rewrite <- Zle_Qle; lia).
    assert (Hp : 0 <= / inject_Z (10 ^ Z.of_nat (length frac))).
    { apply Qinv_le_0_compat. change 0 with (inject_Z 0).
      rewrite <- Zle_Qle. apply Z.pow_nonneg. lia. }
    unfold Qdiv. pose proof (Qmult_le_0_compat _ _ Hy Hp).
    apply (Qplus_le_compat 0 _ 0 _ Hx) in H. exact H. }
  destruct a, frac; try discriminate;
    destruct (digits_value 0 _); try discriminate;
    destruct (digits_value 0 _); try discriminate;
    intros [= <-]; apply H.
Qed.

End NumFacts.
Import NumFacts.

(** ** The tuples the three rainfall patterns yield *)

Module PatternFacts.
Import Rainfall.

Ltac break_sem :=
  repeat match goal with
  | H : exists _, _ |- _ => destruct H
  | H : _ /\ _ |- _ => destruct H
  end.

(** A pattern without groups leaves the captured groups alone. *)
Lemma sem_no_groups r : forall s g s' g',
  ngroups r = 0%nat -> sem r s g s' g' -> g' = g.
Proof.
  induction r; simpl; intros s g s' g' Hn H; break_sem; subst; auto;
    try discriminate.
  - destruct H as [H|[_ ->]]; eauto.
  - apply Nat.eq_add_0 in Hn as [Hn1 Hn2].
    transitivity x0; eauto.
  - apply Nat.eq_add_0 in Hn as [Hn1 Hn2]. destruct H; eauto.
Qed.

Lemma ngroups_alternation l : ngroups (alternation l) = 0%nat.
Proof.
  destruct l as [|a l]; [reflexivity|]. simpl.
  generalize (RLit a) (eq_refl : ngroups (RLit a) = 0%nat).
  induction l as [|b l IH]; simpl; intros r Hr; [exact Hr|].
  apply IH. simpl. now rewrite Hr.
Qed.

(** A captured run of digits. *)
Lemma captured_run xs s' :
  xs <> [] -> forallb (in_cls CDigit) xs = true ->
  digit_run (firstn (length (xs ++ s') - length s') (xs ++ s')).
Proof.
  intros Hne Hd. rewrite firstn_captured. now split.
Qed.

Lemma pattern1_tuple text m :
  In m (findall pattern1 text) ->
  exists region rainfall, m = [region; rainfall] /\ digit_run rainfall.
Proof.
  intros H. apply findall_sound in H as (s0 & g & rest & Hs & ->).
  unfold pattern1 in *. cbn [cat sem] in Hs. break_sem. subst.
  cbn [group_tuple ngroups cat Nat.add seq map group Nat.eqb].
  eexists _, _. split; [reflexivity|].
  now apply captured_run.
Qed.

Lemma pattern2_tuple text m :
  In m (findall pattern2 text) ->
  exists region min_rain max_rain,
    m = [region; min_rain; max_rain]
    /\ digit_run min_rain /\ digit_run max_rain.
Proof.
  intros H. apply findall_sound in H as (s0 & g & rest & Hs & ->).
  unfold pattern2 in *. cbn [cat sem] in Hs. break_sem. subst.
  cbn [group_tuple ngroups cat Nat.add seq map group Nat.eqb].
  eexists _, _, _. split; [reflexivity|].
  split; now apply captured_run.
Qed.

Lemma pattern3_tuple text m :
  In m (findall pattern3 text) ->
  exists region min_rain max_rain,
    m = [region; min_rain; max_rain]
    /\ digit_run min_rain /\ (max_rain = [] \/ digit_run max_rain).
Proof.
  intros H. apply findall_sound in H as (s0 & g & rest & Hs & ->).
  unfold pattern3 in *. cbn [cat sem] in Hs.
  destruct Hs as (s1 & g1 & (g0 & Halt & ->) & Hs).
  apply sem_no_groups in Halt; [|apply ngroups_alternation]. subst g0.
  destruct Hs as (s2 & g2 & Hsp1 & s3 & g3 & Hg2 & s4 & g4 & Hsp2
                  & s5 & g5 & Hzhi & s6 & g6 & Hsp3 & s7 & g7 & Hg3 & Hs).
  assert (Htail : g = g7).
  { apply (@sem_no_groups
             (cat [RStar CSpace; RLit cjk_hao; RStar CSpace; RLit cjk_mi])
             s7 g7 rest g); [reflexivity|exact Hs]. }
  clear Hs. subst g.
  assert (g5 = g4) by (destruct Hzhi as [Hz|[_ Hz]]; [destruct Hz|]; auto).
  break_sem. subst.
  assert (Hngroups : ngroups
            (cat [RGroup 1 (alternation districts); RStar CSpace;
                  RGroup 2 (RPlus CDigit); RStar CSpace; ROpt (RLit cjk_zhi);
                  RStar CSpace; ROpt (RGroup 3 (RPlus CDigit)); RStar CSpace;
                  RLit cjk_hao; RStar CSpace; RLit cjk_mi]) = 3%nat).
  { cbn [cat ngroups]. now rewrite ngroups_alternation. }
  unfold group_tuple. rewrite Hngroups.
  destruct Hg3 as [Hg3|[_ ->]].
  - break_sem. subst.
    cbn [seq map group Nat.eqb].
    eexists _, _, _. split; [reflexivity|].
    split; [|right]; now apply captured_run.
  - cbn [seq map group Nat.eqb].
    eexists _, _, _. split; [reflexivity|].
    split; [now apply captured_run|now left].
Qed.

End PatternFacts.
Import PatternFacts.

(** ** Rainfall parsing: what the regions dictionary holds *)

Module RainfallFacts.
Import Rainfall.
Local Open Scope Q_scope.

Lemma patterns_well_formed p text m :
  In p patterns -> In m (findall p text) -> well_formed m.
Proof.
  intros [<-|[<-|[<-|[]]]] H.
  - apply pattern1_tuple in H as (region & v & -> & Hv). left. eauto.
  - apply pattern2_tuple in H as (region & a & b & -> & Ha & Hb).
    right. exists region, a, b. auto.
  - apply pattern3_tuple in H as (region & a & b & -> & Ha & Hb).
    right. exists region, a, b. auto.
Qed.

Lemma set_In V (d : Dict.dict V) k v k' v' :
  In (k', v') (Dict.set d k v) -> In (k', v') d \/ (k', v') = (k, v).
Proof.
  induction d as [|[k0 v0] d IH]; simpl.
  - intros [[= <- <-]|[]]. now right.
  - destruct (ustr_eqb k k0) eqn:E.
    + apply ustr_eqb_eq in E. subst k0.
      intros [[= <- <-]|H]; [now right|left; now right].
    + intros [H|H]; [left; now left|].
      apply IH in H as [H|H]; [left; now right|now right].
Qed.

(** What the loop body does with a tuple the patterns can yield. *)
Lemma store_match_well_formed d m :
  well_formed m ->
  exists mn mx av,
    store_match d m = Ok (Dict.set d (key m) (mkreading mn mx av))
    /\ stores m (key m) (mkreading mn mx av)
    /\ 0 <= mn /\ 0 <= mx
    /\ ((single_value m /\ av == mn /\ mn == mx)
        \/ (two_bound m /\ av == (mn + mx) / 2
            /\ py_float (nth 1 m []) = Ok mn
            /\ py_float (nth 2 m []) = Ok mx)).
Proof.
  intros [(region & v & -> & Hv)|(region & a & b & -> & Ha & [->|Hb])].
  - destruct (py_float_run Hv) as [q Hq].
    exists q, q, q. unfold stores, store_match, key. rewrite Hq. simpl.
    pose proof (py_float_nonneg _ Hq).
    repeat split; auto. left. repeat split; try reflexivity.
    exists region, v. now left.
  - destruct (py_float_run Ha) as [q Hq].
    exists q, q, q. unfold stores, store_match, key. rewrite Hq. simpl.
    pose proof (py_float_nonneg _ Hq).
    repeat split; auto. left. repeat split; try reflexivity.
    exists region, a. now right.
  - destruct (py_float_run Ha) as [qa Hqa].
    destruct (py_float_run Hb) as [qb Hqb].
    exists qa, qb, ((qa + qb) / 2). unfold stores, store_match, key.
    destruct b as [|c b]; [now destruct Hb|].
    rewrite Hqa, Hqb. simpl.
    pose proof (py_float_nonneg _ Hqa). pose proof (py_float_nonneg _ Hqb).
    repeat split; auto. right. repeat split; auto; try reflexivity.
    exists region, a, (c :: b). split; [reflexivity|discriminate].
Qed.

Lemma store_matches_spec ms : forall d,
  Forall well_formed ms ->
  exists d', store_matches d ms = Ok d'
    /\ forall kr, In kr d' ->
         In kr d \/ exists m, In m ms /\ stores m (fst kr) (snd kr).
Proof.
  induction ms as [|m ms IH]; intros d Hwf; simpl.
  - exists d. auto.
  - inversion Hwf as [|? ? Hm Hms]; subst.
    destruct (store_match_well_formed d Hm)
      as (mn & mx & av & Hstore & Hst & _).
    rewrite Hstore. simpl.
    destruct (IH (Dict.set d (key m) (mkreading mn mx av)) Hms)
      as (d' & Hd' & Hin).
    exists d'. split; [exact Hd'|].
    intros [k r] Hkr. apply Hin in Hkr as [Hkr|(m' & Hm' & Hs)].
    + apply set_In in Hkr as [Hkr|[= -> ->]]; [now left|].
      right. exists m. split; [now left|exact Hst].
    + right. exists m'. split; [now right|exact Hs].
Qed.

Lemma apply_patterns_spec text ps : forall d,
  (forall p, In p ps -> In p patterns) ->
  exists d', apply_patterns ps text d = Ok d'
    /\ forall kr, In kr d' -> In kr d \/ produced ps text kr.
Proof.
  induction ps as [|p ps IH]; intros d Hps; simpl.
  - exists d. auto.
  - assert (Hwf : Forall well_formed (findall p text)).
    { apply Forall_forall. intros m Hm.
      apply (@patterns_well_formed p text m); [apply Hps; now left|exact Hm]. }
    destruct (store_matches_spec d Hwf) as (d1 & Hd1 & Hin1).
    rewrite Hd1. simpl.
    destruct (IH d1) as (d' & Hd' & Hin); [intros q Hq; apply Hps; now right|].
    exists d'. split; [exact Hd'|].
    intros kr Hkr. apply Hin in Hkr as [Hkr|(q & m & Hq & Hm & Hs)].
    + apply Hin1 in Hkr as [Hkr|(m & Hm & Hs)]; [now left|].
      right. exists p, m. repeat split; auto. now left.
    + right. exists q, m. repeat split; auto. now right.
Qed.

(** Parsing never raises, and every entry was stored for some match. *)
Lemma parse_rainfall_spec now text :
  exists regions,
    apply_patterns patterns text [] = Ok regions
    /\ Forall (produced patterns text) regions
    /\ parse_rainfall now text
       = Ok (match regions with
             | _ :: _ =>
               mkreport now regions (length regions)
                 (sum (avg_values regions)
                  / inject_Z (Z.of_nat (length (avg_values regions))))
             | [] => mkreport now regions 0 0
             end).
Proof.
  destruct (@apply_patterns_spec text patterns []) as (d & Hd & Hin); [auto|].
  exists d. split; [exact Hd|]. split.
  - apply Forall_forall. intros kr Hkr.
    apply Hin in Hkr as [[]|H]. exact H.
  - unfold parse_rainfall. rewrite Hd. simpl. now destruct d.
Qed.

(** The reading stored for a match, in terms of the match. *)
Lemma stores_facts p text m k r :
  In p patterns -> In m (findall p text) -> stores m k r ->
  k = key m
  /\ 0 <= min_rainfall r /\ 0 <= max_rainfall r /\ 0 <= average_rainfall r
  /\ ((single_value m /\ average_rainfall r == min_rainfall r
       /\ min_rainfall r == max_rainfall r)
      \/ (two_bound m
          /\ average_rainfall r == (min_rainfall r + max_rainfall r) / 2
          /\ py_float (nth 1 m []) = Ok (min_rainfall r)
          /\ py_float (nth 2 m []) = Ok (max_rainfall r))).
Proof.
  intros Hp Hm Hs.
  destruct (store_match_well_formed [] (patterns_well_formed _ _ Hp Hm))
    as (mn & mx & av & Hstore & _ & Hmn & Hmx & Hcase).
  unfold stores in Hs. rewrite Hstore in Hs. simpl in Hs.
  injection Hs as <- <-. simpl.
  repeat split; auto.
  destruct Hcase as [(_ & Hav & _)|(_ & Hav & _)]; rewrite Hav; [exact Hmn|].
  apply Qle_shift_div_l; [reflexivity|]. rewrite Qmult_0_l.
  apply (Qplus_le_compat 0 _ 0 _ Hmn) in Hmx. exact Hmx.
Qed.

End RainfallFacts.
Import RainfallFacts.

(** ** Rainfall parsing: the readings and the report average *)

Module RainfallClaims.
Import Rainfall.
Local Open Scope Q_scope.

Lemma fold_left_total l : forall a, fold_left Qplus l a == a + total l.
Proof.
  induction l as [|x l IH]; intros a; simpl.
  - ring.
  - rewrite IH. ring.
Qed.

Lemma sum_total l : sum l == total l.
Proof. unfold sum. rewrite fold_left_total. ring. Qed.

Lemma total_nonneg l : Forall (fun x => 0 <= x) l -> 0 <= total l.
Proof.
  induction 1 as [|x l Hx _ IH]; simpl; [apply Qle_refl|].
  apply (Qplus_le_compat 0 _ 0 _ Hx IH).
Qed.

Lemma total_zero l :
  Forall (fun x => 0 <= x) l -> total l == 0 -> Forall (fun x => x == 0) l.
Proof.
  induction 1 as [|x l Hx Hl IH]; simpl; intros H; constructor.
  - pose proof (total_nonneg Hl). lra.
  - apply IH. pose proof (total_nonneg Hl). lra.
Qed.

Lemma total_all_zero l : Forall (fun x => x == 0) l -> total l == 0.
Proof.
  induction 1 as [|x l Hx _ IH]; simpl; [reflexivity|]. rewrite Hx, IH. ring.
Qed.

Lemma length_pos_Q (A : Type) (l : list A) :
  l <> [] -> 0 < inject_Z (Z.of_nat (length l)).
Proof.
  intros H. change 0 with (inject_Z 0). rewrite <- Zlt_Qlt.
  destruct l; [easy|]. simpl length. lia.
Qed.

Lemma produced_nonneg text regions :
  Forall (produced patterns text) regions ->
  Forall (fun x => 0 <= x) (avg_values regions).
Proof.
  unfold avg_values, Dict.values. rewrite map_map.
  induction 1 as [|[k r] l (p & m & Hp & Hm & Hs) _ IH]; simpl; constructor.
  - now destruct (@stores_facts p text m _ _ Hp Hm Hs) as (_ & _ & _ & H & _).
  - exact IH.
Qed.

(** C4.  For every input text, parsing succeeds and every region reading
    was stored for a match of one of the patterns.  Every match of a
    pattern carries either a single value or two bounds; the reading
    stored for a single-value match has average = min = max, and the
    reading stored for a two-bound match has average = (min + max) / 2.
    The text with "中西區1毫米" and "西貢0至5毫米" parses to exactly the
    regions 中西區 (1, 1, 1) and 西貢 (0, 5, 5/2), with report average
    7/4 = 1.75. *)
Theorem region_reading_averages :
  (forall now text,
     exists rep, parse_rainfall now text = Ok rep
       /\ Forall (fun kr =>
            exists p m, In p patterns /\ In m (findall p text)
                        /\ stores m (fst kr) (snd kr))
            (regions rep))
  /\ (forall text p m k r,
        In p patterns -> In m (findall p text) -> stores m k r ->
        (single_value m \/ two_bound m)
        /\ (single_value m ->
            average_rainfall r == min_rainfall r
            /\ min_rainfall r == max_rainfall r)
        /\ (two_bound m ->
            average_rainfall r == (min_rainfall r + max_rainfall r) / 2))
  /\ (forall now,
        parse_rainfall now (U "中西區1毫米 西貢0至5毫米")
        = Ok (mkreport now
                [ (U "中西區", mkreading 1 1 1);
                  (U "西貢", mkreading 0 5 (5 # 2)) ]
                2 (7 # 4)))
  /\ 7 # 4 == 1.75 /\ 5 # 2 == 2.5.
Proof.
  split; [|split; [|split; [intros now; vm_compute; reflexivity
                           |split; reflexivity]]].
  - intros now text.
    destruct (parse_rainfall_spec now text) as (d & _ & Hprod & Hparse).
    eexists. split; [exact Hparse|]. now destruct d.
  - intros text p m k r Hp Hm Hs.
    destruct (@stores_facts p text m _ _ Hp Hm Hs) as (_ & _ & _ & _ & Hcase).
    destruct Hcase as [(H1 & H2 & H3)|(H1 & H2 & _)].
    + split; [now left|]. split; [auto|].
      intros (region & a & b & -> & Hb).
      destruct H1 as (region' & v & [H1|H1]); [discriminate H1|].
      injection H1 as _ _ ->. now contradiction Hb.
    + split; [now right|]. split; [|auto].
      intros (region' & v & [Hs1|Hs1]);
        destruct H1 as (region & a & b & -> & Hb); [discriminate Hs1|].
      injection Hs1 as _ _ ->. now contradiction Hb.
Qed.

(** The match of the second pattern in "中西區0至5毫米" carries two
    bounds, and its reading has the average 5/2. *)
Lemma region_reading_averages_witness :
  (single_value [U "中西區"; U "0"; U "5"]
   \/ two_bound [U "中西區"; U "0"; U "5"])
  /\ (single_value [U "中西區"; U "0"; U "5"] ->
      average_rainfall (mkreading 0 5 (5 # 2))
      == min_rainfall (mkreading 0 5 (5 # 2))
      /\ min_rainfall (mkreading 0 5 (5 # 2))
         == max_rainfall (mkreading 0 5 (5 # 2)))
  /\ (two_bound [U "中西區"; U "0"; U "5"] ->
      average_rainfall (mkreading 0 5 (5 # 2))
      == (min_rainfall (mkreading 0 5 (5 # 2))
          + max_rainfall (mkreading 0 5 (5 # 2))) / 2).
Proof.
  apply (proj1 (proj2 region_reading_averages)
               (U "中西區0至5毫米") pattern2 [U "中西區"; U "0"; U "5"]
               (U "中西區") (mkreading 0 5 (5 # 2))).
  - right. left. reflexivity.
  - vm_compute. left. reflexivity.
  - vm_compute. reflexivity.
Defined.

(** C9, as stated, fails: the range "西貢5至0毫米" is stored with
    min 5 and max 0. *)
Lemma bounds_ordered_fails : ~ bounds_ordered.
Proof.
  intros H.
  assert (Hp : parse_rainfall (mkdt 2024 1 1 0 0 0 0) (U "西貢5至0毫米")
               = Ok (mkreport (mkdt 2024 1 1 0 0 0 0)
                       [(U "西貢", mkreading 5 0 (5 # 2))] 1 (5 # 2)))
    by (vm_compute; reflexivity).
  destruct (H _ _ _ Hp (U "西貢") (mkreading 5 0 (5 # 2))) as [_ Hle].
  - now left.
  - now apply Hle.
Qed.

(** C9, amended.  For every input text, every reading has min >= 0 and
    max >= 0; a reading stored for a single-value match has max = min, and
    one stored for a two-number match has the first number as min and the
    second as max, in the order of the text. *)
Theorem reading_bounds :
  forall now text,
    exists rep, parse_rainfall now text = Ok rep
      /\ Forall (fun kr =>
           0 <= min_rainfall (snd kr) /\ 0 <= max_rainfall (snd kr)
           /\ exists p m, In p patterns /\ In m (findall p text)
                /\ stores m (fst kr) (snd kr)
                /\ ((single_value m
                     /\ max_rainfall (snd kr) == min_rainfall (snd kr))
                    \/ (two_bound m
                        /\ py_float (nth 1 m []) = Ok (min_rainfall (snd kr))
                        /\ py_float (nth 2 m []) = Ok (max_rainfall (snd kr)))))
           (regions rep).
Proof.
  intros now text.
  destruct (parse_rainfall_spec now text) as (d & _ & Hprod & Hparse).
  eexists. split; [exact Hparse|].
  assert (Hregions : regions
            match d with
            | [] => mkreport now d 0 0
            | _ :: _ =>
              mkreport now d (length d)
                (sum (avg_values d)
                 / inject_Z (Z.of_nat (length (avg_values d))))
            end = d) by now destruct d.
  rewrite Hregions. apply Forall_forall. intros [k r] Hkr.
  rewrite Forall_forall in Hprod.
  destruct (Hprod _ Hkr) as (p & m & Hp & Hm & Hs).
  destruct (@stores_facts p text m _ _ Hp Hm Hs) as (_ & Hmn & Hmx & _ & Hcase).
  simpl. repeat split; auto.
  exists p, m. repeat split; auto.
  destruct Hcase as [(H1 & H2 & H3)|(H1 & _ & H2 & H3)]; [left|right]; auto.
  split; [exact H1|]. symmetry. exact H3.
Qed.

(** C3, as stated, fails: on "中西區0毫米" one region is found and the
    report average is 0. *)
Lemma average_zero_iff_empty_fails : ~ average_zero_iff_empty.
Proof.
  intros H.
  assert (Hp : parse_rainfall (mkdt 2024 1 1 0 0 0 0) (U "中西區0毫米")
               = Ok (mkreport (mkdt 2024 1 1 0 0 0 0)
                       [(U "中西區", mkreading 0 0 0)] 1 0))
    by (vm_compute; reflexivity).
  destruct (H _ _ _ Hp) as [_ [Hz _]].
  cbn [regions report_average_rainfall] in Hz.
  discriminate Hz. reflexivity.
Qed.

(** C3, amended.  For every input text the report counts the regions, its
    average is the arithmetic mean of the per-region averages, it is 0
    when there are no regions, and it is 0 exactly when every per-region
    average is 0 (which includes the case of no regions). *)
Theorem report_average_is_mean :
  forall now text,
    exists rep, parse_rainfall now text = Ok rep
      /\ total_regions rep = length (regions rep)
      /\ report_average_rainfall rep == mean (avg_values (regions rep))
      /\ (regions rep = [] -> report_average_rainfall rep == 0)
      /\ (report_average_rainfall rep == 0
          <-> Forall (fun kr => average_rainfall (snd kr) == 0) (regions rep)).
Proof.
  intros now text.
  destruct (parse_rainfall_spec now text) as (d & _ & Hprod & Hparse).
  eexists. split; [exact Hparse|].
  destruct d as [|kr d];
    cbn [regions total_regions report_average_rainfall].
  - repeat split; try reflexivity. constructor.
  - set (l := kr :: d) in *.
    assert (Hne : l <> []) by discriminate.
    assert (Hlen : length (avg_values l) = length l)
      by (unfold avg_values, Dict.values; now rewrite !length_map).
    assert (Hn : 0 < inject_Z (Z.of_nat (length (avg_values l))))
      by (rewrite Hlen; now apply length_pos_Q).
    assert (Hn0 : ~ inject_Z (Z.of_nat (length (avg_values l))) == 0) by lra.
    pose proof (produced_nonneg Hprod) as Hpos.
    assert (Hall : Forall (fun kr => average_rainfall (snd kr) == 0) l
                   <-> Forall (fun x => x == 0) (avg_values l)).
    { unfold avg_values, Dict.values. rewrite map_map, Forall_map. reflexivity. }
    repeat split.
    + unfold mean. now rewrite sum_total.
    + discriminate.
    + intros Hz. apply Hall. apply total_zero; [exact Hpos|].
      rewrite <- sum_total.
      rewrite <- (Qmult_div_r (sum (avg_values l)) _ Hn0), Hz. ring.
    + intros Hz. apply Hall in Hz. apply total_all_zero in Hz.
      rewrite sum_total, Hz. unfold Qdiv. ring.
Qed.

(** *** The order of the patterns *)

Lemma get_set_same V (d : Dict.dict V) k v :
  Dict.get (Dict.set d k v) k = Some v.
Proof.
  induction d as [|[k0 v0] d IH]; simpl.
  - now rewrite ustr_eqb_refl.
  - destruct (ustr_eqb k k0) eqn:E; simpl; now rewrite E.
Qed.

Lemma get_set_other V (d : Dict.dict V) k k' v :
  k' <> k -> Dict.get (Dict.set d k v) k' = Dict.get d k'.
Proof.
  intros Hk. induction d as [|[k0 v0] d IH]; simpl.
  - destruct (ustr_eqb k' k) eqn:E; [|reflexivity].
    apply ustr_eqb_eq in E. contradiction.
  - destruct (ustr_eqb k k0) eqn:E; simpl.
    + apply ustr_eqb_eq in E. subst k0.
      destruct (ustr_eqb k' k) eqn:E'; [|reflexivity].
      apply ustr_eqb_eq in E'. contradiction.
    + now rewrite IH.
Qed.

(** The patterns run one after the other, each over the whole text: the
    dictionary is the result of storing all matches of the first pattern,
    then all of the second, then all of the third. *)
Lemma store_matches_app a : forall b d,
  store_matches d (a ++ b) = (d1 <- store_matches d a ;; store_matches d1 b).
Proof.
  induction a as [|m a IH]; intros b d; simpl; [reflexivity|].
  destruct (store_match d m); simpl; [apply IH|reflexivity].
Qed.

Lemma apply_patterns_in_sequence text ps : forall d,
  apply_patterns ps text d
  = store_matches d (flat_map (fun p => findall p text) ps).
Proof.
  induction ps as [|p ps IH]; intros d; simpl; [reflexivity|].
  rewrite store_matches_app.
  destruct (store_matches d (findall p text)); simpl; [apply IH|reflexivity].
Qed.

(** Matches stored afterwards under other keys leave a key as it is. *)
Lemma store_matches_other_keys k ms : forall d d',
  Forall well_formed ms ->
  (forall m', In m' ms -> key m' <> k) ->
  store_matches d ms = Ok d' -> Dict.get d' k = Dict.get d k.
Proof.
  induction ms as [|m ms IH]; intros d d' Hwf Hk; simpl.
  - now intros [= <-].
  - inversion Hwf as [|? ? Hm Hms]; subst.
    destruct (store_match_well_formed d Hm) as (mn & mx & av & Hst & _).
    rewrite Hst. simpl. intros H.
    rewrite (IH _ _ Hms (fun m' Hm' => Hk m' (or_intror Hm')) H).
    apply get_set_other. intros E. apply (Hk m); [now left|now symmetry].
Qed.

Lemma all_matches_well_formed text ps :
  (forall p, In p ps -> In p patterns) ->
  Forall well_formed (flat_map (fun p => findall p text) ps).
Proof.
  intros Hps. apply Forall_forall. intros m Hm.
  apply in_flat_map in Hm as (p & Hp & Hm).
  exact (@patterns_well_formed p text m (Hps p Hp) Hm).
Qed.

(** C5.  The patterns are applied to the whole text in list order, and a
    later match overwrites an earlier one under the same trimmed region
    name: if [m] is a match of the pattern [p], no later match of [p] and
    no match of a pattern after [p] in the list has the same key, then the
    dictionary holds under that key the reading stored for [m], whatever
    the patterns before [p] and the earlier matches of [p] stored there. *)
Theorem later_pattern_overwrites text ps1 p ps2 ms1 m ms2 :
  patterns = ps1 ++ p :: ps2 ->
  findall p text = ms1 ++ m :: ms2 ->
  (forall m', In m' ms2 -> key m' <> key m) ->
  (forall q m', In q ps2 -> In m' (findall q text) -> key m' <> key m) ->
  exists regions r,
    apply_patterns patterns text [] = Ok regions
    /\ apply_patterns patterns text []
       = store_matches [] (flat_map (fun q => findall q text) patterns)
    /\ stores m (key m) r
    /\ Dict.get regions (key m) = Some r.
Proof.
  intros Hps Hfind Hms2 Hps2.
  assert (Hin : forall q, In q (ps1 ++ p :: ps2) -> In q patterns)
    by (intros q Hq; now rewrite Hps).
  pose proof (all_matches_well_formed text _ Hin) as Hwf.
  rewrite apply_patterns_in_sequence. rewrite Hps.
  rewrite flat_map_app in *. simpl flat_map in *. rewrite Hfind in *.
  rewrite <- !app_assoc in *. simpl app in *.
  set (before := flat_map (fun q => findall q text) ps1 ++ ms1) in *.
  set (after := ms2 ++ flat_map (fun q => findall q text) ps2) in *.
  assert (Hsplit : flat_map (fun q => findall q text) ps1
                   ++ ms1 ++ m :: after = before ++ m :: after)
    by (unfold before; now rewrite <- app_assoc).
  rewrite Hsplit in *. clear Hsplit.
  apply Forall_app in Hwf as [Hwf1 Hwf2].
  inversion Hwf2 as [|? ? Hm Hwf3]; subst.
  rewrite store_matches_app.
  destruct (store_matches_spec [] Hwf1) as (d1 & Hd1 & _).
  rewrite Hd1. simpl.
  destruct (store_match_well_formed d1 Hm) as (mn & mx & av & Hst & Hs & _).
  rewrite Hst. simpl.
  destruct (store_matches_spec (Dict.set d1 (key m) (mkreading mn mx av)) Hwf3)
    as (d' & Hd' & _).
  exists d', (mkreading mn mx av). repeat split; auto.
  transitivity (Dict.get (Dict.set d1 (key m) (mkreading mn mx av)) (key m));
    [|apply get_set_same].
  apply (@store_matches_other_keys (key m) after _ d' Hwf3); [|exact Hd'].
  intros m' Hm'. unfold after in Hm'.
  apply in_app_or in Hm' as [Hm'|Hm']; [now apply Hms2|].
  apply in_flat_map in Hm' as (q & Hq & Hm'). now apply (Hps2 q).
Qed.

(** The text in which the first pattern reads 中西區 as 1 and the second as
    the range 0 to 5: the dictionary holds the range, in either order of
    the two phrases. *)
Lemma later_pattern_overwrites_witness :
  exists regions r,
    apply_patterns patterns (U "中西區0至5毫米 中西區1毫米") [] = Ok regions
    /\ apply_patterns patterns (U "中西區0至5毫米 中西區1毫米") []
       = store_matches []
           (flat_map (fun q => findall q (U "中西區0至5毫米 中西區1毫米"))
                     patterns)
    /\ stores [U "中西區"; U "0"; U "5"] (key [U "中西區"; U "0"; U "5"]) r
    /\ Dict.get regions (key [U "中西區"; U "0"; U "5"]) = Some r.
Proof.
  apply (@later_pattern_overwrites (U "中西區0至5毫米 中西區1毫米")
           [pattern1] pattern2 [pattern3] [] [U "中西區"; U "0"; U "5"] []).
  - reflexivity.
  - vm_compute. reflexivity.
  - intros m' [].
  - intros q m' [<-|[]] Hm'. vm_compute in Hm'. destruct Hm'.
Defined.

End RainfallClaims.

(** ** Warnings: the level and the order of the warning images *)

Module WarningClaims.

Lemma Forall_snoc_inv (A : Type) (P : A -> Prop) l x :
  Forall P (l ++ [x]) -> Forall P l /\ P x.
Proof.
  intros H. apply Forall_app in H as [Hl Hx]. now inversion Hx.
Qed.

Lemma scan_image_inv acc src : scan_inv acc -> scan_inv (scan_image acc src).
Proof.
  destruct acc as [active lvl]. unfold scan_inv, scan_image. simpl.
  intros [Hnone Hwind].
  destruct (contains (U "ts") src); [|destruct (contains (U "rain") src);
    [|destruct (contains (U "wind") src)]]; simpl; split; auto;
    try (now destruct active);
    intros _ H; apply Forall_snoc_inv in H as [_ H]; discriminate H.
Qed.

Lemma scan_images_inv srcs : forall acc,
  scan_inv acc -> scan_inv (fold_left scan_image srcs acc).
Proof.
  induction srcs as [|src srcs IH]; intros acc H; simpl; [exact H|].
  apply IH. now apply scan_image_inv.
Qed.

Lemma existsb_warning w l :
  existsb (warning_eqb w) l = true -> In w l.
Proof.
  induction l as [|x l IH]; simpl; [easy|].
  intros H. apply orb_prop in H as [H|H]; [left|right; auto].
  now destruct w, x.
Qed.

Lemma scan_keywords_inv acc text :
  scan_inv acc -> scan_inv (scan_keywords acc text).
Proof.
  destruct acc as [active lvl]. unfold scan_inv, scan_keywords. simpl.
  intros [Hnone Hwind].
  assert (Hin : forall w l, w <> strong_wind -> In w l ->
                  Forall (eq strong_wind) l -> False).
  { intros w l Hw Hl Hall. rewrite Forall_forall in Hall.
    apply Hw. symmetry. now apply Hall. }
  destruct (contains (U "雷暴警告") text), (contains (U "暴雨警告") text);
    simpl; auto.
  - split.
    + destruct (existsb (warning_eqb heavy_rain)
                  (if existsb (warning_eqb thunderstorm) active then active
                   else active ++ [thunderstorm])) eqn:E.
      * intros H. rewrite H in E. discriminate E.
      * intros H. now destruct (if existsb _ active then _ else _).
    + intros _ H. exfalso.
      destruct (existsb (warning_eqb heavy_rain) _) eqn:E.
      * apply existsb_warning in E. now apply (Hin heavy_rain _) in H.
      * apply Forall_snoc_inv in H as [_ H]. discriminate H.
  - split.
    + destruct (existsb (warning_eqb thunderstorm) active) eqn:E.
      * intros H. rewrite H in E. discriminate E.
      * intros H. now destruct active.
    + intros _ H. exfalso.
      destruct (existsb (warning_eqb thunderstorm) active) eqn:E.
      * apply existsb_warning in E. now apply (Hin thunderstorm _) in H.
      * apply Forall_snoc_inv in H as [_ H]. discriminate H.
  - split.
    + destruct (existsb (warning_eqb heavy_rain) active) eqn:E.
      * intros H. rewrite H in E. discriminate E.
      * intros H. now destruct active.
    + intros _ H. exfalso.
      destruct (existsb (warning_eqb heavy_rain) active) eqn:E.
      * apply existsb_warning in E. now apply (Hin heavy_rain _) in H.
      * apply Forall_snoc_inv in H as [_ H]. discriminate H.
Qed.

(** The parts of the level rule the code keeps: no warning gives [none],
    wind warnings alone give [medium], and either keyword gives [high]. *)
Lemma level_rule_kept now p :
  let ws := parse_warnings now p in
  (active_warnings ws = [] -> warning_level ws = none)
  /\ (active_warnings ws <> [] ->
      Forall (eq strong_wind) (active_warnings ws) ->
      warning_level ws = medium)
  /\ (contains (U "雷暴警告") (lower (get_text p)) = true
      \/ contains (U "暴雨警告") (lower (get_text p)) = true ->
      warning_level ws = high).
Proof.
  unfold parse_warnings.
  set (acc := fold_left scan_image _ _).
  assert (Hacc : scan_inv acc)
    by (apply scan_images_inv; split; [reflexivity|now intros []]).
  pose proof (scan_keywords_inv (lower (get_text p)) Hacc) as Hk.
  destruct (scan_keywords acc (lower (get_text p))) as [active lvl] eqn:E.
  simpl. destruct Hk as [H1 H2]. repeat split; auto.
  revert E. unfold scan_keywords. destruct acc as [a l].
  destruct (contains (U "雷暴警告") (lower (get_text p))),
           (contains (U "暴雨警告") (lower (get_text p)));
    intros [= <- <-] [H|H]; try reflexivity; discriminate H.
Qed.

(** C6.  The level is not the maximum over the active warnings: with the
    thunderstorm image before the wind image and no keyword in the text,
    the active warnings are thunderstorm and strong wind and the level is
    [medium]; with the two images in the other order the same warnings
    give [high]. *)
Theorem level_follows_last_image :
  forall now,
    parse_warnings now (mksoup [] [U "warn_ts.png"; U "warn_wind.png"])
    = mkwarnings now [thunderstorm; strong_wind] medium
    /\ parse_warnings now (mksoup [] [U "warn_wind.png"; U "warn_ts.png"])
       = mkwarnings now [strong_wind; thunderstorm] high.
Proof.
  intros now. split; vm_compute; reflexivity.
Qed.

End WarningClaims.

(** ** The three fetches of a snapshot *)

Module FetchClaims.
Import Rainfall.

(** One fetch: the request goes out, and the facet follows its response. *)
Lemma fetch_with_spec (A : Type) url
      (body : soup -> world -> result A * world) w :
  quiet body ->
  sent (snd (fetch_with url body w)) = sent w ++ [url]
  /\ respond (snd (fetch_with url body w)) = respond w
  /\ match respond w (length (sent w)) url with
     | Fails e => exists t, fst (fetch_with url body w) = Error t e
     | Page p =>
       match fst (body p (snd (http_get url w))) with
       | Ok a => fst (fetch_with url body w) = Data a
       | Raise e => exists t, fst (fetch_with url body w) = Error t e
       end
     end.
Proof.
  intros Hq. unfold fetch_with. cbn [http_get fst snd].
  destruct (respond w (length (sent w)) url) as [p|e]; cbn [now fst snd].
  - set (w1 := mkworld _ _ _ _ _ _ _ _).
    destruct (Hq p w1) as [Hs Hr].
    destruct (body p w1) as [[a|e] w2]; cbn [now fst snd] in *.
    + auto.
    + repeat split; eauto.
  - repeat split; eauto.
Qed.

(** The temperature and humidity texts always convert. *)
Lemma search_groups_sound r : forall s g,
  search_groups r s = Some g ->
  exists s0 rest, sem r s0 [] rest g.
Proof.
  induction s as [|a s IH]; intros g; simpl.
  - destruct (match_here r []) as [[g' rest]|] eqn:E; [|easy].
    intros [= <-]. apply match_here_sound in E. eauto.
  - destruct (match_here r (a :: s)) as [[g' rest]|] eqn:E.
    + intros [= <-]. apply match_here_sound in E. eauto.
    + apply IH.
Qed.

Lemma digits_value_all s : forall acc,
  forallb (in_cls CDigit) s = true -> exists n, digits_value acc s = Some n.
Proof. intros acc H. now apply digits_value_run. Qed.

Lemma split_dot_point xs ys :
  forallb (in_cls CDigit) xs = true ->
  forallb (in_cls CDigit) ys = true ->
  split_dot (xs ++ 46%N :: ys) = (xs, Some ys).
Proof.
  intros Hx Hy. induction xs as [|c xs IH]; simpl; [reflexivity|].
  simpl in Hx. apply andb_prop in Hx as [Hc Hx].
  destruct (c =? 46)%N eqn:E.
  - apply N.eqb_eq in E. subst c. discriminate Hc.
  - now rewrite (IH Hx).
Qed.

Lemma py_float_decimal xs ys :
  xs <> [] ->
  forallb (in_cls CDigit) xs = true ->
  forallb (in_cls CDigit) ys = true ->
  (exists q, py_float (xs ++ ys) = Ok q)
  /\ (exists q, py_float (xs ++ 46%N :: ys) = Ok q).
Proof.
  intros Hne Hx Hy. split.
  - apply py_float_run. split.
    + destruct xs; [easy|discriminate].
    + rewrite forallb_app. now apply andb_true_intro.
  - unfold py_float. rewrite (split_dot_point _ _ Hx Hy).
    destruct (@digits_value_all xs 0%N Hx) as [n Hn].
    destruct (@digits_value_all ys 0%N Hy) as [k Hk].
    rewrite Hn, Hk. destruct xs; [easy|]. destruct ys; eauto.
Qed.

Lemma temperature_converts x g :
  search_groups re_temp x = Some g -> exists q, py_float (group g 1) = Ok q.
Proof.
  intros H. apply search_groups_sound in H as (s0 & rest & Hs).
  unfold re_temp, re_decimal in Hs. cbn [cat sem] in Hs.
  destruct Hs as (s1 & g1 & (g0 & (s2 & g2 & Hd & s3 & g3 & Hp & Hf) & ->) & Hc).
  destruct Hd as (xs & -> & Hne & Hxs & ->).
  destruct Hf as (ys & -> & Hys & ->).
  destruct Hc as [-> ->]. cbn [group Nat.eqb].
  destruct (py_float_decimal ys Hne Hxs Hys) as [H1 H2].
  destruct Hp as [[Hp ->]|[Hp ->]].
  - rewrite Hp. change ([46%N] ++ ys ++ degree_c ++ rest)
      with (46%N :: ys ++ degree_c ++ rest).
    replace (xs ++ 46%N :: ys ++ degree_c ++ rest)
      with ((xs ++ 46%N :: ys) ++ degree_c ++ rest)
      by (now rewrite <- app_assoc).
    now rewrite firstn_captured.
  - rewrite <- Hp.
    replace (xs ++ ys ++ degree_c ++ rest)
      with ((xs ++ ys) ++ degree_c ++ rest) by (now rewrite <- app_assoc).
    now rewrite firstn_captured.
Qed.

(** The digits before the percent sign convert unless they are more than
    [int] takes. *)
Lemma humidity_converts x g :
  search_groups re_humidity x = Some g ->
  (Z.of_nat (length (group g 1)) <= int_max_str_digits)%Z ->
  exists z, py_int (group g 1) = Ok z.
Proof.
  intros H Hlen. apply search_groups_sound in H as (s0 & rest & Hs).
  unfold re_humidity in Hs. cbn [cat sem] in Hs.
  destruct Hs as (s1 & g1 & (g0 & (xs & -> & Hne & Hxs & ->) & ->) & Hc).
  destruct Hc as [-> ->]. cbn [group Nat.eqb] in *.
  rewrite firstn_captured in *. unfold py_int.
  destruct (int_max_str_digits <? Z.of_nat (length xs))%Z eqn:E;
    [apply Z.ltb_lt in E; lia|].
  destruct (@digits_value_all xs 0%N Hxs) as [n Hn].
  destruct xs; [easy|]. rewrite Hn. eauto.
Qed.

(** The body of [fetch_current_weather] reads the clock and then depends
    on the page alone. *)
Lemma parse_weather_page p w :
  fst (parse_weather p w) = weather_data (now_at w (time_calls w)) p.
Proof. reflexivity. Qed.

(** C7.  Whatever the three responses are, a snapshot is assembled from
    three requests, and each facet follows the response to its own
    request alone: a page gives what the body of that fetch reads from
    this page (the weather data, the rainfall report, the warnings), or
    the error marker with the message of the exception that body raised
    on it; a failure gives the error marker with the failure's message.
    In particular a failed warnings request next to a successful rainfall
    request leaves a populated rainfall report and an error marker for
    the warnings. *)
Theorem facets_are_independent :
  forall w,
    let n := length (sent w) in
    let d := fst (fetch_all_data w) in
    sent (snd (fetch_all_data w))
    = sent w ++ [index_url; rainfall_url; index_url]
    /\ match respond w n index_url with
       | Page p =>
         exists t,
           match weather_data t p with
           | Ok x => current_weather d = Data x
           | Raise e => exists t', current_weather d = Error t' e
           end
       | Fails e => exists t, current_weather d = Error t e
       end
    /\ match respond w (n + 1) rainfall_url with
       | Page p =>
         exists t rep, rainfall_data d = Data rep
                       /\ parse_rainfall t (get_text p) = Ok rep
       | Fails e => exists t, rainfall_data d = Error t e
       end
    /\ match respond w (n + 2) index_url with
       | Page p => exists t, weather_warnings d = Data (parse_warnings t p)
       | Fails e => exists t, weather_warnings d = Error t e
       end.
Proof.
  intros w n d. subst d. unfold fetch_all_data.
  destruct (now w) as [t0 w0] eqn:E0.
  assert (Hs0 : sent w0 = sent w) by (now inversion E0).
  assert (Hr0 : respond w0 = respond w) by (now inversion E0).
  assert (Hq1 : quiet parse_weather) by (intros p x; now split).
  destruct (fetch_with_spec index_url w0 Hq1) as (Hs1 & Hr1 & Hf1).
  unfold fetch_current_weather.
  destruct (fetch_with index_url parse_weather w0) as [cw w1].
  cbn [fst snd] in *.
  assert (Hq2 : quiet (fun p x => let (t, x) := now x in
                                  (parse_rainfall t (get_text p), x)))
    by (intros p x; now split).
  destruct (fetch_with_spec rainfall_url w1 Hq2) as (Hs2 & Hr2 & Hf2).
  unfold fetch_rainfall_data.
  destruct (fetch_with rainfall_url _ w1) as [rd w2].
  cbn [fst snd] in *.
  assert (Hq3 : quiet (fun p x => let (t, x) := now x in
                                  (Ok (parse_warnings t p), x)))
    by (intros p x; now split).
  destruct (fetch_with_spec index_url w2 Hq3) as (Hs3 & Hr3 & Hf3).
  unfold fetch_weather_warnings.
  destruct (fetch_with index_url _ w2) as [ww w3].
  cbn [fst snd current_weather rainfall_data weather_warnings] in *.
  assert (Hn1 : length (sent w1) = (n + 1)%nat)
    by (rewrite Hs1, length_app, Hs0; reflexivity).
  assert (Hn2 : length (sent w2) = (n + 2)%nat)
    by (rewrite Hs2, length_app, Hn1; simpl; lia).
  rewrite Hs0, Hr0 in Hf1. rewrite Hn1, Hr1, Hr0 in Hf2.
  rewrite Hn2, Hr2, Hr1, Hr0 in Hf3.
  repeat split.
  - rewrite Hs3, Hs2, Hs1, Hs0, <- !app_assoc. reflexivity.
  - fold n in Hf1. destruct (respond w n index_url) as [p|e]; [|exact Hf1].
    rewrite parse_weather_page in Hf1. eexists. exact Hf1.
  - destruct (respond w (n + 1) rainfall_url) as [p|e]; [|exact Hf2].
    cbn [now http_get fst snd] in Hf2.
    match type of Hf2 with
    | match parse_rainfall ?t ?x with _ => _ end =>
      destruct (parse_rainfall_spec t x) as (regs & _ & _ & Hp);
      rewrite Hp in Hf2; exists t; eexists; split; [exact Hf2|exact Hp]
    end.
  - destruct (respond w (n + 2) index_url) as [p|e]; [|exact Hf3].
    cbn [now http_get fst snd] in Hf3. eauto.
Qed.

End FetchClaims.

(** ** Datetimes: order, and the text written and read back *)

Module DatetimeFacts.

Lemma lex_compare_opp a : forall b,
  lex_compare b a = CompOpp (lex_compare a b).
Proof.
  induction a as [|x a IH]; intros [|y b]; simpl; try reflexivity.
  rewrite (Z.compare_antisym x y).
  destruct (x ?= y)%Z; simpl; auto.
Qed.

(** An entry newer than the cutoff is not older than it. *)
Lemma newer_not_older a b : dt_gtb a b = true -> ~ dt_lt a b.
Proof.
  unfold dt_gtb, dt_lt. intros H E. rewrite E in H. discriminate H.
Qed.

Lemma older_not_newer a b : dt_lt a b -> dt_gtb a b = false.
Proof. unfold dt_gtb, dt_lt. now intros ->. Qed.

Lemma parse_digits_split a : forall b acc s,
  parse_digits (a + b) acc s
  = (r <- parse_digits a acc s ;; parse_digits b (fst r) (snd r)).
Proof.
  induction a as [|a IH]; intros b acc s; simpl; [reflexivity|].
  destruct s as [|c s]; [reflexivity|].
  destruct ((48 <=? c) && (c <=? 57))%N; [apply IH|reflexivity].
Qed.

Lemma pad_succ w n :
  pad (S w) n = pad w (n / 10) ++ [Z.to_N (48 + n mod 10)].
Proof. reflexivity. Qed.

Lemma length_pad w : forall n, length (pad w n) = w.
Proof.
  unfold pad. intros n. rewrite length_rev. revert n.
  induction w as [|w IH]; intros n; simpl; [reflexivity|]. now rewrite IH.
Qed.

(** Reading back [w] padded digits gives the number they were written
    from, below [10^w]. *)
Lemma parse_digits_pad w : forall n acc rest,
  parse_digits w acc (pad w n ++ rest)
  = Ok ((acc * 10 ^ Z.of_nat w + n mod 10 ^ Z.of_nat w)%Z, rest).
Proof.
  induction w as [|w IH]; intros n acc rest.
  - simpl. rewrite Z.mod_1_r. do 2 f_equal. lia.
  - replace (S w) with (w + 1)%nat at 1 by lia.
    rewrite parse_digits_split, pad_succ, <- app_assoc, IH.
    cbn [bind fst snd app parse_digits].
    pose proof (Z.mod_pos_bound n 10 ltac:(lia)) as Hd.
    assert (Hc : ((48 <=? Z.to_N (48 + n mod 10))
                  && (Z.to_N (48 + n mod 10) <=? 57))%N = true).
    { apply andb_true_intro. split; apply N.leb_le; lia. }
    rewrite Hc. do 2 f_equal.
    rewrite Nat2Z.inj_succ, Z.pow_succ_r by lia.
    assert (Hp : (0 < 10 ^ Z.of_nat w)%Z) by (apply Z.pow_pos_nonneg; lia).
    rewrite (Z.rem_mul_r n 10 (10 ^ Z.of_nat w)) by lia.
    replace (Z.of_N (Z.to_N (48 + n mod 10) - 48)) with (n mod 10)%Z by lia.
    ring.
Qed.

Lemma parse_field w n rest :
  (0 <= n < 10 ^ Z.of_nat w)%Z ->
  parse_digits w 0 (pad w n ++ rest) = Ok (n, rest).
Proof.
  intros H. rewrite parse_digits_pad, Z.mod_small by exact H.
  reflexivity.
Qed.

(** The text [isoformat] writes is read back by [fromisoformat] as the
    same datetime. *)
Lemma isoformat_roundtrip d : valid d = true -> fromisoformat (isoformat d) = Ok d.
Proof.
  intros Hv. pose proof Hv as Hv'. unfold valid in Hv'.
  repeat (apply andb_prop in Hv' as [Hv' ?]).
  repeat match goal with
         | H : (_ <=? _)%Z = true |- _ => apply Z.leb_le in H
         | H : (_ <? _)%Z = true |- _ => apply Z.ltb_lt in H
         end.
  assert (Hdm : (days_in_month (year d) (month d) <= 31)%Z).
  { unfold days_in_month.
    repeat match goal with |- context [if ?b then _ else _] => destruct b end;
      lia. }
  unfold isoformat, fromisoformat.
  change (U "-") with [45%N]. change (U "T") with [84%N].
  change (U ":") with [58%N]. change (U ".") with [46%N].
  rewrite (@parse_field 4) by (simpl; lia). cbn [bind fst snd app expect N.eqb Pos.eqb].
  rewrite (@parse_field 2) by (simpl; lia). cbn [bind fst snd app expect N.eqb Pos.eqb].
  rewrite (@parse_field 2) by (simpl; lia). cbn [bind fst snd app expect N.eqb Pos.eqb].
  rewrite (@parse_field 2) by (simpl; lia). cbn [bind fst snd app expect N.eqb Pos.eqb].
  rewrite (@parse_field 2) by (simpl; lia). cbn [bind fst snd app expect N.eqb Pos.eqb].
  destruct (microsecond d =? 0)%Z eqn:Eus.
  - apply Z.eqb_eq in Eus.
    rewrite (@parse_field 2) by (simpl; lia). cbn [bind fst snd].
    rewrite <- Eus. destruct d; simpl in *. now rewrite Hv.
  - rewrite (@parse_field 2) by (simpl; lia).
    cbn [bind fst snd app expect N.eqb Pos.eqb].
    rewrite <- (app_nil_r (pad 6 (microsecond d))).
    rewrite (@parse_field 6) by (simpl; lia). cbn [bind fst snd].
    destruct d; simpl in *. now rewrite Hv.
Qed.

End DatetimeFacts.
Import DatetimeFacts.

(** ** The history: pruning, and the file written and read back *)

Module HistoryFacts.

Lemma fresh_not_stale c x : fresh c x -> ~ stale c x.
Proof.
  intros (t & Ht & Hg) (t' & Ht' & Hl). rewrite Ht in Ht'.
  injection Ht' as <-. now apply (newer_not_older Hg).
Qed.

Lemma item_time_entry x d t :
  item_time x = Ok (d, t) -> x = VDict d /\ entry_time d = Some t.
Proof.
  unfold item_time, entry_time. destruct x; try discriminate.
  destruct (Dict.get l k_timestamp) as [[]|] eqn:G; try discriminate.
  destruct (fromisoformat s) eqn:F; simpl; [|discriminate].
  intros [= <- <-]. now rewrite G, F.
Qed.

Lemma load_loop_fresh c data : forall acc l,
  load_loop c data acc = Ok l -> Forall (fresh c) acc -> Forall (fresh c) l.
Proof.
  induction data as [|x data IH]; intros acc l; simpl.
  - now intros [= <-].
  - destruct (item_time x) as [[d t]|e] eqn:E; simpl; [|discriminate].
    apply item_time_entry in E as [_ Ht].
    intros H Hacc. apply (IH _ _ H).
    destruct (dt_gtb t c) eqn:G; [|exact Hacc].
    apply Forall_app. split; [exact Hacc|].
    constructor; [|constructor]. now exists t.
Qed.

(** Loading keeps only items newer than the cutoff of that call. *)
Lemma load_prunes w :
  match minus_24h (now_at w (time_calls w)) with
  | Some c => Forall (fresh c) (fst (load_historical_data w))
  | None => fst (load_historical_data w) = []
  end.
Proof.
  unfold load_historical_data, minus_24h_r.
  destruct (historical_file w) as [| |data]; cbn [now fst snd].
  - now destruct (minus_24h _).
  - now destruct (minus_24h _).
  - destruct (minus_24h (now_at w (time_calls w))) as [c|]; simpl;
      [|reflexivity].
    destruct (iterate data) as [items|e]; simpl; [|constructor].
    destruct (load_loop c items []) as [l|e] eqn:E; simpl; [|constructor].
    apply (@load_loop_fresh c items [] l E). constructor.
Qed.

Lemma keep_recent_datetimes c l :
  Forall has_datetime l ->
  exists kept, keep_recent c l = Ok kept
               /\ Forall (fresh c) kept /\ Forall has_datetime kept.
Proof.
  induction 1 as [|x l (t & Ht) _ (kept & Hk & Hf & Hd)]; simpl.
  - exists []. repeat split; constructor.
  - unfold newer_than. rewrite Ht, Hk. simpl.
    destruct (dt_gtb t c) eqn:G.
    + exists (x :: kept). repeat split; constructor; auto.
      * exists t. unfold entry_time. now rewrite Ht.
      * now exists t.
    + exists kept. auto.
Qed.

(** Appending prunes as long as every timestamp held is a datetime. *)
Lemma append_prunes u w :
  Forall has_datetime (historical_data u) ->
  let w1 := snd (fetch_all_data w) in
  match minus_24h (now_at w1 (time_calls w1)) with
  | Some c => Forall (fresh c) (historical_data (fst (fetch_and_store_data u w)))
  | None => True
  end.
Proof.
  intros Hd. unfold fetch_and_store_data, minus_24h_r.
  destruct (fetch_all_data w) as [cd w1]. cbn [now fst snd].
  destruct (minus_24h (now_at w1 (time_calls w1))) as [c|]; [|exact I].
  cbn [bind set_historical_data historical_data].
  destruct (@keep_recent_datetimes c
              (historical_data u
               ++ [[(k_timestamp, VDatetime (fetch_time cd));
                    (k_data, py_of_all_data cd)]]))
    as (kept & Hk & Hf & _).
  { apply Forall_app. split; [exact Hd|].
    constructor; [|constructor]. now exists (fetch_time cd). }
  rewrite Hk. exact Hf.
Qed.

(** What [json.dump] is given never holds a datetime. *)
Lemma convert_json_ok : forall v, json_ok (_convert_datetimes_to_strings v) = true.
Proof.
  fix IH 1. intros [| | | | | |l|l]; simpl; try reflexivity.
  - induction l as [|a l IHl]; simpl; [reflexivity|].
    now rewrite IH, IHl.
  - induction l as [|[k a] l IHl]; simpl; [reflexivity|].
    now rewrite IH, IHl.
Qed.

Lemma load_loop_serialized c l : forall acc,
  Forall (appended c) l ->
  load_loop c (map (fun x => VDict (serializable x)) l) acc
  = Ok (acc ++ map serializable l).
Proof.
  induction l as [|x l IH]; intros acc Hl; simpl.
  - now rewrite app_nil_r.
  - inversion Hl as [|? ? (t & v & -> & Hv & Hg) Hl']; subst.
    change (serializable [(k_timestamp, VDatetime t); (k_data, v)])
      with [(k_timestamp, VStr (isoformat t));
            (k_data, _convert_datetimes_to_strings v)].
    unfold item_time.
    change (Dict.get [(k_timestamp, VStr (isoformat t));
                      (k_data, _convert_datetimes_to_strings v)] k_timestamp)
      with (Some (VStr (isoformat t))).
    cbv beta iota. rewrite (isoformat_roundtrip _ Hv). cbn [bind fst snd].
    rewrite Hg.
    rewrite (IH _ Hl'), <- app_assoc. reflexivity.
Qed.

Lemma serialized_json_ok c l :
  Forall (appended c) l ->
  forallb json_ok (map (fun x => VDict (serializable x)) l) = true.
Proof.
  induction 1 as [|x l (t & v & -> & _) _ IH]; simpl; [reflexivity|].
  change (serializable [(k_timestamp, VDatetime t); (k_data, v)])
    with [(k_timestamp, VStr (isoformat t));
          (k_data, _convert_datetimes_to_strings v)].
  rewrite convert_json_ok. exact IH.
Qed.

(** What does come back from the file: the items in their written form,
    timestamps as text, in the same order. *)
Lemma save_then_load u w c :
  disk_ok w = true ->
  minus_24h (now_at w (time_calls w)) = Some c ->
  Forall (appended c) (historical_data u) ->
  fst (load_historical_data (save_historical_data u w))
  = map serializable (historical_data u).
Proof.
  intros Hdisk Hc Hl. unfold save_historical_data. rewrite Hdisk.
  cbn [json_ok]. rewrite (serialized_json_ok Hl).
  unfold load_historical_data, set_historical_file, minus_24h_r.
  cbn [historical_file now fst snd now_at time_calls]. rewrite Hc.
  cbn [bind iterate]. now rewrite (load_loop_serialized [] Hl).
Qed.

End HistoryFacts.
Import HistoryFacts.

Module HistoryClaims.

(** C1.  An append can leave an entry older than its cutoff.  The program
    is restarted on 2 January at 11:00 and loads the entry of 1 January
    12:00, which is inside the window then; the append of 5 January 12:00
    computes the cutoff 4 January 12:00, yet the loaded entry is still in
    the store afterwards, next to the new one. *)
Theorem stale_entry_survives_append :
  let s := restarted (mkdt 2024 1 2 11 0 0 0) (mkdt 2024 1 5 12 0 0 0) in
  let u' := fst (fetch_and_store_data (fst s) (snd s)) in
  let cutoff := mkdt 2024 1 4 12 0 0 0 in
  minus_24h (mkdt 2024 1 5 12 0 0 0) = Some cutoff
  /\ length (historical_data (fst s)) = 1%nat
  /\ length (historical_data u') = 2%nat
  /\ exists x, In x (historical_data (fst s)) /\ In x (historical_data u')
               /\ Dict.get x k_timestamp = Some (VStr (U "2024-01-01T12:00:00"))
               /\ entry_time x = Some noon_jan1
               /\ stale cutoff x.
Proof.
  intros s u' cutoff.
  split; [reflexivity|].
  split; [vm_compute; reflexivity|].
  split; [vm_compute; reflexivity|].
  exists (hd [] (historical_data (fst s))).
  assert (Ht : entry_time (hd [] (historical_data (fst s))) = Some noon_jan1)
    by (vm_compute; reflexivity).
  split; [apply (@nth_error_In _ _ 0%nat); vm_compute; reflexivity|].
  split; [apply (@nth_error_In _ _ 0%nat); vm_compute; reflexivity|].
  split; [vm_compute; reflexivity|].
  split; [exact Ht|].
  exists noon_jan1. split; [exact Ht|reflexivity].
Qed.

(** C8.  Saving and loading does not give back the same entries.  The
    history of the first run holds one entry, inside the window, whose
    timestamp is a datetime; what is loaded from the file just saved is
    the written form of that entry, its timestamp the text
    "2024-01-01T12:00:00": the same moment, but not the same entry. *)
Theorem persist_then_load_changes_entries :
  let u := fst first_run in
  let w := snd first_run in
  let h := fst (load_historical_data (save_historical_data u w)) in
  Forall has_datetime (historical_data u)
  /\ Forall (fresh (mkdt 2023 12 31 12 0 0 0)) (historical_data u)
  /\ h <> historical_data u
  /\ h = map serializable (historical_data u)
  /\ map entry_time h = map entry_time (historical_data u)
  /\ map (fun x => Dict.get x k_timestamp) h
     = [Some (VStr (U "2024-01-01T12:00:00"))]
  /\ map (fun x => Dict.get x k_timestamp) (historical_data u)
     = [Some (VDatetime noon_jan1)].
Proof.
  intros u w h.
  assert (Hu : historical_data u = [hd [] (historical_data u)])
    by (vm_compute; reflexivity).
  assert (Hx : Dict.get (hd [] (historical_data u)) k_timestamp
               = Some (VDatetime noon_jan1)) by (vm_compute; reflexivity).
  assert (Ht : map (fun x => Dict.get x k_timestamp) h
               = [Some (VStr (U "2024-01-01T12:00:00"))])
    by (vm_compute; reflexivity).
  assert (Ht' : map (fun x => Dict.get x k_timestamp) (historical_data u)
                = [Some (VDatetime noon_jan1)]) by (vm_compute; reflexivity).
  split; [rewrite Hu; constructor; [now exists noon_jan1|constructor]|].
  split.
  { rewrite Hu. constructor; [|constructor]. exists noon_jan1.
    unfold entry_time. rewrite Hx. split; reflexivity. }
  split; [intros H; rewrite H, Ht' in Ht; discriminate Ht|].
  split; [vm_compute; reflexivity|].
  split; [vm_compute; reflexivity|].
  split; [exact Ht|exact Ht'].
Qed.

End HistoryClaims.

(** ** Starting the background updates *)

Module SchedulerClaims.
Import Rainfall.

Lemma same_schedule_refl w : same_schedule w w.
Proof. now split. Qed.

Lemma same_schedule_trans w1 w2 w3 :
  same_schedule w1 w2 -> same_schedule w2 w3 -> same_schedule w1 w3.
Proof. intros [H1 H2] [H3 H4]. split; congruence. Qed.

Lemma fetch_with_schedule (A : Type) url
      (body : soup -> world -> result A * world) w :
  (forall p x, same_schedule x (snd (body p x))) ->
  same_schedule w (snd (fetch_with url body w)).
Proof.
  intros Hb. unfold fetch_with. cbn [http_get].
  destruct (respond w (length (sent w)) url) as [p|e];
    [|now split].
  set (w1 := mkworld _ _ _ _ _ _ _ _).
  pose proof (Hb p w1) as H.
  destruct (body p w1) as [[a|e] w2]; cbn [now fst snd] in *; exact H.
Qed.

Lemma fetch_all_data_schedule w : same_schedule w (snd (fetch_all_data w)).
Proof.
  unfold fetch_all_data.
  destruct (now w) as [t w0] eqn:E0.
  assert (H0 : same_schedule w w0) by (inversion E0; now split).
  pose proof (@fetch_with_schedule _ index_url parse_weather w0
                (fun p x => same_schedule_refl _)) as H1.
  unfold fetch_current_weather.
  destruct (fetch_with index_url parse_weather w0) as [cw w1].
  pose proof (@fetch_with_schedule _ rainfall_url
                (fun p x => let (t, x) := now x in
                            (parse_rainfall t (get_text p), x)) w1
                (fun p x => same_schedule_refl _)) as H2.
  unfold fetch_rainfall_data.
  destruct (fetch_with rainfall_url _ w1) as [rd w2].
  pose proof (@fetch_with_schedule _ index_url
                (fun p x => let (t, x) := now x in
                            (Ok (parse_warnings t p), x)) w2
                (fun p x => same_schedule_refl _)) as H3.
  unfold fetch_weather_warnings.
  destruct (fetch_with index_url _ w2) as [ww w3].
  cbn [fst snd] in *.
  eauto using same_schedule_trans.
Qed.

Lemma save_schedule u w : same_schedule w (save_historical_data u w).
Proof.
  unfold save_historical_data. destruct (disk_ok w); now split.
Qed.

(** One pipeline execution leaves the running flag, the interval, the
    scheduler's jobs and the threads alone. *)
Lemma fetch_and_store_data_frame u w :
  is_running (fst (fetch_and_store_data u w)) = is_running u
  /\ update_interval (fst (fetch_and_store_data u w)) = update_interval u
  /\ update_thread (fst (fetch_and_store_data u w)) = update_thread u
  /\ same_schedule w (snd (fetch_and_store_data u w)).
Proof.
  unfold fetch_and_store_data.
  pose proof (fetch_all_data_schedule w) as H.
  destruct (fetch_all_data w) as [cd w1]. cbn [now fst snd] in *.
  destruct (_ <- minus_24h_r _ ;; _) as [kept|e]; cbn [fst snd].
  - repeat split; try reflexivity;
      unfold create_latest_visualizations, save_historical_data;
      destruct (disk_ok _); cbn; apply H.
  - repeat split; try reflexivity; apply H.
Qed.

Lemma start_when_stopped u w :
  is_running u = false ->
  is_running (fst (start_background_updates u w)) = true
  /\ jobs (snd (start_background_updates u w)) = jobs w ++ [update_interval u]
  /\ threads_started (snd (start_background_updates u w))
     = S (threads_started w)
  /\ update_thread (fst (start_background_updates u w))
     = Some (threads_started w).
Proof.
  intros Hr. unfold start_background_updates. rewrite Hr.
  cbn [update_interval historical_data update_thread].
  set (u1 := mkupdater _ _ true _).
  set (w1 := schedule_every _ w).
  destruct (fetch_and_store_data_frame u1 w1) as (H1 & H2 & H3 & H4 & H5).
  destruct (fetch_and_store_data u1 w1) as [u2 w2].
  cbn [fst snd thread_start is_running update_thread jobs threads_started] in *.
  subst u1 w1. unfold schedule_every in *.
  cbn [jobs threads_started is_running update_interval update_thread] in *.
  repeat split; congruence.
Qed.

(** C10.  A call of [start_background_updates] on a running updater
    changes nothing: no clock reading, no request, no job, no thread, no
    entry.  Hence any number of calls in a row amounts to the first one,
    which on a stopped updater registers one job and starts one thread. *)
Theorem repeated_start_is_single_start :
  (forall u w, is_running u = true -> start_background_updates u w = (u, w))
  /\ (forall u w n, Nat.iter (S n) start (u, w) = start (u, w))
  /\ (forall u w n, is_running u = false ->
        let s := Nat.iter (S n) start (u, w) in
        is_running (fst s) = true
        /\ jobs (snd s) = jobs w ++ [update_interval u]
        /\ threads_started (snd s) = S (threads_started w)).
Proof.
  assert (Hnoop : forall u w, is_running u = true ->
                              start_background_updates u w = (u, w)).
  { intros u w H. unfold start_background_updates. now rewrite H. }
  assert (Hrun : forall u w, is_running (fst (start_background_updates u w))
                             = true).
  { intros u w. destruct (is_running u) eqn:E.
    - now rewrite (Hnoop _ _ E).
    - now apply start_when_stopped. }
  assert (Hiter : forall u w n, Nat.iter (S n) start (u, w) = start (u, w)).
  { intros u w n. induction n as [|n IH]; [reflexivity|].
    change (Nat.iter (S (S n)) start (u, w))
      with (start (Nat.iter (S n) start (u, w))).
    rewrite IH. unfold start at 1.
    rewrite Hnoop; [now destruct (start (u, w))|apply Hrun]. }
  repeat split; auto.
  - rewrite Hiter. apply Hrun.
  - rewrite Hiter. now apply start_when_stopped.
  - rewrite Hiter. now apply start_when_stopped.
Qed.

(** A running updater with one thread, in a world with one job. *)
Lemma repeated_start_is_single_start_witness :
  start_background_updates
    (mkupdater 5 [] true (Some 0%nat))
    (mkworld (fun _ => noon_jan1) offline
             7 [] true Missing [5%Z] 1)
  = (mkupdater 5 [] true (Some 0%nat),
     mkworld (fun _ => noon_jan1) offline
             7 [] true Missing [5%Z] 1).
Proof.
  apply (proj1 repeated_start_is_single_start). reflexivity.
Defined.

End SchedulerClaims.

(** * Further properties of the code *)

(** ** The history: what loading, appending and saving keep *)

Module HistoryProps.

Lemma item_time_text x d t :
  item_time x = Ok (d, t) -> has_text d.
Proof.
  unfold item_time, has_text. destruct x; try discriminate.
  destruct (Dict.get l k_timestamp) as [[]|] eqn:G; try discriminate.
  destruct (fromisoformat s); simpl; [|discriminate].
  intros [= <- _]. eauto.
Qed.

Lemma load_loop_text c data : forall acc l,
  load_loop c data acc = Ok l -> Forall has_text acc -> Forall has_text l.
Proof.
  induction data as [|x data IH]; intros acc l; simpl.
  - now intros [= <-].
  - destruct (item_time x) as [[d t]|e] eqn:E; simpl; [|discriminate].
    apply item_time_text in E.
    intros H Hacc. apply (IH _ _ H).
    destruct (dt_gtb t c); [|exact Hacc].
    apply Forall_app. split; [exact Hacc|]. now repeat constructor.
Qed.

Lemma load_loop_raises c data : forall acc x e,
  In x data -> item_time x = Raise e ->
  exists e', load_loop c data acc = Raise e'.
Proof.
  induction data as [|y data IH]; intros acc x e [].
  - subst y. intros H. simpl. rewrite H. simpl. eauto.
  - intros Hx. simpl. destruct (item_time y) as [dt|e0]; simpl; eauto.
Qed.

(** Whatever is loaded has its timestamp as text. *)
Lemma load_text w : Forall has_text (fst (load_historical_data w)).
Proof.
  unfold load_historical_data.
  destruct (historical_file w) as [| |data]; try constructor.
  cbn [now fst snd].
  destruct (minus_24h_r _) as [c|e]; simpl; [|constructor].
  destruct (iterate data) as [items|e]; simpl; [|constructor].
  destruct (load_loop c items []) as [l|e] eqn:E; simpl; [|constructor].
  apply (@load_loop_text c items [] l E). constructor.
Qed.

(** X1.  From a file whose timestamps are in the layout the program
    writes, loading keeps only items whose decoded timestamp is newer
    than the cutoff of the call, and keeps their timestamps as text;
    without a cutoff (the clock reads a moment in the first day of year
    1) nothing is loaded. *)
Theorem load_keeps_fresh_text_items :
  forall w,
    file_program_written (historical_file w) ->
    Forall has_text (fst (load_historical_data w))
    /\ match minus_24h (now_at w (time_calls w)) with
       | Some c => Forall (fresh c) (fst (load_historical_data w))
       | None => fst (load_historical_data w) = []
       end.
Proof.
  intros w _. split; [apply load_text|apply load_prunes].
Qed.

(** A file with one item of an hour ago. *)
Lemma load_keeps_fresh_text_items_witness :
  let w := mkworld (fun _ => noon_jan1) offline 0 [] true
             (Document (VList [ VDict [(k_timestamp,
                                        VStr (U "2024-01-01T11:00:00"));
                                       (k_data, VNone)] ]))
             [] 0 in
  Forall has_text (fst (load_historical_data w))
  /\ Forall (fresh (mkdt 2023 12 31 12 0 0 0)) (fst (load_historical_data w)).
Proof.
  intros w. apply (load_keeps_fresh_text_items w).
  constructor; [|constructor]. right.
  eexists _, _. split; [reflexivity|]. split; [reflexivity|].
  exists (mkdt 2024 1 1 11 0 0 0). split; reflexivity.
Defined.

Lemma malformed_raises x : malformed x -> exists e, item_time x = Raise e.
Proof.
  unfold malformed, item_time. destruct x; eauto.
  destruct (Dict.get l k_timestamp) as [[]|]; eauto. easy.
Qed.

(** X2.  A missing or unreadable file gives the empty history without a
    reading of the clock, and one item that is not a dictionary, has no
    timestamp or has one that is not text makes the whole document count
    for nothing, whatever the other items are. *)
Theorem load_all_or_nothing :
  forall w,
    (historical_file w = Missing \/ historical_file w = Unparseable ->
     load_historical_data w = ([], w))
    /\ (forall l x,
          historical_file w = Document (VList l) ->
          In x l -> malformed x ->
          fst (load_historical_data w) = []).
Proof.
  intros w. split.
  - unfold load_historical_data. now intros [-> | ->].
  - intros l x Hf Hx Hm. destruct (malformed_raises x Hm) as [e He].
    unfold load_historical_data. rewrite Hf.
    cbn [now fst snd]. destruct (minus_24h_r _) as [c|e0]; simpl; [|reflexivity].
    destruct (@load_loop_raises c l [] x e Hx He) as [e' ->]. reflexivity.
Qed.

(** A document whose second item has no timestamp: nothing is loaded. *)
Lemma load_all_or_nothing_witness :
  fst (load_historical_data
         (mkworld (fun _ => noon_jan1) offline 0 [] true
            (Document (VList [ VDict [(k_timestamp,
                                       VStr (U "2024-01-01T11:00:00"))];
                               VDict [(k_data, VNone)] ]))
            [] 0))
  = [].
Proof.
  apply (proj2 (load_all_or_nothing _)
               [ VDict [(k_timestamp, VStr (U "2024-01-01T11:00:00"))];
                 VDict [(k_data, VNone)] ]
               (VDict [(k_data, VNone)])).
  - reflexivity.
  - right. left. reflexivity.
  - exact I.
Defined.

Lemma newer_than_datetime c x :
  has_datetime x -> newer_than c x = Ok (is_fresh c x).
Proof. intros [t Ht]. unfold newer_than, is_fresh. now rewrite Ht. Qed.

Lemma keep_recent_filter c l :
  Forall has_datetime l -> keep_recent c l = Ok (filter (is_fresh c) l).
Proof.
  induction 1 as [|x l Hx _ IH]; simpl; [reflexivity|].
  rewrite (newer_than_datetime c Hx), IH. reflexivity.
Qed.

Lemma new_item_datetime l cd :
  Forall has_datetime l -> Forall has_datetime (l ++ [new_item cd]).
Proof.
  intros Hd. apply Forall_app. split; [exact Hd|].
  constructor; [|constructor]. now exists (fetch_time cd).
Qed.

Lemma append_filter u w :
  Forall has_datetime (historical_data u) ->
  let current_data := fst (fetch_all_data w) in
  let w1 := snd (fetch_all_data w) in
  forall c, minus_24h (now_at w1 (time_calls w1)) = Some c ->
    historical_data (fst (fetch_and_store_data u w))
    = filter (is_fresh c) (historical_data u ++ [new_item current_data]).
Proof.
  intros Hd current_data w1 c Hc. subst current_data w1.
  unfold fetch_and_store_data, minus_24h_r.
  destruct (fetch_all_data w) as [cd w1]. cbn [now fst snd] in *.
  rewrite Hc. cbn [bind set_historical_data historical_data].
  match goal with
  | |- context [keep_recent c ?l] =>
    change l with (historical_data u ++ [new_item cd])
  end.
  rewrite (keep_recent_filter c (@new_item_datetime (historical_data u) cd Hd)).
  reflexivity.
Qed.

(** X3.  On a history whose timestamps are all datetimes, an append keeps
    exactly the items newer than its cutoff, the new one included, in
    their order. *)
Theorem append_keeps_exactly_the_fresh u w :
  Forall has_datetime (historical_data u) ->
  let current_data := fst (fetch_all_data w) in
  let w1 := snd (fetch_all_data w) in
  forall c, minus_24h (now_at w1 (time_calls w1)) = Some c ->
    historical_data (fst (fetch_and_store_data u w))
    = filter (is_fresh c) (historical_data u ++ [new_item current_data])
    /\ Forall has_datetime (historical_data (fst (fetch_and_store_data u w))).
Proof.
  intros Hd current_data w1 c Hc. subst current_data w1.
  rewrite (@append_filter u w Hd c Hc). split; [reflexivity|].
  apply Forall_forall. intros x Hx. apply filter_In in Hx as [Hx _].
  pose proof (@new_item_datetime (historical_data u)
                (fst (fetch_all_data w)) Hd) as Hall.
  rewrite Forall_forall in Hall. now apply Hall.
Qed.

(** The first append of a program started without a file. *)
Lemma append_keeps_exactly_the_fresh_witness :
  historical_data (fst first_run)
  = filter (is_fresh (mkdt 2023 12 31 12 0 0 0))
      ([] ++ [new_item (fst (fetch_all_data
                (mkworld (fun _ => noon_jan1) offline 0 [] true Missing [] 0)))])
  /\ Forall has_datetime (historical_data (fst first_run)).
Proof.
  apply (@append_keeps_exactly_the_fresh
           (mkupdater 5 [] false None)
           (mkworld (fun _ => noon_jan1) offline 0 [] true Missing [] 0)).
  - constructor.
  - reflexivity.
Defined.

Lemma fetch_with_file (A : Type) url
      (body : soup -> world -> result A * world) w :
  (forall p x, historical_file (snd (body p x)) = historical_file x) ->
  historical_file (snd (fetch_with url body w)) = historical_file w.
Proof.
  intros Hb. unfold fetch_with. cbn [http_get].
  destruct (respond w (length (sent w)) url) as [p|e]; [|reflexivity].
  set (w1 := mkworld _ _ _ _ _ _ _ _).
  pose proof (Hb p w1) as H.
  destruct (body p w1) as [[a|e] w2]; cbn [now fst snd] in *; exact H.
Qed.

(** Fetching leaves the history file alone. *)
Lemma fetch_all_data_file w :
  historical_file (snd (fetch_all_data w)) = historical_file w.
Proof.
  unfold fetch_all_data.
  destruct (now w) as [t w0] eqn:E0.
  assert (H0 : historical_file w0 = historical_file w) by (now inversion E0).
  pose proof (@fetch_with_file _ index_url parse_weather w0
                (fun p x => eq_refl)) as H1.
  unfold fetch_current_weather.
  destruct (fetch_with index_url parse_weather w0) as [cw w1].
  pose proof (@fetch_with_file _ rainfall_url
                (fun p x => let (t, x) := now x in
                            (Rainfall.parse_rainfall t (get_text p), x)) w1
                (fun p x => eq_refl)) as H2.
  unfold fetch_rainfall_data.
  destruct (fetch_with rainfall_url _ w1) as [rd w2].
  pose proof (@fetch_with_file _ index_url
                (fun p x => let (t, x) := now x in
                            (Ok (parse_warnings t p), x)) w2
                (fun p x => eq_refl)) as H3.
  unfold fetch_weather_warnings.
  destruct (fetch_with index_url _ w2) as [ww w3].
  cbn [fst snd] in *. congruence.
Qed.

Lemma keep_recent_raises c l : forall x,
  In x l -> has_text x -> exists e, keep_recent c l = Raise e.
Proof.
  induction l as [|y l IH]; intros x []; intros Hx; simpl.
  - subst y. destruct Hx as [s Hs]. unfold newer_than. rewrite Hs.
    simpl. eauto.
  - destruct (newer_than c y) as [b|e]; simpl; [|eauto].
    destruct (IH x H Hx) as [e ->]. simpl. eauto.
Qed.

(** X4.  Once the history holds an item whose timestamp is text, as every
    loaded item is, an append adds the snapshot and does nothing else:
    nothing is pruned, and the file stays as it was. *)
Theorem append_after_load_only_grows u w x :
  In x (historical_data u) -> has_text x ->
  historical_data (fst (fetch_and_store_data u w))
  = historical_data u ++ [new_item (fst (fetch_all_data w))]
  /\ historical_file (snd (fetch_and_store_data u w)) = historical_file w.
Proof.
  intros Hin Hx. unfold fetch_and_store_data.
  pose proof (fetch_all_data_file w) as Hfile.
  destruct (fetch_all_data w) as [cd w1]. cbn [now fst snd] in *.
  cbn [set_historical_data historical_data].
  match goal with
  | |- context [keep_recent _ ?l] =>
    change l with (historical_data u ++ [new_item cd])
  end.
  assert (Hraise : exists e,
            (cutoff_time <- minus_24h_r (now_at w1 (time_calls w1)) ;;
             keep_recent cutoff_time (historical_data u ++ [new_item cd]))
            = Raise e).
  { destruct (minus_24h_r _) as [c|e]; simpl; [|eauto].
    apply (@keep_recent_raises c _ x); [|exact Hx].
    apply in_or_app. now left. }
  destruct Hraise as [e ->]. cbn [fst snd historical_data historical_file].
  split; [reflexivity|exact Hfile].
Qed.

(** The entry loaded on the restart of 2 January is still there after
    the append, next to the new snapshot. *)
Lemma append_after_load_only_grows_witness :
  let s := restarted (mkdt 2024 1 2 11 0 0 0) (mkdt 2024 1 5 12 0 0 0) in
  historical_data (fst (fetch_and_store_data (fst s) (snd s)))
  = historical_data (fst s) ++ [new_item (fst (fetch_all_data (snd s)))]
  /\ historical_file (snd (fetch_and_store_data (fst s) (snd s)))
     = historical_file (snd s).
Proof.
  intros s.
  apply (@append_after_load_only_grows (fst s) (snd s)
           (hd [] (historical_data (fst s)))).
  - apply (@nth_error_In _ _ 0%nat). vm_compute. reflexivity.
  - exists (U "2024-01-01T12:00:00"). vm_compute. reflexivity.
Defined.

Lemma entry_time_serializable c x :
  appended c x -> entry_time (serializable x) = entry_time x.
Proof.
  intros (t & v & -> & Hv & _).
  change (serializable [(k_timestamp, VDatetime t); (k_data, v)])
    with [(k_timestamp, VStr (isoformat t));
          (k_data, _convert_datetimes_to_strings v)].
  unfold entry_time.
  change (Dict.get [(k_timestamp, VStr (isoformat t));
                    (k_data, _convert_datetimes_to_strings v)] k_timestamp)
    with (Some (VStr (isoformat t))).
  change (Dict.get [(k_timestamp, VDatetime t); (k_data, v)] k_timestamp)
    with (Some (VDatetime t)).
  cbv beta iota. now rewrite (isoformat_roundtrip _ Hv).
Qed.

(** X5.  Saving and loading at once gives back as many items, in the same
    order and standing for the same moments, each in its written form
    with the timestamp as text. *)
Theorem persist_then_load_preserves_moments u w c :
  disk_ok w = true ->
  minus_24h (now_at w (time_calls w)) = Some c ->
  Forall (appended c) (historical_data u) ->
  let h := fst (load_historical_data (save_historical_data u w)) in
  h = map serializable (historical_data u)
  /\ length h = length (historical_data u)
  /\ map entry_time h = map entry_time (historical_data u)
  /\ Forall has_text h.
Proof.
  intros Hdisk Hc Hl h. subst h.
  rewrite (save_then_load u w Hdisk Hc Hl).
  split; [reflexivity|]. split; [apply length_map|]. split.
  - rewrite map_map. apply map_ext_in. intros x Hx.
    rewrite Forall_forall in Hl. apply (entry_time_serializable (Hl x Hx)).
  - apply Forall_forall. intros y Hy. apply in_map_iff in Hy as (x & <- & Hx).
    rewrite Forall_forall in Hl. destruct (Hl x Hx) as (t & v & -> & _).
    exists (isoformat t). reflexivity.
Qed.

(** The history of the first run, saved and loaded at the same moment. *)
Lemma persist_then_load_preserves_moments_witness :
  let u := fst first_run in
  let w := snd first_run in
  let h := fst (load_historical_data (save_historical_data u w)) in
  h = map serializable (historical_data u)
  /\ length h = length (historical_data u)
  /\ map entry_time h = map entry_time (historical_data u)
  /\ Forall has_text h.
Proof.
  intros u w.
  apply (@persist_then_load_preserves_moments u w (mkdt 2023 12 31 12 0 0 0)).
  - reflexivity.
  - reflexivity.
  - assert (Hu : historical_data u
                 = [[ (k_timestamp, VDatetime noon_jan1);
                      (k_data,
                       match Dict.get (hd [] (historical_data u)) k_data with
                       | Some v => v
                       | None => VNone
                       end) ]])
      by (vm_compute; reflexivity).
    rewrite Hu. constructor; [|constructor].
    eexists _, _. split; [reflexivity|]. split; reflexivity.
Defined.

End HistoryProps.

(** ** The history file over the life of the program *)

Module UpdaterProps.

Lemma json_ok_dict l :
  json_ok (VDict l) = forallb (fun kv => json_ok (snd kv)) l.
Proof.
  induction l as [|[k v] l IH]; [reflexivity|].
  simpl in *. now rewrite IH.
Qed.

Lemma json_ok_get l k v :
  json_ok (VDict l) = true -> Dict.get l k = Some v -> json_ok v = true.
Proof.
  rewrite json_ok_dict. induction l as [|[k0 v0] l IH]; simpl; [easy|].
  intros H. apply andb_prop in H as [H0 Hl].
  destruct (ustr_eqb k k0); [now intros [= <-]|now apply IH].
Qed.

Lemma json_ok_set l k v :
  json_ok (VDict l) = true -> json_ok v = true ->
  json_ok (VDict (Dict.set l k v)) = true.
Proof.
  rewrite !json_ok_dict. induction l as [|[k0 v0] l IH]; simpl.
  - now intros _ ->.
  - intros H Hv. apply andb_prop in H as [H0 Hl].
    destruct (ustr_eqb k k0); simpl.
    + now rewrite Hv, Hl.
    + now rewrite H0, IH.
Qed.

Lemma serializable_json_ok x :
  storable x -> json_ok (VDict (serializable x)) = true.
Proof.
  intros [(t & v & ->)|Hx].
  - change (serializable [(k_timestamp, VDatetime t); (k_data, v)])
      with [(k_timestamp, VStr (isoformat t));
            (k_data, _convert_datetimes_to_strings v)].
    rewrite json_ok_dict. simpl. now rewrite convert_json_ok.
  - unfold serializable.
    destruct (Dict.get x k_timestamp) as [ts|] eqn:G.
    + pose proof (@json_ok_get x k_timestamp ts Hx G) as Hts.
      destruct ts; try discriminate Hts;
        (destruct (Dict.get x k_data) as [v|]; [|exact Hx];
         apply json_ok_set; [exact Hx|apply convert_json_ok]).
    + destruct (Dict.get x k_data) as [v|]; [|exact Hx].
      apply json_ok_set; [exact Hx|apply convert_json_ok].
Qed.

Lemma save_writes_json u w :
  Forall storable (historical_data u) ->
  loadable (historical_file w) ->
  loadable (historical_file (save_historical_data u w)).
Proof.
  intros Hs Hf. unfold save_historical_data.
  destruct (disk_ok w); [|exact Hf].
  assert (Hok : json_ok (VList (map (fun x => VDict (serializable x))
                                    (historical_data u))) = true).
  { cbn [json_ok]. induction Hs as [|x l Hx _ IH]; [reflexivity|].
    simpl map. cbn [forallb]. now rewrite (serializable_json_ok Hx), IH. }
  rewrite Hok. right. eexists. split; [reflexivity|exact Hok].
Qed.

Lemma load_loop_storable c data : forall acc l,
  forallb json_ok data = true ->
  load_loop c data acc = Ok l -> Forall storable acc -> Forall storable l.
Proof.
  induction data as [|x data IH]; intros acc l Hd; simpl.
  - now intros [= <-].
  - simpl in Hd. apply andb_prop in Hd as [Hx Hd].
    destruct (item_time x) as [[d t]|e] eqn:E; simpl; [|discriminate].
    apply item_time_entry in E as [-> _].
    intros H Hacc. apply (IH _ _ Hd H).
    destruct (dt_gtb t c); [|exact Hacc].
    apply Forall_app. split; [exact Hacc|].
    constructor; [now right|constructor].
Qed.

Lemma load_storable w :
  loadable (historical_file w) ->
  Forall storable (fst (load_historical_data w)).
Proof.
  intros Hf. unfold load_historical_data.
  destruct Hf as [->|(doc & -> & Hdoc)]; [constructor|].
  cbn [now fst snd].
  destruct (minus_24h_r _) as [c|e]; simpl; [|constructor].
  destruct (iterate doc) as [items|e] eqn:Ei; simpl; [|constructor].
  destruct (load_loop c items []) as [l|e] eqn:E; simpl; [|constructor].
  apply (@load_loop_storable c items [] l); [|exact E|constructor].
  destruct doc; try discriminate Ei; injection Ei as <-.
  - apply forallb_forall. intros y Hy. apply in_map_iff in Hy as (? & <- & _).
    reflexivity.
  - exact Hdoc.
  - apply forallb_forall. intros y Hy. apply in_map_iff in Hy as (? & <- & _).
    reflexivity.
Qed.

Lemma keep_recent_sublist c l : forall kept,
  keep_recent c l = Ok kept -> forall x, In x kept -> In x l.
Proof.
  induction l as [|y l IH]; simpl; intros kept.
  - intros [= <-] x [].
  - destruct (newer_than c y) as [b|e]; simpl; [|discriminate].
    destruct (keep_recent c l) as [tl|e]; simpl; [|discriminate].
    intros [= <-] x Hx. destruct b.
    + destruct Hx as [->|Hx]; [now left|right; now apply (IH tl)].
    + right. now apply (IH tl).
Qed.

Lemma fetch_and_store_data_storable u w :
  Forall storable (historical_data u) ->
  loadable (historical_file w) ->
  Forall storable (historical_data (fst (fetch_and_store_data u w)))
  /\ loadable (historical_file (snd (fetch_and_store_data u w))).
Proof.
  intros Hs Hf. unfold fetch_and_store_data.
  pose proof (HistoryProps.fetch_all_data_file w) as Hfile.
  destruct (fetch_all_data w) as [cd w1]. cbn [now fst snd] in *.
  cbn [set_historical_data historical_data].
  match goal with
  | |- context [keep_recent _ ?l] =>
    change l with (historical_data u ++ [new_item cd])
  end.
  assert (Hall : Forall storable (historical_data u ++ [new_item cd])).
  { apply Forall_app. split; [exact Hs|].
    constructor; [|constructor]. left. now eexists _, _. }
  destruct (_ <- minus_24h_r _ ;; _) as [kept|e] eqn:E;
    cbn [fst snd historical_data historical_file].
  - assert (Hk : Forall storable kept).
    { destruct (minus_24h_r _) as [c|e]; simpl in E; [|discriminate].
      apply Forall_forall. intros x Hx.
      rewrite Forall_forall in Hall. apply Hall.
      exact (@keep_recent_sublist c _ kept E x Hx). }
    split; [exact Hk|].
    unfold create_latest_visualizations. cbn [now snd].
    match goal with
    | |- loadable (historical_file (mkworld _ _ _ _ _ ?f _ _)) =>
      change (loadable f)
    end.
    apply save_writes_json; [exact Hk|].
    cbn [historical_file]. now rewrite Hfile.
  - split; [exact Hall|now rewrite Hfile].
Qed.

(** X6.  From a history file that is absent or a JSON document, the program
    never leaves a file it cannot load: after the start-up and any number
    of pipeline executions the file is absent or a JSON document, because
    what is handed to [json.dump] never holds a datetime. *)
Theorem history_file_stays_loadable :
  forall interval w n,
    loadable (historical_file w) ->
    loadable (historical_file (snd (after_updates n (init interval w))))
    /\ Forall storable
         (historical_data (fst (after_updates n (init interval w)))).
Proof.
  intros interval w n Hf. induction n as [|n [IHf IHs]].
  - unfold after_updates, init. simpl.
    pose proof (@load_storable w Hf) as Hl.
    unfold load_historical_data in *.
    destruct (historical_file w) as [| |doc] eqn:Ef; cbn [fst snd] in *;
      try (rewrite Ef; split; [exact Hf|constructor]).
    cbn [now fst snd] in *.
    destruct (_ <- minus_24h_r _ ;; _) as [l|e]; cbn [fst snd historical_file
      historical_data] in *; rewrite ?Ef; split; auto.
  - unfold after_updates in *. cbn [Nat.iter].
    destruct (@fetch_and_store_data_storable _ _ IHs IHf) as [H1 H2].
    split; assumption.
Qed.

(** The first run starts without a file. *)
Lemma history_file_stays_loadable_witness :
  loadable (historical_file
              (snd (after_updates 2
                      (init 5 (mkworld (fun _ => noon_jan1) offline 0 [] true
                                       Missing [] 0)))))
  /\ Forall storable
       (historical_data
          (fst (after_updates 2
                  (init 5 (mkworld (fun _ => noon_jan1) offline 0 [] true
                                   Missing [] 0))))).
Proof.
  apply history_file_stays_loadable. left. reflexivity.
Defined.

End UpdaterProps.

(** ** Reading the history back *)

Module ReadProps.

Lemma keep_recent_app c a : forall b,
  keep_recent c (a ++ b)
  = (ka <- keep_recent c a ;; kb <- keep_recent c b ;; Ok (ka ++ kb)).
Proof.
  induction a as [|x a IH]; intros b; simpl.
  - destruct (keep_recent c b); reflexivity.
  - destruct (newer_than c x) as [keep|e]; simpl; [|reflexivity].
    rewrite IH. destruct (keep_recent c a) as [ka|e]; simpl; [|reflexivity].
    destruct (keep_recent c b) as [kb|e]; simpl; [|reflexivity].
    now destruct keep.
Qed.

Lemma latest_of_snoc u l x v :
  historical_data u = l ++ [x] -> Dict.get x k_data = Some v ->
  get_latest_data u = Ok (Some v).
Proof.
  intros Hu Hv. unfold get_latest_data. rewrite Hu.
  destruct l as [|y l]; simpl app; cbv iota.
  - simpl. now rewrite Hv.
  - rewrite last_last. now rewrite Hv.
Qed.

(** X7.  After a pipeline execution the latest data is the snapshot just
    fetched, unless the clock ran more than 24 hours ahead between the
    fetch and the pruning. *)
Theorem latest_is_the_new_snapshot u w :
  let current_data := fst (fetch_all_data w) in
  let w1 := snd (fetch_all_data w) in
  (forall c, minus_24h (now_at w1 (time_calls w1)) = Some c ->
             dt_gtb (fetch_time current_data) c = true) ->
  get_latest_data (fst (fetch_and_store_data u w))
  = Ok (Some (py_of_all_data current_data)).
Proof.
  intros current_data w1 Hfresh. subst current_data w1.
  unfold fetch_and_store_data.
  destruct (fetch_all_data w) as [cd w1]. cbn [now fst snd] in *.
  cbn [set_historical_data historical_data].
  match goal with
  | |- context [keep_recent _ ?l] =>
    change l with (historical_data u ++ [new_item cd])
  end.
  unfold minus_24h_r.
  destruct (minus_24h (now_at w1 (time_calls w1))) as [c|];
    cbn [bind fst].
  - rewrite keep_recent_app.
    destruct (keep_recent c (historical_data u)) as [ka|e]; cbn [bind fst].
    + change (keep_recent c [new_item cd])
        with (Ok (if dt_gtb (fetch_time cd) c then [new_item cd] else [])
              : result (list item)).
      rewrite (Hfresh c eq_refl). cbn [bind fst].
      apply (@latest_of_snoc _ ka (new_item cd)); reflexivity.
    + apply (@latest_of_snoc _ (historical_data u) (new_item cd)); reflexivity.
  - apply (@latest_of_snoc _ (historical_data u) (new_item cd)); reflexivity.
Qed.

(** The first pipeline execution of a program started without a file. *)
Lemma latest_is_the_new_snapshot_witness :
  get_latest_data (fst first_run)
  = Ok (Some (py_of_all_data
                (fst (fetch_all_data
                        (mkworld (fun _ => noon_jan1) offline 0 [] true
                                 Missing [] 0))))).
Proof.
  apply (@latest_is_the_new_snapshot
           (mkupdater 5 [] false None)
           (mkworld (fun _ => noon_jan1) offline 0 [] true Missing [] 0)).
  intros c [= <-]. reflexivity.
Defined.

(** X8.  After a start-up that loaded anything from the file,
    [get_historical_data] raises for every number of hours and at every
    moment: the loaded timestamps are text. *)
Theorem history_read_fails_after_load interval w hours w' :
  historical_data (fst (init interval w)) <> [] ->
  exists e, fst (get_historical_data hours (fst (init interval w)) w') = Raise e.
Proof.
  intros Hne. unfold get_historical_data. cbn [now fst snd].
  destruct (minus_hours hours _) as [c|]; cbn [bind]; [|eauto].
  pose proof (HistoryProps.load_text w) as Ht.
  unfold init in *. destruct (load_historical_data w) as [h w0].
  cbn [fst historical_data] in *.
  destruct h as [|x l]; [now contradiction Hne|].
  inversion Ht as [|? ? Hx _]; subst.
  apply (@HistoryProps.keep_recent_raises c (x :: l) x); [now left|exact Hx].
Qed.

(** The restart of 2 January, asked for the last hour. *)
Lemma history_read_fails_after_load_witness :
  exists e,
    fst (get_historical_data 1
           (fst (init 5 (mkworld (fun _ => mkdt 2024 1 2 11 0 0 0) offline
                           0 [] true (historical_file (snd first_run)) [] 0)))
           (mkworld (fun _ => mkdt 2024 1 2 11 30 0 0) offline 0 [] true
                    Missing [] 0))
    = Raise e.
Proof.
  apply history_read_fails_after_load.
  intros H. apply (f_equal (@length _)) in H. vm_compute in H. discriminate H.
Defined.

Lemma iter_none (f : datetime -> option datetime) k :
  Nat.iter k (and_then f) None = None.
Proof. induction k as [|k IH]; [reflexivity|]. simpl. now rewrite IH. Qed.

(** Going back fewer hours than the hour of the day stays in the day. *)
Lemma iter_hours_within k : forall d,
  (Z.of_nat k <= hour d)%Z ->
  Nat.iter k (and_then hour_earlier) (Some d)
  = Some (with_hour d (hour d - Z.of_nat k)).
Proof.
  induction k as [|k IH]; intros d Hk.
  - simpl. destruct d; unfold with_hour; simpl. do 2 f_equal. lia.
  - rewrite Nat.iter_succ, IH by lia. cbn [and_then].
    unfold hour_earlier. cbn [with_hour hour].
    destruct (0 <? hour d - Z.of_nat k)%Z eqn:E.
    + unfold with_hour. cbn. do 2 f_equal. lia.
    + apply Z.ltb_ge in E. lia.
Qed.

Lemma and_then_some (f : datetime -> option datetime) x :
  and_then f (Some x) = f x.
Proof. reflexivity. Qed.

Lemma hour_earlier_midnight d :
  hour d = 0%Z ->
  hour_earlier d = option_map (fun p => with_hour p 23) (minus_24h d).
Proof. intros H. unfold hour_earlier. now rewrite H. Qed.

Lemma minus_24h_with_hour d h :
  minus_24h (with_hour d h)
  = option_map (fun p => with_hour p h) (minus_24h d).
Proof.
  destruct d as [y mo dd h0 mi sec us]. unfold minus_24h, with_hour.
  cbn [year month day hour minute second microsecond].
  destruct (1 <? dd)%Z; [|destruct (1 <? mo)%Z; [|destruct (1 <? y)%Z]];
    reflexivity.
Qed.

Lemma minus_24h_hour d p : minus_24h d = Some p -> hour p = hour d.
Proof.
  destruct d as [y mo dd h0 mi sec us]. unfold minus_24h.
  cbn [year month day hour minute second microsecond].
  destruct (1 <? dd)%Z; [|destruct (1 <? mo)%Z; [|destruct (1 <? y)%Z]];
    intros H; inversion H; reflexivity.
Qed.

(** Twenty-four single hours back end on the previous calendar day at
    the same time. *)
Lemma minus_hours_24 d :
  (0 <= hour d < 24)%Z -> minus_hours 24 d = minus_24h d.
Proof.
  intros Hh. unfold minus_hours.
  change (0 <=? 24)%Z with true. cbv iota.
  replace (Z.to_nat 24) with ((23 - Z.to_nat (hour d)) + (1 + Z.to_nat (hour d)))%nat
    by lia.
  rewrite Nat.iter_add, Nat.iter_add.
  rewrite iter_hours_within by lia.
  replace (hour d - Z.of_nat (Z.to_nat (hour d)))%Z with 0%Z by lia.
  rewrite (Nat.iter_succ 0). simpl (Nat.iter 0 _ _).
  rewrite and_then_some, hour_earlier_midnight, minus_24h_with_hour
    by (destruct d; reflexivity).
  destruct (minus_24h d) as [p|] eqn:E; cbn [option_map].
  - apply minus_24h_hour in E.
    rewrite iter_hours_within by (destruct p; cbn [with_hour hour]; lia).
    destruct p as [y mo dd h mi sec us]. unfold with_hour.
    cbn [year month day hour minute second microsecond] in *.
    do 2 f_equal. lia.
  - apply iter_none.
Qed.

(** X9.  On a history whose timestamps are all datetimes the window is read
    without an exception and is what the retention filter keeps for the
    cutoff of the call; with the default of 24 hours and a clock that
    reads what it read for the pruning of an append, it is the whole
    history that append left. *)
Theorem default_window_is_the_store u w w' :
  Forall has_datetime (historical_data u) ->
  let w1 := snd (fetch_all_data w) in
  let t := now_at w1 (time_calls w1) in
  let u' := fst (fetch_and_store_data u w) in
  (0 <= hour t < 24)%Z ->
  minus_24h t <> None ->
  now_at w' (time_calls w') = t ->
  fst (get_historical_data 24 u' w') = Ok (historical_data u').
Proof.
  intros Hd w1 t u' Hh Hc Hnow. subst u'.
  destruct (minus_24h t) as [c|] eqn:Ec; [clear Hc|now contradiction Hc].
  pose proof (@HistoryProps.append_filter u w Hd c Ec) as Heq.
  pose proof (@HistoryProps.new_item_datetime (historical_data u)
                (fst (fetch_all_data w)) Hd) as Hall.
  unfold get_historical_data. cbn [now fst snd].
  rewrite Hnow. fold w1 t. rewrite (minus_hours_24 _ Hh), Ec. cbn [bind].
  rewrite Heq.
  assert (Hdt : Forall has_datetime
                  (filter (is_fresh c)
                     (historical_data u ++ [new_item (fst (fetch_all_data w))]))).
  { apply Forall_forall. intros x Hx. apply filter_In in Hx as [Hx _].
    rewrite Forall_forall in Hall. now apply Hall. }
  rewrite (HistoryProps.keep_recent_filter c Hdt).
  f_equal. clear. induction (historical_data u ++ _) as [|x l IH];
    [reflexivity|].
  simpl. destruct (is_fresh c x) eqn:E; simpl; rewrite ?E; now rewrite IH.
Qed.

(** The first run, read back at the moment of its pruning. *)
Lemma default_window_is_the_store_witness :
  fst (get_historical_data 24 (fst first_run)
         (mkworld (fun _ => noon_jan1) offline 0 [] true Missing [] 0))
  = Ok (historical_data (fst first_run)).
Proof.
  apply (@default_window_is_the_store
           (mkupdater 5 [] false None)
           (mkworld (fun _ => noon_jan1) offline 0 [] true Missing [] 0)
           (mkworld (fun _ => noon_jan1) offline 0 [] true Missing [] 0)).
  - constructor.
  - cbn. lia.
  - discriminate.
  - reflexivity.
Defined.

End ReadProps.

(** ** Region names, and where the map draws them *)

Module RegionProps.
Import Rainfall.

Lemma sem_group_other r i : forall s g s' g',
  binds r i = false -> sem r s g s' g' -> group g' i = group g i.
Proof.
  induction r as [l|c|c|c|r IH|r1 IH1 r2 IH2|r1 IH1 r2 IH2|j r IH];
    simpl; intros s g s' g' Hb H.
  - now destruct H as [_ ->].
  - now destruct H as (x & _ & _ & ->).
  - now destruct H as (xs & _ & _ & ->).
  - now destruct H as (xs & _ & _ & _ & ->).
  - destruct H as [H|[_ ->]]; eauto.
  - apply orb_false_elim in Hb as [Hb1 Hb2].
    destruct H as (s1 & g1 & H1 & H2).
    transitivity (group g1 i); eauto.
  - apply orb_false_elim in Hb as [Hb1 Hb2]. destruct H; eauto.
  - apply orb_false_elim in Hb as [Hb1 Hb2].
    destruct H as (g1 & H1 & ->). simpl. rewrite Hb1. eauto.
Qed.

(** The text of group 1 when the pattern starts with it and has no other
    group of that number. *)
Lemma first_group (P : ustr -> Prop) R tail s g s' g' :
  (forall s g s' g', sem R s g s' g' -> exists r, s = r ++ s' /\ P r) ->
  binds tail 1 = false ->
  sem (RSeq (RGroup 1 R) tail) s g s' g' -> P (group g' 1).
Proof.
  intros HR Hb (s1 & g1 & (g0 & H0 & ->) & Ht).
  rewrite (@sem_group_other tail 1%nat _ _ _ _ Hb Ht). simpl.
  destruct (HR _ _ _ _ H0) as (r & -> & Hr). now rewrite firstn_captured.
Qed.

Lemma set_chars (P : N -> bool) l x :
  forallb P l = true -> in_cls (CSet l) x = true -> P x = true.
Proof.
  intros Hl Hx. simpl in Hx. apply existsb_exists in Hx as (y & Hy & E).
  apply N.eqb_eq in E. subst y. rewrite forallb_forall in Hl. auto.
Qed.

Lemma set_run (P : N -> bool) l xs :
  forallb P l = true -> forallb (in_cls (CSet l)) xs = true ->
  forallb P xs = true.
Proof.
  intros Hl Hxs. apply forallb_forall. intros x Hx.
  rewrite forallb_forall in Hxs. eauto using set_chars.
Qed.

Lemma space_run xs :
  forallb (in_cls CSpace) xs = true -> forallb not_latin xs = true.
Proof.
  intros H. apply forallb_forall. intros x Hx.
  rewrite forallb_forall in H. unfold not_latin.
  now rewrite (H x Hx : is_space x = true).
Qed.

(** The region group of the first two patterns. *)
Lemma dirs_region s g s' g' :
  sem (cat [RPlus (CSet cjk_dirs); RStar CSpace; ROpt (RCls (CSet cjk_qu))])
      s g s' g' ->
  exists r, s = r ++ s' /\ region_text r.
Proof.
  cbn [cat sem].
  intros (s1 & g1 & (xs & -> & Hne & Hxs & ->)
          & s2 & g2 & (sp & -> & Hsp & ->) & Hopt).
  assert (Hdirs : forallb (fun c => negb (is_space c) && not_latin c) cjk_dirs
                  = true) by (vm_compute; reflexivity).
  assert (Hqu : forallb not_latin cjk_qu = true) by (vm_compute; reflexivity).
  pose proof (@set_run _ cjk_dirs xs Hdirs Hxs) as Hxs'.
  assert (Hl : forallb not_latin xs = true).
  { apply forallb_forall. intros x Hx. rewrite forallb_forall in Hxs'.
    now destruct (andb_prop _ _ (Hxs' x Hx)). }
  destruct xs as [|c xs]; [now contradiction Hne|].
  assert (Hc : is_space c = false).
  { simpl in Hxs'. apply andb_prop in Hxs' as [Hc _].
    apply andb_prop in Hc as [Hc _]. now destruct (is_space c). }
  apply space_run in Hsp.
  destruct Hopt as [(x & -> & Hx & ->)|[-> ->]].
  - exists ((c :: xs) ++ sp ++ [x]). split; [now rewrite <- !app_assoc|].
    exists c, (xs ++ sp ++ [x]). split; [reflexivity|]. split; [exact Hc|].
    rewrite !forallb_app, Hl, Hsp. simpl.
    now rewrite (@set_chars not_latin cjk_qu x Hqu Hx).
  - exists ((c :: xs) ++ sp). split; [now rewrite <- !app_assoc|].
    exists c, (xs ++ sp). split; [reflexivity|]. split; [exact Hc|].
    now rewrite forallb_app, Hl, Hsp.
Qed.

Lemma fold_alt l : forall r0 (D : list ustr),
  (forall s g s' g', sem r0 s g s' g' -> exists d, In d D /\ s = d ++ s') ->
  forall s g s' g',
    sem (fold_left (fun r x => RAlt r (RLit x)) l r0) s g s' g' ->
    exists d, In d (D ++ l) /\ s = d ++ s'.
Proof.
  induction l as [|b l IH]; intros r0 D H0 s g s' g'; simpl.
  - rewrite app_nil_r. apply H0.
  - intros H. apply (IH (RAlt r0 (RLit b)) (D ++ [b])) in H.
    + now rewrite <- app_assoc in H.
    + clear - H0. intros s1 g1 s1' g1' [H|[-> _]].
      * destruct (H0 _ _ _ _ H) as (d & Hd & ->).
        exists d. split; [apply in_or_app; now left|reflexivity].
      * exists b. split; [apply in_or_app; right; now left|reflexivity].
Qed.

(** An alternation of literals matches one of them. *)
Lemma alternation_sem l s g s' g' :
  l <> [] -> sem (alternation l) s g s' g' -> exists d, In d l /\ s = d ++ s'.
Proof.
  destruct l as [|a l]; [easy|]. intros _ H. unfold alternation in H.
  apply (fold_alt l (RLit a) [a]) in H; [exact H|].
  intros s0 g0 s0' g0' [-> _]. exists a. split; [now left|reflexivity].
Qed.

(** The region group of the third pattern. *)
Lemma district_region s g s' g' :
  sem (alternation districts) s g s' g' ->
  exists r, s = r ++ s' /\ region_text r.
Proof.
  intros H. apply alternation_sem in H as (d & Hd & ->); [|discriminate].
  exists d. split; [reflexivity|].
  assert (Hall : forallb (fun d => match d with
                                   | c :: _ => negb (is_space c)
                                   | [] => false
                                   end && forallb not_latin d) districts = true)
    by (vm_compute; reflexivity).
  rewrite forallb_forall in Hall. apply Hall in Hd.
  apply andb_prop in Hd as [Hc Hl]. destruct d as [|c d]; [discriminate|].
  exists c, d. split; [reflexivity|]. split; [now destruct (is_space c)|exact Hl].
Qed.

(** Whatever pattern matched, the first element of the tuple is a region
    text. *)
Lemma region_of_match p text m :
  In p patterns -> In m (findall p text) -> region_text (hd [] m).
Proof.
  intros Hp H. apply findall_sound in H as (s0 & g & rest & Hs & ->).
  destruct Hp as [<-|[<-|[<-|[]]]].
  - change (hd [] (group_tuple pattern1 g)) with (group g 1).
    revert Hs. apply first_group; [apply dirs_region|reflexivity].
  - change (hd [] (group_tuple pattern2 g)) with (group g 1).
    revert Hs. apply first_group; [apply dirs_region|reflexivity].
  - change (hd [] (group_tuple pattern3 g)) with (group g 1).
    revert Hs. apply first_group; [apply district_region|reflexivity].
Qed.

(** *** Trimming *)

Lemma lstrip_In x s : In x (lstrip s) -> In x s.
Proof.
  induction s as [|c s IH]; simpl; [easy|].
  destruct (is_space c); [right; auto|easy].
Qed.

Lemma strip_In x s : In x (strip s) -> In x s.
Proof.
  unfold strip. intros H. apply in_rev in H. apply lstrip_In in H.
  apply in_rev in H. now apply lstrip_In in H.
Qed.

Lemma lstrip_head s :
  match lstrip s with
  | [] => True
  | c :: _ => is_space c = false
  end.
Proof.
  induction s as [|c s IH]; simpl; [exact I|].
  destruct (is_space c) eqn:E; [exact IH|exact E].
Qed.

Lemma lstrip_fixed s :
  match s with [] => True | c :: _ => is_space c = false end ->
  lstrip s = s.
Proof. destruct s as [|c s]; simpl; [easy|]. now intros ->. Qed.

Lemma lstrip_suffix s : exists p, s = p ++ lstrip s.
Proof.
  induction s as [|c s [p IH]]; simpl; [now exists []|].
  destruct (is_space c); [|now exists []].
  exists (c :: p). simpl. now f_equal.
Qed.

Lemma strip_trimmed s : trimmed (strip s).
Proof.
  unfold trimmed, strip. rewrite rev_involutive.
  set (t := lstrip (rev (lstrip s))).
  split; [|apply lstrip_fixed, lstrip_head].
  apply lstrip_fixed.
  destruct (lstrip_suffix (rev (lstrip s))) as [p Hp]. fold t in Hp.
  apply (f_equal (@rev N)) in Hp. rewrite rev_involutive, rev_app_distr in Hp.
  pose proof (lstrip_head s) as Hh. rewrite Hp in Hh.
  destruct (rev t) as [|c u]; [exact I|exact Hh].
Qed.

Lemma trimmed_strip s : trimmed s -> strip s = s.
Proof.
  intros [H1 H2]. unfold strip. now rewrite H1, H2, rev_involutive.
Qed.

Lemma lstrip_snoc l c : is_space c = false -> lstrip (l ++ [c]) <> [].
Proof.
  intros Hc. induction l as [|a l IH]; simpl.
  - now rewrite Hc.
  - destruct (is_space a); [exact IH|discriminate].
Qed.

Lemma strip_region r : region_text r -> strip r <> [].
Proof.
  intros (c & rest & -> & Hc & _). unfold strip.
  rewrite (@lstrip_fixed (c :: rest) Hc). simpl rev.
  intros H. apply (f_equal (@rev N)) in H. rewrite rev_involutive in H.
  now apply (@lstrip_snoc (rev rest) c Hc).
Qed.

(** *** Where a region is drawn *)

Lemma contains_head a p s : contains (a :: p) s = true -> In a s.
Proof.
  induction s as [|b s IH]; simpl; [easy|].
  intros H. apply orb_prop in H as [H|H]; [|right; auto].
  apply andb_prop in H as [H _]. apply N.eqb_eq in H. now left.
Qed.

Lemma find_coords_none name ds :
  Forall (fun kw => contains kw name = false) (keywords ds) ->
  Visualizer.find_coords name ds = None.
Proof.
  induction ds as [|[d c] ds IH]; simpl; [reflexivity|].
  unfold keywords. simpl. intros H. apply Forall_app in H as [Hd Hds].
  replace (existsb _ (Visualizer.split d)) with false; [now apply IH|].
  symmetry. apply not_true_is_false. intros E.
  apply existsb_exists in E as (kw & Hkw & E).
  rewrite Forall_forall in Hd. rewrite (Hd kw Hkw) in E. discriminate E.
Qed.

Lemma no_keyword_in_region name :
  forallb not_latin name = true ->
  Visualizer.find_coords name get_district_coordinates = None.
Proof.
  intros Hn. apply find_coords_none.
  assert (Hk : forallb (fun kw => match kw with
                                  | a :: _ => negb (not_latin a)
                                  | [] => false
                                  end) (keywords get_district_coordinates)
               = true) by (vm_compute; reflexivity).
  apply Forall_forall. intros kw Hkw.
  rewrite forallb_forall in Hk. apply Hk in Hkw.
  destruct kw as [|a kw]; [discriminate|].
  apply not_true_is_false. intros E. apply contains_head in E.
  rewrite forallb_forall in Hn. rewrite (Hn a E) in Hkw. discriminate Hkw.
Qed.

(** What parsing returns, in terms of the dictionary it built. *)
Lemma parsed_report now text rep :
  parse_rainfall now text = Ok rep ->
  Forall (produced patterns text) (regions rep)
  /\ total_regions rep = length (regions rep)
  /\ (regions rep <> [] ->
      report_average_rainfall rep
      = (sum (avg_values (regions rep))
         / inject_Z (Z.of_nat (length (avg_values (regions rep)))))%Q).
Proof.
  destruct (parse_rainfall_spec now text) as (d & _ & Hprod & Hparse).
  rewrite Hparse. intros [= <-]. destruct d as [|kr d]; simpl.
  - split; [constructor|]. split; [reflexivity|easy].
  - split; [exact Hprod|]. split; reflexivity.
Qed.

(** The name under which a region is filed. *)
Lemma region_key now text rep k :
  parse_rainfall now text = Ok rep -> In k (Dict.keys (regions rep)) ->
  exists r, k = strip r /\ region_text r.
Proof.
  intros Hp Hk. destruct (@parsed_report now text rep Hp) as (Hprod & _).
  apply in_map_iff in Hk as ([k' rd] & <- & Hin).
  rewrite Forall_forall in Hprod.
  destruct (Hprod _ Hin) as (p & m & Hpat & Hm & Hs).
  destruct (@stores_facts p text m _ _ Hpat Hm Hs) as (Hkey & _).
  exists (hd [] m). split; [exact Hkey|].
  exact (@region_of_match p text m Hpat Hm).
Qed.

(** X10.  No region that parsing finds is drawn at the coordinates of a
    district: the region names are Chinese, the district names of the
    table are English, so the search for a district word in the name
    fails and the map falls back on random coordinates. *)
Theorem parsed_regions_match_no_district now text rep k :
  parse_rainfall now text = Ok rep ->
  In k (Dict.keys (regions rep)) ->
  Visualizer.find_coords k get_district_coordinates = None.
Proof.
  intros Hp Hk.
  destruct (@region_key now text rep k Hp Hk) as (r & -> & c & rest & _ & _ & Hr).
  apply no_keyword_in_region. apply forallb_forall. intros x Hx.
  apply strip_In in Hx. rewrite forallb_forall in Hr. auto.
Qed.

(** The region of the text "中西區1毫米". *)
Lemma parsed_regions_match_no_district_witness :
  Visualizer.find_coords (U "中西區") get_district_coordinates = None.
Proof.
  apply (@parsed_regions_match_no_district noon_jan1 (U "中西區1毫米")
           (report_of noon_jan1 (U "中西區1毫米"))).
  - vm_compute. reflexivity.
  - vm_compute. left. reflexivity.
Defined.

(** X11.  Every region name of a report is filed trimmed and is not empty:
    trimming it again changes nothing. *)
Theorem region_names_are_trimmed now text rep k :
  parse_rainfall now text = Ok rep ->
  In k (Dict.keys (regions rep)) ->
  k <> [] /\ strip k = k.
Proof.
  intros Hp Hk. destruct (@region_key now text rep k Hp Hk) as (r & -> & Hr).
  split; [now apply strip_region|].
  apply trimmed_strip, strip_trimmed.
Qed.

(** The text "中西 區 1毫米", whose region is filed as "中西 區". *)
Lemma region_names_are_trimmed_witness :
  U "中西 區" <> [] /\ strip (U "中西 區") = U "中西 區".
Proof.
  apply (@region_names_are_trimmed noon_jan1 (U "中西 區 1毫米")
           (report_of noon_jan1 (U "中西 區 1毫米"))).
  - vm_compute. reflexivity.
  - vm_compute. left. reflexivity.
Defined.

End RegionProps.

(** ** The figures of a reading *)

Module ReadingProps.
Import Rainfall.
Local Open Scope Q_scope.

Lemma py_float_whole s q : digit_run s -> py_float s = Ok q -> whole q.
Proof.
  intros [Hne Hd]. unfold py_float. rewrite (split_dot_run _ Hd).
  destruct (digits_value_run s 0%N Hd) as [n Hn]. rewrite Hn.
  destruct s as [|c s]; [now contradiction Hne|].
  cbn [digits_value length]. intros [= <-]. exists n.
  unfold Qeq. simpl. lia.
Qed.

Lemma midpoint_same q : q == (q + q) / 2.
Proof. field. Qed.

(** What the loop body files for a tuple the patterns can yield. *)
Lemma stored_whole m k r :
  well_formed m -> stores m k r ->
  whole (min_rainfall r) /\ whole (max_rainfall r)
  /\ average_rainfall r == (min_rainfall r + max_rainfall r) / 2.
Proof.
  unfold stores, store_match.
  intros [(region & v & -> & Hv)|(region & a & b & -> & Ha & [->|Hb])].
  - destruct (py_float_run Hv) as [q Hq]. rewrite Hq. cbn [bind Dict.set].
    intros [= <- <-]. cbn [min_rainfall max_rainfall average_rainfall].
    pose proof (py_float_whole Hv Hq). auto using midpoint_same.
  - destruct (py_float_run Ha) as [q Hq]. rewrite Hq. cbn [bind Dict.set].
    intros [= <- <-]. cbn [min_rainfall max_rainfall average_rainfall].
    pose proof (py_float_whole Ha Hq). auto using midpoint_same.
  - destruct (py_float_run Ha) as [qa Hqa].
    destruct (py_float_run Hb) as [qb Hqb].
    destruct b as [|c b]; [now destruct Hb|].
    rewrite Hqa, Hqb. cbn [bind Dict.set].
    intros [= <- <-]. cbn [min_rainfall max_rainfall average_rainfall].
    pose proof (py_float_whole Ha Hqa). pose proof (py_float_whole Hb Hqb).
    repeat split; auto; reflexivity.
Qed.

(** X12.  As long as the figures are within the range of binary64 (below
    10^307 mm; beyond it the source reads infinity), the bounds of every
    reading are whole numbers of millimetres, since the patterns capture
    runs of digits only, and the average is always the midpoint of the
    two bounds, whether the text gave one figure or two. *)
Theorem readings_are_whole_millimetres now text rep k r :
  parse_rainfall now text = Ok rep ->
  within_binary64 (regions rep) ->
  In (k, r) (regions rep) ->
  whole (min_rainfall r) /\ whole (max_rainfall r)
  /\ average_rainfall r == (min_rainfall r + max_rainfall r) / 2.
Proof.
  intros Hp _ Hin.
  destruct (@RegionProps.parsed_report now text rep Hp) as (Hprod & _).
  rewrite Forall_forall in Hprod.
  destruct (Hprod _ Hin) as (p & m & Hpat & Hm & Hs).
  exact (@stored_whole m k r (@patterns_well_formed p text m Hpat Hm) Hs).
Qed.

(** The reading of "西貢0至5毫米": 0, 5 and 5/2. *)
Lemma readings_are_whole_millimetres_witness :
  let r := snd (first_reading
                  (regions (report_of noon_jan1 (U "西貢0至5毫米")))) in
  whole (min_rainfall r) /\ whole (max_rainfall r)
  /\ average_rainfall r == (min_rainfall r + max_rainfall r) / 2.
Proof.
  intros r.
  apply (@readings_are_whole_millimetres noon_jan1 (U "西貢0至5毫米")
           (report_of noon_jan1 (U "西貢0至5毫米"))
           (fst (first_reading
                   (regions (report_of noon_jan1 (U "西貢0至5毫米")))))).
  - vm_compute. reflexivity.
  - repeat constructor.
  - vm_compute. left. reflexivity.
Defined.

End ReadingProps.

(** ** The bar chart, the regional statistics and the markers *)

Module ChartProps.
Import Rainfall Visualizer.
Local Open Scope Q_scope.

Lemma Qltb_lt a b : Qltb a b = true <-> a < b.
Proof.
  unfold Qltb. destruct (Qle_bool b a) eqn:E; simpl.
  - apply Qle_bool_iff in E. split; [discriminate|intros H; lra].
  - split; [intros _|reflexivity]. apply Qnot_le_lt. intros H.
    apply Qle_bool_iff in H. congruence.
Qed.

Lemma Qltb_ge a b : Qltb a b = false <-> b <= a.
Proof.
  unfold Qltb. destruct (Qle_bool b a) eqn:E; simpl.
  - apply Qle_bool_iff in E. split; [intros _; exact E|reflexivity].
  - split; [discriminate|]. intros H. apply Qle_bool_iff in H. congruence.
Qed.

Lemma py_max_ge a b : a <= py_max a b /\ b <= py_max a b.
Proof.
  unfold py_max. destruct (Qltb a b) eqn:E.
  - apply Qltb_lt in E. split; lra.
  - apply Qltb_ge in E. split; lra.
Qed.

Lemma py_max_list_ge l : forall x,
  x <= py_max_list x l /\ Forall (fun a => a <= py_max_list x l) l.
Proof.
  unfold py_max_list. induction l as [|a l IH]; intros x; simpl.
  - split; [apply Qle_refl|constructor].
  - destruct (IH (py_max x a)) as [H1 H2].
    destruct (py_max_ge x a) as [Hx Ha].
    split; [eapply Qle_trans; eauto|].
    constructor; [eapply Qle_trans; eauto|exact H2].
Qed.

Lemma py_max_list_In l : forall x, In (py_max_list x l) (x :: l).
Proof.
  unfold py_max_list. induction l as [|a l IH]; intros x; simpl.
  - now left.
  - destruct (IH (py_max x a)) as [H|H]; [|right; now right].
    rewrite <- H. unfold py_max. destruct (Qltb x a); [right|]; now left.
Qed.

(** The largest of amounts that are not negative is zero exactly when
    all of them are. *)
Lemma py_max_list_zero x l :
  Forall (fun a => 0 <= a) (x :: l) ->
  (py_max_list x l == 0 <-> Forall (fun a => a == 0) (x :: l)).
Proof.
  intros Hpos. destruct (py_max_list_ge l x) as [Hx Hl]. split.
  - intros Hz. inversion Hpos as [|? ? Hx0 Hl0]; subst.
    constructor; [lra|].
    rewrite Forall_forall in *. intros a Ha.
    pose proof (Hl a Ha). pose proof (Hl0 a Ha). lra.
  - intros Hz. rewrite Forall_forall in Hz. apply Hz, py_max_list_In.
Qed.

Lemma mean_zero l :
  l <> [] -> Forall (fun a => 0 <= a) l ->
  (sum l / inject_Z (Z.of_nat (length l)) == 0 <-> Forall (fun a => a == 0) l).
Proof.
  intros Hne Hpos.
  pose proof (@RainfallClaims.length_pos_Q _ l Hne) as Hn.
  assert (Hn0 : ~ inject_Z (Z.of_nat (length l)) == 0) by lra.
  split.
  - intros Hz. apply RainfallClaims.total_zero; [exact Hpos|].
    rewrite <- RainfallClaims.sum_total.
    rewrite <- (Qmult_div_r (sum l) _ Hn0), Hz. ring.
  - intros Hz. apply RainfallClaims.total_all_zero in Hz.
    rewrite RainfallClaims.sum_total, Hz. unfold Qdiv. ring.
Qed.

Lemma bar_colors_raise m a l :
  m == 0 -> exists e, bar_colors m (a :: l) = Raise e.
Proof.
  intros Hm. simpl. unfold bar_color, py_div.
  apply Qeq_bool_iff in Hm. rewrite Hm. simpl. eauto.
Qed.

Lemma py_int_of_range q n :
  0 <= q -> q <= inject_Z n -> (0 <= py_int_of q <= n)%Z.
Proof.
  destruct q as [num den]. unfold Qle, py_int_of. simpl. intros H1 H2.
  rewrite Z.quot_div_nonneg by lia. split.
  - apply Z.div_pos; lia.
  - apply Z.div_le_upper_bound; lia.
Qed.

Lemma bar_color_scale m a :
  0 < m -> 0 <= a <= m ->
  exists c, bar_color m a = Ok c /\ in_scale c.
Proof.
  intros Hm [Ha0 Ham]. unfold bar_color, py_div.
  destruct (Qeq_bool m 0) eqn:E; [apply Qeq_bool_iff in E; lra|].
  cbn [bind]. eexists. split; [reflexivity|].
  assert (H0 : 0 <= a / m) by (apply Qle_shift_div_l; lra).
  assert (H1 : a / m <= 1) by (apply Qle_shift_div_r; lra).
  assert (R : (0 <= py_int_of (a / m * 200) <= 200)%Z)
    by (apply py_int_of_range; [|change (inject_Z 200) with 200]; lra).
  assert (G : (0 <= py_int_of (a / m * 150) <= 150)%Z)
    by (apply py_int_of_range; [|change (inject_Z 150) with 150]; lra).
  unfold in_scale. lia.
Qed.

Lemma bar_colors_scale m l :
  0 < m -> Forall (fun a => 0 <= a <= m) l ->
  exists cs, bar_colors m l = Ok cs /\ length cs = length l
             /\ Forall in_scale cs.
Proof.
  intros Hm. induction 1 as [|a l Ha _ (cs & Hcs & Hlen & Hall)]; simpl.
  - exists []. repeat split. constructor.
  - destruct (@bar_color_scale m a Hm Ha) as (c & Hc & Hin).
    rewrite Hc, Hcs. simpl. exists (c :: cs). split; [reflexivity|].
    split; [simpl; now rewrite Hlen|now constructor].
Qed.

(** The amounts of a report: none is negative, and none exceeds the
    largest. *)
Lemma amounts_of_report now text rep :
  parse_rainfall now text = Ok rep ->
  Forall (fun a => 0 <= a) (avg_values (regions rep)).
Proof.
  intros Hp. destruct (@RegionProps.parsed_report now text rep Hp) as (H & _).
  exact (@RainfallClaims.produced_nonneg text (regions rep) H).
Qed.

(** What the bar chart is, for a report with regions. *)
Lemma bar_chart_cases now text rep :
  parse_rainfall now text = Ok rep -> regions rep <> [] ->
  (report_average_rainfall rep == 0
   /\ create_rainfall_bar_chart (Data rep) = EmptyFigure)
  \/ (~ report_average_rainfall rep == 0
      /\ exists colors,
           create_rainfall_bar_chart (Data rep)
           = Bars (Dict.keys (regions rep)) (avg_values (regions rep)) colors
           /\ length colors = length (regions rep)
           /\ Forall in_scale colors).
Proof.
  intros Hp Hne. pose proof (@amounts_of_report now text rep Hp) as Hpos.
  destruct (@RegionProps.parsed_report now text rep Hp) as (_ & _ & Havg).
  rewrite (Havg Hne). clear Havg.
  unfold create_rainfall_bar_chart.
  destruct (regions rep) as [|kr d] eqn:Er; [now contradiction Hne|].
  assert (Hl : length (avg_values (kr :: d)) = length (kr :: d))
    by (unfold avg_values, Dict.values; now rewrite !length_map).
  assert (Hane : avg_values (kr :: d) <> []) by discriminate.
  pose proof (@mean_zero _ Hane Hpos) as Hmean.
  remember (avg_values (kr :: d)) as amounts eqn:Ea.
  destruct amounts as [|x l]; [now contradiction Hane|].
  pose proof (@py_max_list_zero x l Hpos) as Hmax.
  destruct (Qeq_dec (py_max_list x l) 0) as [Hz|Hnz].
  - left. split; [now apply Hmean, Hmax|].
    destruct (@bar_colors_raise _ x l Hz) as [e ->]. reflexivity.
  - right. split; [intros H; now apply Hnz, Hmax, Hmean|].
    destruct (py_max_list_ge l x) as [Hx Hle].
    assert (Hm : 0 < py_max_list x l).
    { inversion Hpos; subst. lra. }
    assert (Hall : Forall (fun a => 0 <= a <= py_max_list x l) (x :: l)).
    { apply Forall_forall. intros a Ha. split.
      - rewrite Forall_forall in Hpos. auto.
      - destruct Ha as [<-|Ha]; [exact Hx|].
        rewrite Forall_forall in Hle. auto. }
    destruct (@bar_colors_scale _ _ Hm Hall) as (cs & -> & Hlen & Hsc).
    exists cs. split; [reflexivity|]. split; [|exact Hsc].
    now rewrite Hlen.
Qed.

(** X13.  For a report with regions whose figures are within the range
    of binary64 (below 10^307 mm; beyond it the source divides infinity
    by infinity and fails on the result), the bar chart comes out as the
    empty figure of the [except] branch exactly when the report average
    is 0: the colour scale divides by the largest amount. *)
Theorem bar_chart_is_empty_without_rain now text rep :
  parse_rainfall now text = Ok rep -> regions rep <> [] ->
  within_binary64 (regions rep) ->
  (create_rainfall_bar_chart (Data rep) = EmptyFigure
   <-> report_average_rainfall rep == 0).
Proof.
  intros Hp Hne _.
  destruct (@bar_chart_cases now text rep Hp Hne)
    as [[Hz Hc]|[Hnz (cs & Hc & _)]];
    rewrite Hc; split; auto; try discriminate.
  intros H. now contradiction Hnz.
Qed.

(** One region at 0 mm: the report has a region, and no bar is drawn. *)
Lemma bar_chart_is_empty_without_rain_witness :
  create_rainfall_bar_chart (Data (report_of noon_jan1 (U "中西區0毫米")))
  = EmptyFigure.
Proof.
  apply (@bar_chart_is_empty_without_rain noon_jan1 (U "中西區0毫米")).
  - vm_compute. reflexivity.
  - vm_compute. discriminate.
  - repeat constructor.
  - vm_compute. reflexivity.
Defined.

(** X14.  When bars are drawn there is one for every region, in the order of
    the dictionary, with the region's average as its height and a colour
    within the scale. *)
Theorem bars_follow_the_regions now text rep names amounts colors :
  parse_rainfall now text = Ok rep ->
  create_rainfall_bar_chart (Data rep) = Bars names amounts colors ->
  names = Dict.keys (regions rep)
  /\ amounts = avg_values (regions rep)
  /\ length colors = length names
  /\ Forall in_scale colors.
Proof.
  intros Hp Hc.
  assert (Hne : regions rep <> []).
  { intros E. unfold create_rainfall_bar_chart in Hc. rewrite E in Hc.
    discriminate Hc. }
  destruct (@bar_chart_cases now text rep Hp Hne)
    as [[_ Hc']|[_ (cs & Hc' & Hlen & Hsc)]];
    rewrite Hc' in Hc; [discriminate Hc|].
  injection Hc as <- <- <-. repeat split; auto.
  unfold Dict.keys. now rewrite length_map.
Qed.

(** The two regions of "中西區1毫米 西貢0至5毫米": the bar of the lower
    amount is the lighter one. *)
Lemma bars_follow_the_regions_witness :
  let rep := report_of noon_jan1 (U "中西區1毫米 西貢0至5毫米") in
  Dict.keys (regions rep) = Dict.keys (regions rep)
  /\ avg_values (regions rep) = avg_values (regions rep)
  /\ length [(175, 195, 255); (55, 105, 255)]%Z
     = length (Dict.keys (regions rep))
  /\ Forall in_scale [(175, 195, 255); (55, 105, 255)]%Z.
Proof.
  intros rep.
  apply (@bars_follow_the_regions noon_jan1 (U "中西區1毫米 西貢0至5毫米") rep).
  - vm_compute. reflexivity.
  - vm_compute. reflexivity.
Defined.

Lemma one_class a :
  0 <= a ->
  ((if Qeq_bool a 0 then 1 else 0)
   + (if Qltb 0 a && Qle_bool a 2 then 1 else 0)
   + (if Qltb 2 a then 1 else 0) = 1)%nat.
Proof.
  intros Ha.
  destruct (Qeq_bool a 0) eqn:E0;
    [apply Qeq_bool_iff in E0|apply Qeq_bool_neq in E0];
    (destruct (Qltb 0 a) eqn:E1; [apply Qltb_lt in E1|apply Qltb_ge in E1]);
    (destruct (Qltb 2 a) eqn:E2; [apply Qltb_lt in E2|apply Qltb_ge in E2]);
    (destruct (Qle_bool a 2) eqn:E3;
     [apply Qle_bool_iff in E3
     |assert (~ a <= 2) by (intros H; apply Qle_bool_iff in H; congruence)]);
    simpl; try reflexivity; exfalso; lra.
Qed.

Lemma statistics_cover l :
  Forall (fun a => 0 <= a) l ->
  (count (fun a => Qeq_bool a 0) l
   + count (fun a => Qltb 0 a && Qle_bool a 2) l
   + count (fun a => Qltb 2 a) l = length l)%nat.
Proof.
  unfold count. induction 1 as [|a l Ha _ IH]; simpl; [reflexivity|].
  pose proof (@one_class a Ha) as H1.
  destruct (Qeq_bool a 0), (Qltb 0 a && Qle_bool a 2), (Qltb 2 a);
    simpl in *; lia.
Qed.

(** X15.  The regional statistics count every region of a report exactly once:
    dry, light rain and heavy rain add up to the number of regions. *)
Theorem statistics_count_every_region now text rep :
  parse_rainfall now text = Ok rep ->
  counted (regional_statistics (regions rep)) = total_regions rep.
Proof.
  intros Hp. pose proof (@amounts_of_report now text rep Hp) as Hpos.
  destruct (@RegionProps.parsed_report now text rep Hp) as (_ & -> & _).
  unfold counted, regional_statistics.
  rewrite (@statistics_cover _ Hpos).
  unfold avg_values, Dict.values. now rewrite !length_map.
Qed.

(** One region with rain and one with none. *)
Lemma statistics_count_every_region_witness :
  counted (regional_statistics
             (regions (report_of noon_jan1 (U "中西區1毫米 西貢0至5毫米"))))
  = total_regions (report_of noon_jan1 (U "中西區1毫米 西貢0至5毫米")).
Proof.
  apply (@statistics_count_every_region noon_jan1
           (U "中西區1毫米 西貢0至5毫米")).
  vm_compute. reflexivity.
Defined.

Lemma py_min_le a b : py_min a b <= a /\ py_min a b <= b.
Proof.
  unfold py_min. destruct (Qltb b a) eqn:E.
  - apply Qltb_lt in E. split; lra.
  - apply Qltb_ge in E. split; lra.
Qed.

Lemma py_min_glb a b c : c <= a -> c <= b -> c <= py_min a b.
Proof. intros. unfold py_min. now destruct (Qltb b a). Qed.

Lemma py_max_lub a b c : a <= c -> b <= c -> py_max a b <= c.
Proof. intros. unfold py_max. now destruct (Qltb a b). Qed.

(** X16.  The radius of a marker lies between 5 and 20 whatever the amount,
    and a larger amount never gets a smaller marker. *)
Theorem marker_radius_is_clamped :
  forall a,
    5 <= marker_radius a <= 20
    /\ forall b, a <= b -> marker_radius a <= marker_radius b.
Proof.
  intros a. unfold marker_radius. split; [split|].
  - apply py_max_ge.
  - apply py_max_lub; [lra|apply py_min_le].
  - intros b Hab.
    destruct (py_max_ge 5 (py_min 20 (b * 2))) as [H5 Hb].
    apply py_max_lub; [exact H5|].
    eapply Qle_trans; [|exact Hb].
    destruct (py_min_le 20 (a * 2)) as [H20 Ha].
    apply py_min_glb; [exact H20|lra].
Qed.

(** 3 mm and 4 mm. *)
Lemma marker_radius_is_clamped_witness :
  (5 <= marker_radius 3 <= 20) /\ marker_radius 3 <= marker_radius 4.
Proof.
  destruct (marker_radius_is_clamped 3) as [H1 H2].
  split; [exact H1|]. apply H2. discriminate.
Defined.

End ChartProps.

(** ** The level and the list of warnings *)

Module WarningProps.

Lemma scan_image_level acc src :
  (fst acc = [] <-> snd acc = none) ->
  (fst (scan_image acc src) = [] <-> snd (scan_image acc src) = none).
Proof.
  destruct acc as [active lvl]. unfold scan_image. simpl. intros H.
  destruct (contains (U "ts") src); [|destruct (contains (U "rain") src);
    [|destruct (contains (U "wind") src)]]; simpl; try exact H;
    (split; intros E; [now destruct active|discriminate E]).
Qed.

Lemma scan_images_level srcs : forall acc,
  (fst acc = [] <-> snd acc = none) ->
  (fst (fold_left scan_image srcs acc) = []
   <-> snd (fold_left scan_image srcs acc) = none).
Proof.
  induction srcs as [|src srcs IH]; intros acc H; simpl; [exact H|].
  apply IH. now apply scan_image_level.
Qed.

Lemma listed_nonempty w active :
  (if existsb (warning_eqb w) active then active else active ++ [w]) <> [].
Proof.
  destruct active as [|x l]; simpl; [discriminate|].
  destruct (warning_eqb w x || existsb (warning_eqb w) l); discriminate.
Qed.

Lemma listed_In w active :
  In w (if existsb (warning_eqb w) active then active else active ++ [w]).
Proof.
  destruct (existsb (warning_eqb w) active) eqn:E.
  - now apply WarningClaims.existsb_warning.
  - apply in_or_app. right. now left.
Qed.

Lemma listed_keeps w w' active :
  In w' active ->
  In w' (if existsb (warning_eqb w) active then active else active ++ [w]).
Proof.
  intros H. destruct (existsb (warning_eqb w) active); [exact H|].
  apply in_or_app. now left.
Qed.

Lemma scan_keywords_level acc text :
  (fst acc = [] <-> snd acc = none) ->
  (fst (scan_keywords acc text) = [] <-> snd (scan_keywords acc text) = none).
Proof.
  destruct acc as [active lvl]. unfold scan_keywords. simpl. intros H.
  destruct (contains (U "雷暴警告") text), (contains (U "暴雨警告") text);
    simpl; try exact H;
    (split; intros E; [now apply listed_nonempty in E|discriminate E]).
Qed.

(** X17.  The level is [none] exactly when no warning is listed: every warning
    that is listed raises the level, and nothing else does. *)
Theorem level_is_none_iff_no_warning :
  forall now p,
    warning_level (parse_warnings now p) = none
    <-> active_warnings (parse_warnings now p) = [].
Proof.
  intros now p. unfold parse_warnings.
  set (acc := fold_left scan_image _ _).
  assert (Hacc : fst acc = [] <-> snd acc = none)
    by (apply scan_images_level; now split).
  pose proof (@scan_keywords_level acc (lower (get_text p)) Hacc) as Hk.
  destruct (scan_keywords acc (lower (get_text p))) as [active lvl].
  simpl in *. now symmetry.
Qed.

(** X18.  A warning phrase in the text of the page lists its warning, whatever
    the images showed, and sets the level to [high]. *)
Theorem warning_phrases_are_listed :
  forall now p,
    let ws := parse_warnings now p in
    let text_content := lower (get_text p) in
    (contains (U "雷暴警告") text_content = true ->
     In thunderstorm (active_warnings ws) /\ warning_level ws = high)
    /\ (contains (U "暴雨警告") text_content = true ->
        In heavy_rain (active_warnings ws) /\ warning_level ws = high).
Proof.
  intros now p ws text_content. subst ws text_content.
  unfold parse_warnings.
  destruct (fold_left scan_image _ _) as [active lvl].
  unfold scan_keywords.
  destruct (contains (U "雷暴警告") (lower (get_text p))),
           (contains (U "暴雨警告") (lower (get_text p)));
    simpl; split; intros H; try discriminate H; split; try reflexivity.
  - apply listed_keeps, listed_In.
  - apply listed_In.
  - apply listed_In.
  - apply listed_In.
Qed.

(** A page without warning images whose text announces a thunderstorm
    warning. *)
Lemma warning_phrases_are_listed_witness :
  In thunderstorm
     (active_warnings (parse_warnings noon_jan1 (mksoup [U "雷暴警告"] [])))
  /\ warning_level (parse_warnings noon_jan1 (mksoup [U "雷暴警告"] [])) = high.
Proof.
  apply (proj1 (warning_phrases_are_listed noon_jan1
                  (mksoup [U "雷暴警告"] []))).
  vm_compute. reflexivity.
Defined.

End WarningProps.

(** ** Temperature and humidity *)

Module WeatherProps.
Local Open Scope Q_scope.

Lemma py_int_nonneg s z : py_int s = Ok z -> (0 <= z)%Z.
Proof.
  unfold py_int.
  destruct (int_max_str_digits <? Z.of_nat (length s))%Z; [discriminate|].
  destruct s as [|c s]; [discriminate|].
  destruct (digits_value 0 (c :: s)); [|discriminate].
  intros [= <-]. lia.
Qed.

Lemma first_match_post (A : Type) (P : A -> Prop) r
      (conv : ustr -> result A) elements a :
  (forall s x, conv s = Ok x -> P x) ->
  first_match r conv elements = Ok (Some a) -> P a.
Proof.
  intros Hconv. induction elements as [|x rest IH]; simpl; [discriminate|].
  destruct (search_groups r x) as [g|]; [|exact IH].
  destruct (conv (group g 1)) as [v|e] eqn:E; simpl; [|discriminate].
  intros [= <-]. eauto.
Qed.

(** X19.  The temperature and the humidity read from a page are never
    negative: the patterns start at the digits, so a minus sign before
    the numeral is not read. *)
Theorem readings_are_not_negative p w x :
  fst (parse_weather p w) = Ok x ->
  match temperature x with Some t => 0 <= t | None => True end
  /\ match humidity x with Some h => (0 <= h)%Z | None => True end.
Proof.
  unfold parse_weather, weather_data. cbn [now fst].
  destruct (first_match re_temp py_float _) as [temp|e] eqn:Et;
    cbn [bind]; [|discriminate].
  destruct (first_match re_humidity py_int _) as [hum|e] eqn:Eh;
    cbn [bind]; [|discriminate].
  intros [= <-]. cbn [temperature humidity]. split.
  - destruct temp as [t|]; [|exact I].
    revert Et. apply first_match_post. exact py_float_nonneg.
  - destruct hum as [h|]; [|exact I].
    revert Eh. apply first_match_post. exact py_int_nonneg.
Qed.

(** A page that shows -3°C and 85%: the temperature is read as 3. *)
Lemma readings_are_not_negative_witness :
  let x := weather_of (mksoup [U "-3°C"; U "85%"] [])
             (mkworld (fun _ => noon_jan1) offline 0 [] true Missing [] 0) in
  match temperature x with Some t => 0 <= t | None => True end
  /\ match humidity x with Some h => (0 <= h)%Z | None => True end.
Proof.
  intros x.
  apply (@readings_are_not_negative (mksoup [U "-3°C"; U "85%"] [])
           (mkworld (fun _ => noon_jan1) offline 0 [] true Missing [] 0)).
  vm_compute. reflexivity.
Defined.

Lemma starts_contains p s : starts_with p s = true -> contains p s = true.
Proof. destruct s; simpl; now intros ->. Qed.

Lemma contains_tail a p s : contains (a :: p) s = true -> contains p s = true.
Proof.
  induction s as [|b s IH]; [discriminate|].
  cbn [contains starts_with]. intros H. apply orb_true_iff. right.
  apply orb_prop in H as [H|H]; [|now apply IH].
  apply andb_prop in H as [_ H]. now apply starts_contains.
Qed.

(** X20.  The status is 'raining' exactly when the text of the page holds the
    character 雨: the test for 驟雨 adds nothing, and a page that
    mentions rain anywhere is never 'cloudy' or 'sunny'.  Without that
    character the status follows 多雲, then 天晴. *)
Theorem rain_decides_the_status :
  forall weather_text,
    (classify weather_text = raining
     <-> contains (U "雨") weather_text = true)
    /\ (contains (U "雨") weather_text = false ->
        classify weather_text
        = if contains (U "多雲") weather_text then cloudy
          else if contains (U "天晴") weather_text then sunny
          else unknown).
Proof.
  intros weather_text. unfold classify.
  assert (Hshower : contains (U "驟雨") weather_text = true ->
                    contains (U "雨") weather_text = true).
  { assert (E : U "驟雨" = hd 0%N (U "驟雨") :: U "雨")
      by (vm_compute; reflexivity).
    rewrite E. apply contains_tail. }
  destruct (contains (U "雨") weather_text) eqn:Er; cbn [orb].
  - split; [now split|discriminate].
  - destruct (contains (U "驟雨") weather_text) eqn:Es;
      [now discriminate (Hshower eq_refl)|].
    split; [|reflexivity].
    split; [|discriminate].
    now destruct (contains (U "多雲") weather_text),
                 (contains (U "天晴") weather_text).
Qed.

(** A cloudy day on which the page also names the rainfall figures. *)
Lemma rain_decides_the_status_witness :
  classify (U "多雲 雨量") = raining.
Proof.
  apply (proj1 (rain_decides_the_status (U "多雲 雨量"))).
  vm_compute. reflexivity.
Defined.

End WeatherProps.

(** ** Stopping the background updates *)

Module StopProps.

(** X21.  Stopping clears the scheduler and the flag and leaves the history
    alone; a start after it is effective again: it registers exactly one
    job, with the updater's interval, and starts one more thread. *)
Theorem stop_then_start_runs_again :
  forall u w,
    let s1 := stop (u, w) in
    let s2 := start s1 in
    is_running (fst s1) = false
    /\ jobs (snd s1) = []
    /\ historical_data (fst s1) = historical_data u
    /\ historical_file (snd s1) = historical_file w
    /\ is_running (fst s2) = true
    /\ jobs (snd s2) = [update_interval u]
    /\ threads_started (snd s2) = S (threads_started w).
Proof.
  intros u w s1 s2. subst s1 s2. unfold stop, start, stop_background_updates.
  cbn [fst snd].
  repeat (split; [reflexivity|]).
  destruct (@SchedulerClaims.start_when_stopped
              (mkupdater (update_interval u) (historical_data u) false
                         (update_thread u))
              (schedule_clear w) eq_refl) as (H1 & H2 & H3 & _).
  split; [exact H1|]. split; [exact H2|exact H3].
Qed.

End StopProps.

(** ** The history of the dashboard callback *)

Module DashboardProps.
Import Dashboard.

Lemma keep_recent_decoded_fresh c l : forall kept,
  keep_recent_decoded c l = Ok kept -> Forall (fresh_value c) kept.
Proof.
  induction l as [|x l IH]; simpl; intros kept.
  - intros [= <-]. constructor.
  - destruct (item_time x) as [[d t]|e] eqn:E; simpl; [|discriminate].
    destruct (keep_recent_decoded c l) as [tl|e]; simpl; [|discriminate].
    intros [= <-]. destruct (dt_gtb t c) eqn:G; [|now apply IH].
    constructor; [|now apply IH].
    apply item_time_entry in E as [-> Ht]. exists d. split; [reflexivity|].
    now exists t.
Qed.

Lemma keep_recent_decoded_raises c l x e :
  In x l -> item_time x = Raise e ->
  exists e', keep_recent_decoded c l = Raise e'.
Proof.
  induction l as [|y l IH]; intros []; intros Hx; simpl.
  - subst y. rewrite Hx. simpl. eauto.
  - destruct (item_time y) as [dt|e0]; simpl; [|eauto].
    destruct (IH H Hx) as [e' ->]. simpl. eauto.
Qed.

(** X22.  When the timestamps of the stored history are in the layout
    the callback itself writes, the history it returns holds only
    dictionaries whose timestamp, decoded from its text, is newer than
    the cutoff of the call. *)
Theorem dashboard_keeps_only_fresh hist w c :
  let w1 := snd (fetch_all_data w) in
  Forall program_written (match hist with Some l => l | None => [] end) ->
  minus_24h (now_at w1 (time_calls w1)) = Some c ->
  Forall (fresh_value c) (snd (fst (update_data hist w))).
Proof.
  intros w1 _ Hc. subst w1. unfold update_data, minus_24h_r.
  destruct (fetch_all_data w) as [new_data w1]. cbn [now fst snd] in *.
  rewrite Hc. cbn [bind].
  destruct (keep_recent_decoded c _) as [kept|e] eqn:E; cbn [fst snd].
  - exact (@keep_recent_decoded_fresh c _ kept E).
  - constructor.
Qed.

(** A call of the callback at noon of 1 January, on a stored history
    with one item of an hour ago. *)
Lemma dashboard_keeps_only_fresh_witness :
  Forall (fresh_value (mkdt 2023 12 31 12 0 0 0))
    (snd (fst (update_data
                 (Some [ VDict [(k_timestamp, VStr (U "2024-01-01T11:00:00"));
                                (k_data, VNone)] ])
                 (mkworld (fun _ => noon_jan1) offline 0 [] true Missing [] 0)))).
Proof.
  apply dashboard_keeps_only_fresh; [|reflexivity].
  constructor; [|constructor]. right.
  eexists _, _. split; [reflexivity|]. split; [reflexivity|].
  exists (mkdt 2024 1 1 11 0 0 0). split; reflexivity.
Defined.

(** X23.  One item of the stored history that is not a dictionary, has no
    timestamp or has one that is not text costs the dashboard everything:
    the callback returns no data and the empty history, the snapshot just
    fetched included. *)
Theorem dashboard_bad_item_empties_history l w x :
  In x l -> malformed x ->
  fst (update_data (Some l) w) = (None, []).
Proof.
  intros Hx Hm. destruct (HistoryProps.malformed_raises x Hm) as [e He].
  unfold update_data.
  destruct (fetch_all_data w) as [new_data w1]. cbn [now fst snd].
  destruct (minus_24h_r _) as [c|e0]; cbn [bind]; [|reflexivity].
  destruct (@keep_recent_decoded_raises c
              (l ++ [VDict [(k_timestamp, VStr (isoformat (fetch_time new_data)));
                            (k_data, py_of_all_data new_data)]]) x e)
    as [e' He']; [apply in_or_app; now left|exact He|].
  rewrite He'. reflexivity.
Qed.

(** A stored history whose only item has no timestamp. *)
Lemma dashboard_bad_item_empties_history_witness :
  fst (update_data (Some [VDict [(k_data, VNone)]])
         (mkworld (fun _ => noon_jan1) offline 0 [] true Missing [] 0))
  = (None, []).
Proof.
  apply (@dashboard_bad_item_empties_history
           [VDict [(k_data, VNone)]] _ (VDict [(k_data, VNone)])).
  - now left.
  - exact I.
Defined.

End DashboardProps.

(** ** The time series of the latest visualizations *)

Module SeriesProps.
Import Rainfall.

(** X24.  In the time series a snapshot stands with the time of its fetch and
    the report average; a snapshot whose rainfall fetch failed, or found
    no region, stands with the integer 0, as if no rain had fallen. *)
Theorem failed_fetch_is_drawn_as_zero :
  forall current_data,
    viz_item (new_item current_data)
    = Ok (VDict
            [ (U "rainfall_data",
               VDict [ (k_timestamp, VDatetime (fetch_time current_data));
                       (U "average_rainfall",
                        match rainfall_data current_data with
                        | Data rep =>
                          match regions rep with
                          | [] => VInt 0
                          | _ :: _ => VFloat (report_average_rainfall rep)
                          end
                        | Error _ _ => VInt 0
                        end) ]) ]).
Proof.
  intros [t cw [rep|t' e] ww dc]; [destruct (regions rep) eqn:E|];
    unfold viz_item, new_item, average_of_snapshot, py_of_all_data,
      py_of_facet, py_of_report; cbn [rainfall_data fetch_time];
    rewrite ?E; reflexivity.
Qed.

End SeriesProps.

(** ** The conversion of datetimes before saving *)

Module ConvertProps.

Lemma convert_fixed : forall v,
  json_ok v = true -> _convert_datetimes_to_strings v = v.
Proof.
  fix IH 1. intros [| | | | | |l|l]; simpl; try reflexivity.
  - discriminate.
  - intros H. f_equal. induction l as [|a l IHl]; simpl in *; [reflexivity|].
    apply andb_prop in H as [Ha Hl]. now rewrite (IH a Ha), (IHl Hl).
  - intros H. f_equal. induction l as [|[k a] l IHl]; simpl in *;
      [reflexivity|].
    apply andb_prop in H as [Ha Hl]. now rewrite (IH a Ha), (IHl Hl).
Qed.

(** X25.  The conversion leaves no datetime at any depth of the value, so
    [json.dump] can write its result; a value that holds no datetime is
    returned as it is, and converting twice is converting once. *)
Theorem conversion_leaves_no_datetime :
  forall v,
    json_ok (_convert_datetimes_to_strings v) = true
    /\ _convert_datetimes_to_strings (_convert_datetimes_to_strings v)
       = _convert_datetimes_to_strings v
    /\ (json_ok v = true -> _convert_datetimes_to_strings v = v).
Proof.
  intros v. split; [apply convert_json_ok|]. split; [|apply convert_fixed].
  apply convert_fixed, convert_json_ok.
Qed.

(** A dictionary as the rainfall fetch leaves it after a failure, once
    converted. *)
Lemma conversion_leaves_no_datetime_witness :
  _convert_datetimes_to_strings
    (VDict [(k_timestamp, VStr (U "2024-01-01T12:00:00"));
            (k_error, VStr (U "timed out"))])
  = VDict [(k_timestamp, VStr (U "2024-01-01T12:00:00"));
           (k_error, VStr (U "timed out"))].
Proof.
  apply (proj2 (proj2 (conversion_leaves_no_datetime _))). reflexivity.
Defined.

End ConvertProps.

(** ** Documents of another shape *)

Module LoadProps.

(** X26.  A history file whose document is not a list gives the empty history:
    iterating over an object yields its keys, over a string its
    characters, and neither has a timestamp; any other value cannot be
    iterated over. *)
Theorem load_needs_a_list w doc :
  historical_file w = Document doc ->
  (forall l, doc <> VList l) ->
  fst (load_historical_data w) = [].
Proof.
  intros Hf Hdoc. unfold load_historical_data. rewrite Hf. cbn [now fst snd].
  destruct (minus_24h_r _) as [c|e]; cbn [bind]; [|reflexivity].
  destruct doc as [| | | |s| |l|d]; try reflexivity.
  - destruct s; reflexivity.
  - now contradiction (Hdoc l).
  - destruct d as [|[k v] d]; reflexivity.
Qed.

(** A file that holds one item instead of a list of items. *)
Lemma load_needs_a_list_witness :
  fst (load_historical_data
         (mkworld (fun _ => noon_jan1) offline 0 [] true
            (Document (VDict [(k_timestamp, VStr (U "2024-01-01T11:00:00"));
                              (k_data, VNone)]))
            [] 0))
  = [].
Proof.
  apply (@load_needs_a_list _
           (VDict [(k_timestamp, VStr (U "2024-01-01T11:00:00"));
                   (k_data, VNone)])).
  - reflexivity.
  - discriminate.
Defined.

End LoadProps.
